(** * ArduinoUploader: the STK500v1 upload sequence of [serialService.ts]

    A shallow embedding of the class [ArduinoUploader]
    (src/services/serialService.ts): the Intel-HEX line decoding of
    [uploadHexData], the command/response exchanges of
    [enterProgrammingMode], [writePage] and [leaveProgrammingMode], the
    response reader [readResponse] and the [try]/[catch]/[finally] of
    [uploadSketch]; and, in the module [SerialService], of the class
    [SerialService] of the same file: the serial monitor with its
    listeners, [connect], [disconnect], [sendMessage] and the reading
    loop.

    The serial port, the clock and the progress callback are the
    environment.  A run is a function from a [World] (the instance fields
    of the uploader together with the script of what the environment will
    answer) to a [Run]: how the call settled, the world it left behind and
    the calls it made on the environment, in order. *)

From Stdlib Require Import String Ascii List ZArith QArith Qround Bool Arith Lia Sorted.
Import ListNotations.
Close Scope Q_scope.

Set Implicit Arguments.

(* ================================================================== *)
(** ** The JavaScript primitives the uploader relies on *)
(* ================================================================== *)

Module JS.

(** A string is a sequence of code units; the model keeps the code units
    below 256, which covers every character an Intel-HEX file holds. *)
Definition text := list ascii.

(** The numbers that occur are the results of [parseInt]: an integer or
    [NaN] ([None]). *)
Definition number := option Z.

Definition NaN : number := None.
Definition num (z : Z) : number := Some z.

Definition code (c : ascii) : nat := nat_of_ascii c.

(** WhiteSpace and LineTerminator code units below 256: TAB, LF, VT, FF,
    CR, SP and NBSP.  Both [String.prototype.trim] and [parseInt] strip
    them. *)
Definition isWhiteSpace (c : ascii) : bool :=
  let n := code c in
  (n =? 9) || (n =? 10) || (n =? 11) || (n =? 12) || (n =? 13)
  || (n =? 32) || (n =? 160).

Fixpoint trimStart (s : text) : text :=
  match s with
  | [] => []
  | c :: rest => if isWhiteSpace c then trimStart rest else s
  end.

Definition trim (s : text) : text := rev (trimStart (rev (trimStart s))).

(** A string is truthy when it is not empty. *)
Definition truthy (s : text) : bool :=
  match s with [] => false | _ :: _ => true end.

Fixpoint startsWith (s prefix : text) {struct prefix} : bool :=
  match prefix, s with
  | [], _ => true
  | _ :: _, [] => false
  | p :: prefix', c :: s' => Ascii.eqb c p && startsWith s' prefix'
  end.

(** [s.substr(start, len)]: at most [len] code units from [start]; empty
    when [start] is past the end. *)
Definition substr (s : text) (start len : nat) : text :=
  firstn len (skipn start s).

(** [s.split(sep)] for a one-character separator; the empty string
    splits into one empty piece. *)
Fixpoint split (sep : ascii) (s : text) : list text :=
  match s with
  | [] => [[]]
  | c :: rest =>
      if Ascii.eqb c sep then [] :: split sep rest
      else match split sep rest with
           | [] => [[c]]
           | piece :: pieces => (c :: piece) :: pieces
           end
  end.

Definition hexDigit (c : ascii) : option Z :=
  let n := code c in
  if (48 <=? n) && (n <=? 57) then Some (Z.of_nat n - 48)%Z
  else if (97 <=? n) && (n <=? 102) then Some (Z.of_nat n - 87)%Z
  else if (65 <=? n) && (n <=? 70) then Some (Z.of_nat n - 55)%Z
  else None.

(** The digits of the longest prefix made of radix-16 digits. *)
Fixpoint hexPrefix (s : text) : list Z :=
  match s with
  | [] => []
  | c :: rest =>
      match hexDigit c with
      | Some d => d :: hexPrefix rest
      | None => []
      end
  end.

Definition hexValue (digits : list Z) : Z :=
  fold_left (fun acc d => acc * 16 + d)%Z digits 0%Z.

(** [parseInt(s, 16)]: leading white space is skipped, then an optional
    sign, then an optional [0x] or [0X], then the longest run of
    hexadecimal digits; [NaN] when that run is empty.  Whatever follows
    the run is ignored.  (The uploader only parses pieces of at most
    four characters, so the value is exact.) *)
Definition parseInt16 (s : text) : number :=
  let s1 := trimStart s in
  let '(sign, s2) :=
    match s1 with
    | "-"%char :: r => ((-1)%Z, r)
    | "+"%char :: r => (1%Z, r)
    | _ => (1%Z, s1)
    end in
  let s3 :=
    match s2 with
    | "0"%char :: "x"%char :: r => r
    | "0"%char :: "X"%char :: r => r
    | _ => s2
    end in
  match hexPrefix s3 with
  | [] => NaN
  | digits => num (sign * hexValue digits)
  end.

(** ToInt32, applied by the bitwise operators. *)
Definition toInt32 (x : number) : Z :=
  match x with
  | None => 0
  | Some z => ((z + 2 ^ 31) mod 2 ^ 32 - 2 ^ 31)%Z
  end.

(** [x & y] and [x >> k]. *)
Definition bitAnd (x y : number) : Z := Z.land (toInt32 x) (toInt32 y).
Definition shiftRight (x : number) (k : Z) : Z := Z.shiftr (toInt32 x) k.

(** The conversion [new Uint8Array(numbers)] applies to each element. *)
Definition toUint8 (x : number) : Z :=
  match x with
  | None => 0
  | Some z => (z mod 256)%Z
  end.

(** [x === y] and [x > y] on numbers; every comparison with [NaN] is
    false. *)
Definition strictEq (x y : number) : bool :=
  match x, y with
  | Some a, Some b => (a =? b)%Z
  | _, _ => false
  end.

Definition gt (x y : number) : bool :=
  match x, y with
  | Some a, Some b => (b <? a)%Z
  | _, _ => false
  end.

(** The number of iterations of [for (let j = 0; j < bound; j++)]. *)
Definition iterations (bound : number) : nat :=
  match bound with
  | None => 0
  | Some z => Z.to_nat z
  end.

(** [Math.round]: to the nearest integer, halves upwards. *)
Definition round (q : Q) : Z := Qfloor (q + (1 # 2))%Q.

End JS.

Definition ascii_text (s : string) : JS.text := list_ascii_of_string s.

(* ================================================================== *)
(** ** Progress snapshots, options and errors *)
(* ================================================================== *)

Inductive Stage : Type :=
| connecting | syncing | uploading | verifying | complete | error.

(** The operations of the port that can reject. *)
Inductive TransportOp : Type :=
| OpSetSignals | OpGetReader | OpGetWriter | OpWrite | OpRead | OpCancel | OpClose.

(** What the uploader throws.  [ResponseTimeout] stands for the message
    [Timeout waiting for response. Expected e, got g]; [TransportFailure]
    for whatever a rejected port operation carries; [CallbackFailure] for
    an exception thrown by the caller's [onProgress]. *)
Inductive Error : Type :=
| NoPortAvailable
| FailedToSync
| FailedToEnterProgrammingMode
| FailedToSetAddress (address : JS.number)
| FailedToWritePage (address : JS.number)
| FailedToLeaveProgrammingMode
| WriterNotAvailable
| ReaderNotAvailable
| ResponseTimeout (expected got : nat)
| TransportFailure (op : TransportOp)
| CallbackFailure.

Inductive Message : Type :=
| ConnectingToBootloader
| SyncedWithBootloader
| UploadingSketch
| UploadingPercent (rounded : Z)
| VerifyingUpload
| VerificationComplete
| UploadCompleted
| UploadFailed (cause : Error).

Record UploadProgress : Type := mkProgress {
  stage : Stage;
  progress : Q;
  message : Message
}.

(** [onProgress] is optional; the function tells whether the callback
    throws on a snapshot. *)
Record UploadOptions : Type := mkOptions {
  boardId : JS.text;
  baudRate : Z;
  hexData : JS.text;
  onProgress : option (UploadProgress -> bool)
}.

(* ================================================================== *)
(** ** The port and the world *)
(* ================================================================== *)

(** [port.readable] and [port.writable]: null, a stream that is already
    locked (so that [getReader]/[getWriter] throws), or a free stream. *)
Inductive Stream : Type := NoStream | LockedStream | OpenStream.

Record SerialPort : Type := mkPort {
  hasSetSignals : bool;
  readable : Stream;
  writable : Stream
}.

Inductive Reader : Type := TheReader.
Inductive Writer : Type := TheWriter.

(** How one [reader.read()] settles: a chunk, end of stream, a rejection
    (each after [elapsed] milliseconds), or never. *)
Inductive ReadEvent : Type :=
| Chunk (elapsed : Z) (value : list Z)
| Done (elapsed : Z)
| Rejected (elapsed : Z)
| Never.

(** The instance fields [port], [reader] and [writer] of the uploader,
    the clock [Date.now()] reads, and the script of the environment: what
    the successive reads yield ([inbox]; once it is used up the stream is
    closed), which of the successive [writer.write] and [setSignals] calls
    reject (none once the list is used up), and whether [reader.cancel()]
    and [writer.close()] reject.

    A script is a finite list: the worlds are the environments in which
    the device delivers finitely many chunks before its stream ends.  A
    device that goes on answering for ever is not one of them; what the
    uploader does with such a device is stated through the scripts of
    every length (theorem [sync_attempts_unbounded]), and nothing below
    says that a call settles on it. *)
Record World : Type := mkWorld {
  this_port : option SerialPort;
  this_reader : option Reader;
  this_writer : option Writer;
  clock : Z;
  inbox : list ReadEvent;
  writeFaults : list bool;
  signalFaults : list bool;
  cancelFault : bool;
  closeFault : bool
}.

Definition set_port (p : option SerialPort) (w : World) : World :=
  mkWorld p (this_reader w) (this_writer w) (clock w) (inbox w)
          (writeFaults w) (signalFaults w) (cancelFault w) (closeFault w).

Definition set_reader (r : option Reader) (w : World) : World :=
  mkWorld (this_port w) r (this_writer w) (clock w) (inbox w)
          (writeFaults w) (signalFaults w) (cancelFault w) (closeFault w).

Definition set_writer (r : option Writer) (w : World) : World :=
  mkWorld (this_port w) (this_reader w) r (clock w) (inbox w)
          (writeFaults w) (signalFaults w) (cancelFault w) (closeFault w).

Definition tick (ms : Z) (w : World) : World :=
  mkWorld (this_port w) (this_reader w) (this_writer w) (clock w + ms)%Z (inbox w)
          (writeFaults w) (signalFaults w) (cancelFault w) (closeFault w).

Definition set_inbox (i : list ReadEvent) (w : World) : World :=
  mkWorld (this_port w) (this_reader w) (this_writer w) (clock w) i
          (writeFaults w) (signalFaults w) (cancelFault w) (closeFault w).

Definition set_writeFaults (f : list bool) (w : World) : World :=
  mkWorld (this_port w) (this_reader w) (this_writer w) (clock w) (inbox w)
          f (signalFaults w) (cancelFault w) (closeFault w).

Definition set_signalFaults (f : list bool) (w : World) : World :=
  mkWorld (this_port w) (this_reader w) (this_writer w) (clock w) (inbox w)
          (writeFaults w) f (cancelFault w) (closeFault w).

Inductive Warning : Type :=
| DtrResetNotSupported | DtrResetFailed | CleanupError.

(** The calls a run makes on its environment. *)
Inductive Event : Type :=
| EvSetSignals (dataTerminalReady : bool) (requestToSend : option bool)
| EvDelay (ms : Z)
| EvGetReader
| EvGetWriter
| EvWrite (buffer : list Z)
| EvRead (issuedAt : Z)
| EvProgress (snapshot : UploadProgress)
| EvCancel
| EvClose
| EvWarn (what : Warning).

(* ================================================================== *)
(** ** Runs *)
(* ================================================================== *)

(** An awaited call returns, throws, or never settles. *)
Inductive Outcome (A : Type) : Type :=
| Returned (a : A)
| Thrown (e : Error)
| Pending.

Arguments Thrown {A} e.
Arguments Pending {A}.

Record Run (A : Type) : Type := mkRun {
  outcome : Outcome A;
  final : World;
  emitted : list Event
}.

Definition M (A : Type) : Type := World -> Run A.

Definition ret {A} (a : A) : M A := fun w => mkRun (Returned a) w [].
Definition throw {A} (e : Error) : M A := fun w => mkRun (Thrown e) w [].
Definition emit (ev : Event) : M unit := fun w => mkRun (Returned tt) w [ev].

(** [after evs r]: the run [r] preceded by the events [evs]. *)
Definition after {A} (evs : list Event) (r : Run A) : Run A :=
  mkRun (outcome r) (final r) (evs ++ emitted r).

Definition bind {A B} (m : M A) (k : A -> M B) : M B := fun w =>
  let r := m w in
  match outcome r with
  | Returned a => after (emitted r) (k a (final r))
  | Thrown e => mkRun (Thrown e) (final r) (emitted r)
  | Pending => mkRun Pending (final r) (emitted r)
  end.

Declare Scope run_scope.
Delimit Scope run_scope with run.
Notation "x <- m ;; k" := (bind m (fun x => k))
  (at level 61, m at next level, right associativity) : run_scope.
Notation "m ;; k" := (bind m (fun _ => k))
  (at level 61, right associativity) : run_scope.
Open Scope run_scope.

(** [try { body } catch (e) { handler e }]. *)
Definition tryCatch {A} (body : M A) (handler : Error -> M A) : M A := fun w =>
  let r := body w in
  match outcome r with
  | Thrown e => after (emitted r) (handler e (final r))
  | _ => r
  end.

(** [try { body } finally { finalizer }]: the finalizer runs once the body
    has returned or thrown, and the body's completion is then resumed
    unless the finalizer itself throws. *)
Definition tryFinally {A} (body : M A) (finalizer : M unit) : M A := fun w =>
  let r := body w in
  match outcome r with
  | Pending => r
  | _ =>
      let f := finalizer (final r) in
      match outcome f with
      | Returned _ => mkRun (outcome r) (final f) (emitted r ++ emitted f)
      | Thrown e => mkRun (Thrown e) (final f) (emitted r ++ emitted f)
      | Pending => mkRun Pending (final f) (emitted r ++ emitted f)
      end
  end.

Definition getPort : M (option SerialPort) := fun w => ret (this_port w) w.
Definition getReader : M (option Reader) := fun w => ret (this_reader w) w.
Definition getWriter : M (option Writer) := fun w => ret (this_writer w) w.
Definition update (f : World -> World) : M unit := fun w => mkRun (Returned tt) (f w) [].

(** [options.onProgress?.(snapshot)]. *)
Definition notify (options : UploadOptions) (snapshot : UploadProgress) : M unit :=
  match onProgress options with
  | None => ret tt
  | Some callback =>
      emit (EvProgress snapshot) ;;
      if callback snapshot then throw CallbackFailure else ret tt
  end.

Definition warn (what : Warning) : M unit := emit (EvWarn what).

(** [delay(ms)]. *)
Definition delay (ms : Z) : M unit :=
  emit (EvDelay ms) ;; update (tick ms).

(** One call of [port.setSignals]. *)
Definition setSignals (dtr : bool) (rts : option bool) : M unit :=
  emit (EvSetSignals dtr rts) ;;
  fun w =>
    match signalFaults w with
    | [] => ret tt w
    | fault :: rest =>
        (update (set_signalFaults rest) ;;
         if fault then throw (TransportFailure OpSetSignals) else ret tt) w
    end.

(** [writer.write(buffer)]. *)
Definition writerWrite (buffer : list Z) : M unit :=
  emit (EvWrite buffer) ;;
  fun w =>
    match writeFaults w with
    | [] => ret tt w
    | fault :: rest =>
        (update (set_writeFaults rest) ;;
         if fault then throw (TransportFailure OpWrite) else ret tt) w
    end.

(** [reader.cancel()] and [writer.close()]. *)
Definition readerCancel : M unit :=
  emit EvCancel ;;
  fun w => if cancelFault w then throw (TransportFailure OpCancel) w else ret tt w.

Definition writerClose : M unit :=
  emit EvClose ;;
  fun w => if closeFault w then throw (TransportFailure OpClose) w else ret tt w.

(* ================================================================== *)
(** ** class ArduinoUploader *)
(* ================================================================== *)

(** STK500v1 protocol constants. *)
Definition STK_GET_SYNC : Z := 0x30.
Definition STK_GET_SIGN_ON : Z := 0x31.
Definition STK_LOAD_ADDRESS : Z := 0x55.
Definition STK_PROG_PAGE : Z := 0x64.
Definition STK_READ_PAGE : Z := 0x74.
Definition STK_LEAVE_PROGMODE : Z := 0x51.
Definition STK_ENTER_PROGMODE : Z := 0x50.
Definition STK_OK : Z := 0x10.
Definition STK_FAILED : Z := 0x11.
Definition STK_UNKNOWN : Z := 0x12.
Definition STK_INSYNC : Z := 0x14.
Definition STK_CRC_EOP : Z := 0x20.

(** [resetArduino]: toggles DTR/RTS when the port offers [setSignals];
    any failure is logged and swallowed. *)
Definition resetArduino : M unit :=
  port <- getPort ;;
  match port with
  | None => ret tt
  | Some port =>
      tryCatch
        (if hasSetSignals port then
           setSignals false (Some false) ;;
           delay 100 ;;
           setSignals true (Some true) ;;
           delay 50 ;;
           setSignals false None
         else
           warn DtrResetNotSupported ;;
           delay 2000)
        (fun _ => warn DtrResetFailed)
  end.

(** [initializeConnection]; the baud rate is not used. *)
Definition initializeConnection (baudRate : Z) : M unit :=
  port <- getPort ;;
  match port with
  | None => throw NoPortAvailable
  | Some port =>
      resetArduino ;;
      delay 2000 ;;
      match readable port with
      | NoStream => ret tt
      | LockedStream => emit EvGetReader ;; throw (TransportFailure OpGetReader)
      | OpenStream => emit EvGetReader ;; update (set_reader (Some TheReader))
      end ;;
      match writable port with
      | NoStream => ret tt
      | LockedStream => emit EvGetWriter ;; throw (TransportFailure OpGetWriter)
      | OpenStream => emit EvGetWriter ;; update (set_writer (Some TheWriter))
      end
  end.

(** [sendCommand]: the command is converted to a [Uint8Array] and written. *)
Definition sendCommand (command : list JS.number) : M unit :=
  writer <- getWriter ;;
  match writer with
  | None => throw WriterNotAvailable
  | Some _ =>
      let buffer := map JS.toUint8 command in
      writerWrite buffer
  end.

(** The inner [for (const byte of data)] of [readResponse]: push, then
    stop as soon as the expected length is reached. *)
Fixpoint pushBytes (expectedLength : nat) (response data : list Z) : list Z :=
  match data with
  | [] => response
  | byte :: rest =>
      let response' := response ++ [byte] in
      if expectedLength <=? length response' then response'
      else pushBytes expectedLength response' rest
  end.

(** What follows the [while] loop of [readResponse]. *)
Definition readResult (expectedLength : nat) (response : list Z) : M (list Z) :=
  if length response <? expectedLength
  then throw (ResponseTimeout expectedLength (length response))
  else ret response.

(** The [while] loop of [readResponse], by recursion on the reads still to
    come.  The deadline is compared with the clock before each read, and
    nowhere else. *)
Fixpoint readLoop (expectedLength : nat) (timeout : Z) (response : list Z)
         (stream : list ReadEvent) (w : World) : Run (list Z) :=
  if (length response <? expectedLength) && (clock w <? timeout)%Z then
    after [EvRead (clock w)]
      match stream with
      | [] => readResult expectedLength response w
      | Never :: rest => mkRun Pending (set_inbox rest w) []
      | Rejected elapsed :: rest =>
          throw (TransportFailure OpRead) (tick elapsed (set_inbox rest w))
      | Done elapsed :: rest =>
          readResult expectedLength response (tick elapsed (set_inbox rest w))
      | Chunk elapsed value :: rest =>
          readLoop expectedLength timeout (pushBytes expectedLength response value)
                   rest (tick elapsed (set_inbox rest w))
      end
  else readResult expectedLength response w.

Definition readResponse (expectedLength : nat) : M (list Z) :=
  reader <- getReader ;;
  match reader with
  | None => throw ReaderNotAvailable
  | Some _ =>
      fun w =>
        let timeout := (clock w + 5000)%Z in
        readLoop expectedLength timeout [] (inbox w) w
  end.

(** [response[0] === STK_INSYNC && response[1] === STK_OK]. *)
Definition inSyncOk (response : list Z) : bool :=
  match nth_error response 0, nth_error response 1 with
  | Some b0, Some b1 => (b0 =? STK_INSYNC)%Z && (b1 =? STK_OK)%Z
  | _, _ => false
  end.

Definition maxSyncAttempts : nat := 10.

(** One iteration of the sync loop of [enterProgrammingMode]: the [try]
    with its [catch].  The result is [None] after [break], and otherwise
    the value of [syncAttempts] the next iteration starts with; the counter
    moves only in the [catch] branch. *)
Definition syncIteration (syncAttempts : nat) : M (option nat) :=
  tryCatch
    (sendCommand [JS.num STK_GET_SYNC; JS.num STK_CRC_EOP] ;;
     response <- readResponse 2 ;;
     if inSyncOk response then ret None
     else ret (Some syncAttempts))
    (fun _ =>
       let syncAttempts' := S syncAttempts in
       if maxSyncAttempts <=? syncAttempts' then throw FailedToSync
       else delay 100 ;; ret (Some syncAttempts')).

(** The [while (syncAttempts < maxSyncAttempts)] loop.  The loop of the
    source has no bound of its own: an iteration that gets a complete
    reply that is not in-sync/OK neither counts nor waits.  [fuel] bounds
    the number of iterations of the model: every iteration either throws
    (and counts) or consumes a read of the script, so on a script
    [syncFuel] iterations are enough (lemma [syncLoop_fuel]) and the
    [Pending] of the first line is never reached from
    [enterProgrammingMode] (lemma [syncLoop_settles]).  That the loop
    comes to an end is a fact about scripts, not about the source: the
    longer the script of such replies, the longer the loop runs. *)
Fixpoint syncLoop (fuel : nat) (syncAttempts : nat) : M unit :=
  match fuel with
  | O => fun w => mkRun Pending w []
  | S fuel' =>
      if syncAttempts <? maxSyncAttempts then
        next <- syncIteration syncAttempts ;;
        match next with
        | None => ret tt
        | Some syncAttempts' => syncLoop fuel' syncAttempts'
        end
      else ret tt
  end.

Definition syncFuel (w : World) : nat := S (length (inbox w) + maxSyncAttempts).

Definition enterProgrammingMode (options : UploadOptions) : M unit :=
  notify options (mkProgress connecting 10 ConnectingToBootloader) ;;
  (fun w => syncLoop (syncFuel w) 0 w) ;;
  notify options (mkProgress syncing 20 SyncedWithBootloader) ;;
  sendCommand [JS.num STK_ENTER_PROGMODE; JS.num STK_CRC_EOP] ;;
  progResponse <- readResponse 2 ;;
  if negb (inSyncOk progResponse) then throw FailedToEnterProgrammingMode
  else ret tt.

Definition writePage (address : JS.number) (data : list JS.number) : M unit :=
  let addrLow := JS.bitAnd address (JS.num 0xFF) in
  let addrHigh := JS.bitAnd (JS.num (JS.shiftRight address 8)) (JS.num 0xFF) in
  sendCommand [JS.num STK_LOAD_ADDRESS; JS.num addrLow; JS.num addrHigh;
               JS.num STK_CRC_EOP] ;;
  response <- readResponse 2 ;;
  if negb (inSyncOk response) then throw (FailedToSetAddress address)
  else
    let pageSize := JS.num (Z.of_nat (length data)) in
    let command :=
      [JS.num STK_PROG_PAGE;
       JS.num (JS.bitAnd (JS.num (JS.shiftRight pageSize 8)) (JS.num 0xFF));
       JS.num (JS.bitAnd pageSize (JS.num 0xFF));
       JS.num 0x46]
      ++ data ++ [JS.num STK_CRC_EOP] in
    sendCommand command ;;
    response <- readResponse 2 ;;
    if negb (inSyncOk response) then throw (FailedToWritePage address)
    else ret tt.

(** The fields of one line, at their fixed offsets. *)
Definition dataLengthOf (line : JS.text) : JS.number :=
  JS.parseInt16 (JS.substr line 1 2).
Definition recordTypeOf (line : JS.text) : JS.number :=
  JS.parseInt16 (JS.substr line 7 2).
Definition recordAddressOf (line : JS.text) : JS.number :=
  JS.parseInt16 (JS.substr line 3 4).

(** [for (let j = 0; j < dataLength; j++) data.push(parseInt(line.substr(9 + j * 2, 2), 16))]. *)
Definition dataOf (line : JS.text) (dataLength : JS.number) : list JS.number :=
  map (fun j => JS.parseInt16 (JS.substr line (9 + j * 2) 2))
      (seq 0 (JS.iterations dataLength)).

(** [30 + (i / hexLines.length) * 50], as the exact value of the
    expression.  JavaScript computes it in double precision, rounding the
    quotient, the product and the sum to the nearest double, so the number
    the callback receives can differ from the value here in its last
    digits (46.666666666666664 for 140/3, at line 1 of 3).  Rounding to
    the nearest double is monotone and leaves the integers of this range
    as they are: the order of the percentages and their bounds 30 and 80
    are those of the exact values.  The theorems on percentages rest on
    that order and on those bounds, not on the digits of a percentage
    computed by this expression. *)
Definition lineProgress (i n : nat) : Q :=
  (30 + (inject_Z (Z.of_nat i) / inject_Z (Z.of_nat n)) * 50)%Q.

(** The body of the [for] loop of [uploadHexData], for the line of index
    [i] out of [n]. *)
Definition uploadLine (options : UploadOptions) (n i : nat) (line : JS.text) : M unit :=
  let progress := lineProgress i n in
  notify options (mkProgress uploading progress (UploadingPercent (JS.round progress))) ;;
  if length line <? 11 then ret tt
  else
    let dataLength := dataLengthOf line in
    let recordType := recordTypeOf line in
    (if JS.strictEq recordType (JS.num 0x00) && JS.gt dataLength (JS.num 0) then
       let recordAddress := recordAddressOf line in
       let data := dataOf line dataLength in
       writePage recordAddress data
     else ret tt) ;;
    delay 10.

Fixpoint uploadLines (options : UploadOptions) (n i : nat) (hexLines : list JS.text) : M unit :=
  match hexLines with
  | [] => ret tt
  | line :: rest =>
      uploadLine options n i line ;;
      uploadLines options n (S i) rest
  end.

(** [line => line.trim() && line.startsWith(':')]. *)
Definition keptLine (line : JS.text) : bool :=
  JS.truthy (JS.trim line) && JS.startsWith line [":"%char].

(** [hexData.split('\n').filter(line => line.trim() && line.startsWith(':'))]. *)
Definition hexLinesOf (hexData : JS.text) : list JS.text :=
  filter keptLine (JS.split "010"%char hexData).

(** [uploadHexData]; the local [address] of the source is never read. *)
Definition uploadHexData (hexData : JS.text) (options : UploadOptions) : M unit :=
  notify options (mkProgress uploading 30 UploadingSketch) ;;
  let hexLines := hexLinesOf hexData in
  uploadLines options (length hexLines) 0 hexLines.

Definition verifyUpload (hexData : JS.text) (options : UploadOptions) : M unit :=
  notify options (mkProgress verifying 85 VerifyingUpload) ;;
  delay 500 ;;
  notify options (mkProgress verifying 95 VerificationComplete).

Definition leaveProgrammingMode (options : UploadOptions) : M unit :=
  sendCommand [JS.num STK_LEAVE_PROGMODE; JS.num STK_CRC_EOP] ;;
  response <- readResponse 2 ;;
  if negb (inSyncOk response) then throw FailedToLeaveProgrammingMode
  else ret tt.

(** [cleanup]: one [try] around both releases. *)
Definition cleanup : M unit :=
  tryCatch
    (reader <- getReader ;;
     match reader with
     | Some _ => readerCancel ;; update (set_reader None)
     | None => ret tt
     end ;;
     writer <- getWriter ;;
     match writer with
     | Some _ => writerClose ;; update (set_writer None)
     | None => ret tt
     end)
    (fun _ => warn CleanupError).

(** The body of the [try] of [uploadSketch]. *)
Definition uploadSteps (options : UploadOptions) : M bool :=
  initializeConnection (baudRate options) ;;
  enterProgrammingMode options ;;
  uploadHexData (hexData options) options ;;
  verifyUpload (hexData options) options ;;
  leaveProgrammingMode options ;;
  notify options (mkProgress complete 100 UploadCompleted) ;;
  ret true.

(** The body of its [catch]. *)
Definition reportFailure (options : UploadOptions) (cause : Error) : M bool :=
  notify options (mkProgress error 0 (UploadFailed cause)) ;;
  ret false.

Definition uploadSketch (port : SerialPort) (options : UploadOptions) : M bool :=
  update (set_port (Some port)) ;;
  tryFinally
    (tryCatch (uploadSteps options) (reportFailure options))
    cleanup.

(* ================================================================== *)
(** ** Observations on a run *)
(* ================================================================== *)

(** The buffers handed to [writer.write], in order. *)
Definition writes (evs : list Event) : list (list Z) :=
  flat_map (fun ev => match ev with EvWrite buffer => [buffer] | _ => [] end) evs.

(** The snapshots handed to [onProgress], in order, and their percentages. *)
Definition snapshots (evs : list Event) : list UploadProgress :=
  flat_map (fun ev => match ev with EvProgress p => [p] | _ => [] end) evs.

Definition percents (evs : list Event) : list Q := map progress (snapshots evs).

Definition delays (evs : list Event) : list Z :=
  flat_map (fun ev => match ev with EvDelay ms => [ms] | _ => [] end) evs.

(** The instants at which [reader.read()] was called. *)
Definition readTimes (evs : list Event) : list Z :=
  flat_map (fun ev => match ev with EvRead t => [t] | _ => [] end) evs.

(** How many times [reader.cancel()] and [writer.close()] were called. *)
Definition cancels (evs : list Event) : nat :=
  length (flat_map (fun ev => match ev with EvCancel => [tt] | _ => [] end) evs).

Definition closes (evs : list Event) : nat :=
  length (flat_map (fun ev => match ev with EvClose => [tt] | _ => [] end) evs).

(** One exchange of the protocol: a command is sent and its two-byte
    response is read. *)
Definition exchange (command : list JS.number) : M (list Z) :=
  sendCommand command ;; readResponse 2.

(** The last snapshot of a successful upload. *)
Definition completion : UploadProgress := mkProgress complete 100 UploadCompleted.

Definition isErrorStage (p : UploadProgress) : bool :=
  match stage p with error => true | _ => false end.

Definition prefixOf {A} (l full : list A) : Prop := exists rest, full = l ++ rest.

(** The bytes a chunked stream delivered. *)
Definition bytesOf (ev : ReadEvent) : nat :=
  match ev with Chunk _ value => length value | _ => 0 end.

Definition bytesObserved (consumed : list ReadEvent) : nat :=
  fold_right (fun ev n => bytesOf ev + n) 0 consumed.

Definition chunkBytes (consumed : list ReadEvent) : list Z :=
  flat_map (fun ev => match ev with Chunk _ value => value | _ => [] end) consumed.







(** The hex loader as the specification words it: the upload of a text
    with a malformed record fails, and the page of that record is not
    sent. *)
Definition rejectsRecord (hexData : JS.text) (page : list Z) (w : World) : Prop :=
  let r := uploadSketch (mkPort true OpenStream OpenStream)
                        (mkOptions [] 115200 hexData (Some (fun _ => false))) w in
  outcome r = Returned false /\ ~ In page (writes (emitted r)).

(** A world in which the uploader holds both handles. *)
Definition connectedWorld (reads : list ReadEvent) : World :=
  mkWorld None (Some TheReader) (Some TheWriter) 0 reads [] [] false false.

(** A callback that never throws (or no callback at all). *)
Definition quietCallback (options : UploadOptions) : Prop :=
  match onProgress options with
  | None => True
  | Some callback => forall p, callback p = false
  end.

(* ================================================================== *)
(** ** The commands of the protocol, as the specification words them *)
(* ================================================================== *)

Definition lowByte (z : Z) : Z := (z mod 256)%Z.
Definition highByte (z : Z) : Z := ((z / 256) mod 256)%Z.

Definition syncCommand : list Z := [0x30; 0x20]%Z.
Definition enterProgmodeCommand : list Z := [0x50; 0x20]%Z.
Definition leaveProgmodeCommand : list Z := [0x51; 0x20]%Z.

(** Load address: opcode 0x55, low byte, high byte, terminator.  An
    address that is not a number is sent as 0. *)
Definition loadAddressCommand (address : JS.number) : list Z :=
  let a := match address with Some a => a | None => 0%Z end in
  [0x55; lowByte a; highByte a; 0x20]%Z.

(** Program page: opcode 0x64, the payload length on two bytes, high byte
    first, the flash memory type 0x46 ('F'), the payload, terminator. *)
Definition progPageCommand (data : list JS.number) : list Z :=
  let n := Z.of_nat (length data) in
  ([0x64; highByte n; lowByte n; 0x46] ++ map JS.toUint8 data ++ [0x20])%Z.

(** A line that [uploadHexData] writes to flash: long enough, of type 0
    and with a positive byte count. *)
Definition isDataRecord (line : JS.text) : bool :=
  (11 <=? length line)
  && JS.strictEq (recordTypeOf line) (JS.num 0)
  && JS.gt (dataLengthOf line) (JS.num 0).

(** The two commands of one data line, and the commands of a whole file
    when nothing fails. *)
Definition pageCommands (line : JS.text) : list (list Z) :=
  if isDataRecord line
  then [loadAddressCommand (recordAddressOf line);
        progPageCommand (dataOf line (dataLengthOf line))]
  else [].

Definition plannedWrites (hexLines : list JS.text) : list (list Z) :=
  flat_map pageCommands hexLines.

(** Two lines that differ at most in the two checksum characters that
    follow the payload the byte count announces ([tail] is whatever
    follows the checksum, a carriage return for instance). *)
Definition payloadChars (body : JS.text) : nat :=
  2 * JS.iterations (dataLengthOf body).

Inductive checksumVariant : JS.text -> JS.text -> Prop :=
| cv_same : forall line, checksumVariant line line
| cv_record : forall body sum1 sum2 tail,
    length body = 9 + payloadChars body ->
    length sum1 = 2 -> length sum2 = 2 ->
    checksumVariant (body ++ sum1 ++ tail) (body ++ sum2 ++ tail).

(** A transport that acknowledges: every read yields the two bytes
    in-sync, OK. *)
Definition ack (elapsed : Z) : ReadEvent := Chunk elapsed [STK_INSYNC; STK_OK].

Definition freePort : SerialPort := mkPort true OpenStream OpenStream.

Definition freshWorld (reads : list ReadEvent) : World :=
  mkWorld None None None 0 reads [] [] false false.

(** Options without a callback, and with a callback that records and
    never throws. *)
Definition silentOptions (hexData : JS.text) : UploadOptions :=
  mkOptions (ascii_text "uno") 115200 hexData None.

Definition recordingOptions (hexData : JS.text) : UploadOptions :=
  mkOptions (ascii_text "uno") 115200 hexData (Some (fun _ => false)).

(** The uploader holds both handles and no write is going to reject. *)
Definition ready (w : World) : Prop :=
  this_reader w = Some TheReader /\ this_writer w = Some TheWriter /\ writeFaults w = [].

(** The uploader is ready and its pending reads are acknowledgements, at
    least [m] of them. *)
Definition stocked (elapsed : Z) (m : nat) (w : World) : Prop :=
  ready w /\ exists m', m <= m' /\ inbox w = repeat (ack elapsed) m'.

(** The uploader is ready and its pending reads are [m] acknowledgements
    followed by [tail]. *)
Definition supplied (elapsed : Z) (m : nat) (tail : list ReadEvent) (w : World) : Prop :=
  ready w /\ inbox w = repeat (ack elapsed) m ++ tail.

(** A complete two-byte reply that is not in-sync/OK: in sync, FAILED. *)
Definition refusal : ReadEvent := Chunk 0 [STK_INSYNC; STK_FAILED].

Definition LF : ascii := "010"%char.

(** Text made of lines, each followed by a line feed. *)
Definition textOfLines (lines : list string) : JS.text :=
  flat_map (fun l => ascii_text l ++ [LF]) lines.

(* ================================================================== *)
(** ** Footprints: what a computation may emit and what it keeps *)
(* ================================================================== *)

Definition notWrite (ev : Event) : Prop :=
  match ev with EvWrite _ => False | _ => True end.
Definition notProgress (ev : Event) : Prop :=
  match ev with EvProgress _ => False | _ => True end.
Definition notRelease (ev : Event) : Prop :=
  match ev with EvCancel | EvClose => False | _ => True end.
Definition notErrorProgress (ev : Event) : Prop :=
  match ev with EvProgress p => isErrorStage p = false | _ => True end.

(** The fields of the uploader that only [initializeConnection] and
    [cleanup] touch, and the verdicts [cleanup] will meet. *)
Definition sameHandles (w w' : World) : Prop :=
  this_reader w' = this_reader w /\ this_writer w' = this_writer w
  /\ cancelFault w' = cancelFault w /\ closeFault w' = closeFault w.

Definition Emits {A} (P : Event -> Prop) (m : M A) : Prop :=
  forall w, Forall P (emitted (m w)).

Definition Keeps {A} (R : World -> World -> Prop) (m : M A) : Prop :=
  forall w, R w (final (m w)).

(** The percentages a computation reports are non-decreasing and lie
    between [lo] and [hi]. *)
Definition Rising {A} (lo hi : Q) (m : M A) : Prop :=
  forall w,
    StronglySorted Qle (percents (emitted (m w)))
    /\ Forall (fun q => (lo <= q)%Q /\ (q <= hi)%Q) (percents (emitted (m w))).

(** The pending reads of [w'] are what is left of those of [w]. *)
Definition inboxSuffix (w w' : World) : Prop :=
  exists consumed, inbox w = consumed ++ inbox w'.

(** No read of the script stays unsettled for ever. *)
Definition noNever (w : World) : Prop := ~ In Never (inbox w).

(** A computation that, on a script every read of which settles, settles
    (returns or throws) and leaves such a script behind.  It is what shows
    that the fuel of the sync loop is enough. *)
Definition Settles {A} (m : M A) : Prop :=
  forall w, noNever w -> outcome (m w) <> Pending /\ noNever (final (m w)).

(* ================================================================== *)
(** ** Plans: what a run is expected to hand to its environment *)
(* ================================================================== *)

(** The observations [obs] of the run of [m] from [w] follow [plan]: they
    are a prefix of it, and the whole of it when the run returns. *)
Definition follows {X A} (obs : list Event -> list X) (m : M A) (w : World)
           (plan : list X) : Prop :=
  prefixOf (obs (emitted (m w))) plan
  /\ (forall a, outcome (m w) = Returned a -> obs (emitted (m w)) = plan).

(** The snapshots of an upload that succeeds, for a callback that is
    present: 10, 20, 30, one snapshot per kept line, 85, 95 and 100. *)
Definition lineSnapshot (n i : nat) : UploadProgress :=
  let progress := lineProgress i n in
  mkProgress uploading progress (UploadingPercent (JS.round progress)).

Definition plannedSnapshots (options : UploadOptions) : list UploadProgress :=
  match onProgress options with
  | None => []
  | Some _ =>
      let n := length (hexLinesOf (hexData options)) in
      [mkProgress connecting 10 ConnectingToBootloader;
       mkProgress syncing 20 SyncedWithBootloader;
       mkProgress uploading 30 UploadingSketch]
      ++ map (lineSnapshot n) (seq 0 n)
      ++ [mkProgress verifying 85 VerifyingUpload;
          mkProgress verifying 95 VerificationComplete;
          mkProgress complete 100 UploadCompleted]
  end.

(** The snapshot that belongs to one line of the hex text: the one whose
    percentage is computed; the other snapshots carry a percentage that is
    written in the source. *)
Definition perLine (p : UploadProgress) : bool :=
  match message p with UploadingPercent _ => true | _ => false end.

Definition milestone (p : UploadProgress) : bool := negb (perLine p).

(** The stages of the snapshots of an upload that succeeds, for a callback
    that is present, and its snapshots other than those of the lines. *)
Definition plannedStages (options : UploadOptions) : list Stage :=
  match onProgress options with
  | None => []
  | Some _ =>
      [connecting; syncing; uploading]
      ++ repeat uploading (length (hexLinesOf (hexData options)))
      ++ [verifying; verifying; complete]
  end.

Definition milestones (options : UploadOptions) : list UploadProgress :=
  match onProgress options with
  | None => []
  | Some _ =>
      [mkProgress connecting 10 ConnectingToBootloader;
       mkProgress syncing 20 SyncedWithBootloader;
       mkProgress uploading 30 UploadingSketch;
       mkProgress verifying 85 VerifyingUpload;
       mkProgress verifying 95 VerificationComplete;
       mkProgress complete 100 UploadCompleted]
  end.

(** What [initializeConnection] sets the handles to, from the streams of
    the port: a stream that is missing leaves the field as it was. *)
Definition acquired {H} (stream : Stream) (handle : H) (before : option H) : option H :=
  match stream with
  | OpenStream => Some handle
  | _ => before
  end.

(** The uploader misses a handle. *)
Definition unavailable (w : World) : Prop :=
  this_reader w = None \/ this_writer w = None.

(* ================================================================== *)
(** ** Intel-HEX data records, as the format words them *)
(* ================================================================== *)

(** The upper-case hexadecimal digit of a nibble; a byte and a 16-bit word
    written with two and four digits, high digit first. *)
Definition hexChar (d : Z) : ascii :=
  nth (Z.to_nat d) (ascii_text "0123456789ABCDEF") "0"%char.

Definition hexByte (b : Z) : JS.text := [hexChar (b / 16); hexChar (b mod 16)].

Definition hexWord (a : Z) : JS.text := hexByte (a / 256) ++ hexByte (a mod 256).

(** A data record: the marker, the byte count, the address, the record
    type 00, the payload and the checksum byte. *)
Record HexRecord : Type := mkRecord {
  address : Z;
  payload : list Z;
  checksum : Z
}.

Definition dataRecord (record : HexRecord) : JS.text :=
  ":"%char :: hexByte (Z.of_nat (length (payload record)))
  ++ hexWord (address record) ++ hexByte 0
  ++ flat_map hexByte (payload record) ++ hexByte (checksum record).

(** The fields of a record fit their digits: a 16-bit address, 1 to 255
    payload bytes, a checksum byte.  The checksum is not required to be
    the right one. *)
Definition wellFormed (record : HexRecord) : Prop :=
  (0 <= address record < 65536)%Z
  /\ 1 <= length (payload record) <= 255
  /\ Forall (fun b => (0 <= b < 256)%Z) (payload record)
  /\ (0 <= checksum record < 256)%Z.

(** The end-of-file record, and a file: one record per line, then the
    end-of-file record, each line ended by a line feed. *)
Definition endOfFile : JS.text := ascii_text ":00000001FF".

Definition hexFile (records : list HexRecord) : JS.text :=
  flat_map (fun record => dataRecord record ++ [LF]) records ++ endOfFile ++ [LF].

(** The two commands that program one record. *)
Definition recordCommands (record : HexRecord) : list (list Z) :=
  [[0x55; address record mod 256; address record / 256; 0x20];
   [0x64; 0; Z.of_nat (length (payload record)); 0x46] ++ payload record ++ [0x20]]%Z.

(* ================================================================== *)
(** ** class SerialService *)
(* ================================================================== *)

(** The serial monitor of the same file.  The instance fields and the
    script of the environment make a [Service]; a call is a function from
    a [Service] to the way it settled, the service it left behind and the
    calls it made on the port and on the listeners, in order.

    [startReading] is called without [await]: it runs up to its first
    [await] inside the caller and goes on, one stretch at a time, each
    time a read settles.  The model follows that: [startReading] is the
    first stretch and [resumeReading] the stretch that is run when the
    pending read has settled.  A stretch is not interrupted, so what is
    proved of one stretch from every service holds however the stretches
    interleave with the calls of the other methods.

    The listeners are functions of the caller: a listener is known by its
    identity, it may throw, and it is assumed not to call the service
    back.  The [id] and the [timestamp] of a message are readings of the
    clock and are left out of what is observed. *)
Module SerialService.

(** Strings are sequences of UTF-16 code units. *)
Definition text := list Z.

Definition LF : Z := 10.

Definition textOf (s : string) : text :=
  map (fun c => Z.of_nat (nat_of_ascii c)) (list_ascii_of_string s).

(** WhiteSpace and LineTerminator code units, which [trim] strips. *)
Definition isWhiteSpace (c : Z) : bool :=
  existsb (Z.eqb c)
    [0x09; 0x0A; 0x0B; 0x0C; 0x0D; 0x20; 0xA0; 0x1680; 0x2028; 0x2029;
     0x202F; 0x205F; 0x3000; 0xFEFF]%Z
  || ((0x2000 <=? c) && (c <=? 0x200A))%Z.

Fixpoint trimStart (s : text) : text :=
  match s with
  | [] => []
  | c :: rest => if isWhiteSpace c then trimStart rest else s
  end.

Definition trim (s : text) : text := rev (trimStart (rev (trimStart s))).

Definition truthy (s : text) : bool :=
  match s with [] => false | _ :: _ => true end.

(** [s.split(sep)] for a separator of one code unit. *)
Fixpoint split (sep : Z) (s : text) : list text :=
  match s with
  | [] => [[]]
  | c :: rest =>
      if (c =? sep)%Z then [] :: split sep rest
      else match split sep rest with
           | [] => [[c]]
           | piece :: pieces => (c :: piece) :: pieces
           end
  end.

(** *** Messages *)

Inductive MessageType : Type := received | sent | error | info.

(** The operations of the platform that can reject or throw. *)
Inductive Operation : Type :=
| OpRequestPort | OpOpen | OpSetSignals | OpGetReader | OpGetWriter
| OpRead | OpWrite | OpCancel | OpCloseWriter | OpClosePort.

(** What a [catch] block may find in its [error]: the rejection of an
    operation, the exception of a listener, or the [TypeError] of a call
    on a reader that is [null]. *)
Inductive Failure : Type :=
| Rejected (op : Operation)
| ListenerThrew
| ReaderIsNull.

(** The [message] of a [SerialMessage]: the line sent or received, or one
    of the fixed texts of the service, with what is interpolated in it. *)
Inductive Content : Type :=
| Line (line : text)
| WebSerialNotSupported
| FailedToRequestPort
| ConnectedAt (baudRate : Z)
| FailedToConnect (cause : Failure)
| Disconnected
| ErrorDuringDisconnect (cause : Failure)
| NotConnected
| FailedToSend (cause : Failure)
| ReadingError (cause : Failure).

Record SerialMessage : Type := mkMessage {
  message : Content;
  type : MessageType
}.

(** A listener is known by its identity ([indexOf] compares with [===]). *)
Definition Listener := nat.

Inductive Notice : Type := DtrResetNotSupported | CouldNotReset.

(** *** The service and its environment *)

(** The fields [port], [reader], [writer], [isConnected] and
    [messageListeners], and the environment: whether [navigator] has
    [serial], the text codecs, which listeners throw on which messages,
    what the successive calls of [navigator.serial.requestPort()] resolve
    to ([None], or a list that is used up: the call rejects), and which of
    the successive calls of each operation reject (none once its list is
    used up). *)
Record Service : Type := mkService {
  port : option SerialPort;
  reader : option Reader;
  writer : option Writer;
  isConnected : bool;
  messageListeners : list Listener;
  hasSerial : bool;
  encode : text -> list Z;
  decode : list Z -> text;
  raises : Listener -> SerialMessage -> bool;
  grants : list (option SerialPort);
  faults : Operation -> list bool
}.

Definition set_port (p : option SerialPort) (s : Service) : Service :=
  mkService p (reader s) (writer s) (isConnected s) (messageListeners s)
            (hasSerial s) (encode s) (decode s) (raises s) (grants s) (faults s).

Definition set_reader (r : option Reader) (s : Service) : Service :=
  mkService (port s) r (writer s) (isConnected s) (messageListeners s)
            (hasSerial s) (encode s) (decode s) (raises s) (grants s) (faults s).

Definition set_writer (w : option Writer) (s : Service) : Service :=
  mkService (port s) (reader s) w (isConnected s) (messageListeners s)
            (hasSerial s) (encode s) (decode s) (raises s) (grants s) (faults s).

Definition set_isConnected (c : bool) (s : Service) : Service :=
  mkService (port s) (reader s) (writer s) c (messageListeners s)
            (hasSerial s) (encode s) (decode s) (raises s) (grants s) (faults s).

Definition set_messageListeners (l : list Listener) (s : Service) : Service :=
  mkService (port s) (reader s) (writer s) (isConnected s) l
            (hasSerial s) (encode s) (decode s) (raises s) (grants s) (faults s).

Definition set_grants (g : list (option SerialPort)) (s : Service) : Service :=
  mkService (port s) (reader s) (writer s) (isConnected s) (messageListeners s)
            (hasSerial s) (encode s) (decode s) (raises s) g (faults s).

Definition set_faults (f : Operation -> list bool) (s : Service) : Service :=
  mkService (port s) (reader s) (writer s) (isConnected s) (messageListeners s)
            (hasSerial s) (encode s) (decode s) (raises s) (grants s) f.

Definition sameOperation (a b : Operation) : bool :=
  match a, b with
  | OpRequestPort, OpRequestPort | OpOpen, OpOpen | OpSetSignals, OpSetSignals
  | OpGetReader, OpGetReader | OpGetWriter, OpGetWriter | OpRead, OpRead
  | OpWrite, OpWrite | OpCancel, OpCancel | OpCloseWriter, OpCloseWriter
  | OpClosePort, OpClosePort => true
  | _, _ => false
  end.

(** The calls a run makes on the platform and on the listeners. *)
Inductive Event : Type :=
| EvRequestPort
| EvOpen (baudRate : Z)
| EvSetSignals (dataTerminalReady : bool)
| EvDelay (ms : Z)
| EvGetReader
| EvGetWriter
| EvRead
| EvWrite (buffer : list Z)
| EvCancel
| EvCloseWriter
| EvClosePort
| EvReleaseLock
| EvListener (listener : Listener) (delivered : SerialMessage)
| EvWarn (what : Notice).

(** *** Runs *)

Inductive Result (A : Type) : Type :=
| Returned (a : A)
| Thrown (cause : Failure).

Arguments Thrown {A} cause.

Record Run (A : Type) : Type := mkRun {
  outcome : Result A;
  final : Service;
  emitted : list Event
}.

Definition Task (A : Type) : Type := Service -> Run A.

Definition ret {A} (a : A) : Task A := fun s => mkRun (Returned a) s [].
Definition throw {A} (cause : Failure) : Task A := fun s => mkRun (Thrown cause) s [].
Definition emit (ev : Event) : Task unit := fun s => mkRun (Returned tt) s [ev].
Definition update (f : Service -> Service) : Task unit :=
  fun s => mkRun (Returned tt) (f s) [].

Definition after {A} (evs : list Event) (r : Run A) : Run A :=
  mkRun (outcome r) (final r) (evs ++ emitted r).

Definition bind {A B} (m : Task A) (k : A -> Task B) : Task B := fun s =>
  let r := m s in
  match outcome r with
  | Returned a => after (emitted r) (k a (final r))
  | Thrown cause => mkRun (Thrown cause) (final r) (emitted r)
  end.

Declare Scope task_scope.
Delimit Scope task_scope with task.
Notation "x <- m ;; k" := (bind m (fun x => k))
  (at level 61, m at next level, right associativity) : task_scope.
Notation "m ;; k" := (bind m (fun _ => k))
  (at level 61, right associativity) : task_scope.
Local Open Scope task_scope.

(** [try { body } catch (error) { handler error }]. *)
Definition tryCatch {A} (body : Task A) (handler : Failure -> Task A) : Task A := fun s =>
  let r := body s in
  match outcome r with
  | Thrown cause => after (emitted r) (handler cause (final r))
  | Returned _ => r
  end.

(** A call of an [async] function whose promise is dropped: what the
    function does up to its first [await] is done, and what it returns or
    throws is lost. *)
Definition detach {A} (task : Task A) : Task unit := fun s =>
  let r := task s in
  mkRun (Returned tt) (final r) (emitted r).

(** [items.forEach(body)]. *)
Fixpoint forEach {X} (items : list X) (body : X -> Task unit) : Task unit :=
  match items with
  | [] => ret tt
  | item :: rest => body item ;; forEach rest body
  end.

Definition thisPort : Task (option SerialPort) := fun s => ret (port s) s.
Definition thisReader : Task (option Reader) := fun s => ret (reader s) s.
Definition thisWriter : Task (option Writer) := fun s => ret (writer s) s.
Definition thisIsConnected : Task bool := fun s => ret (isConnected s) s.

(** The service once the next verdict of [op] is used up. *)
Definition consume (op : Operation) (s : Service) : Service :=
  set_faults (fun o => if sameOperation o op then tl (faults s op) else faults s o) s.

(** One call of an operation of the platform that may reject. *)
Definition attempt (op : Operation) (ev : Event) : Task unit :=
  emit ev ;;
  fun s =>
    (update (consume op) ;;
     if hd false (faults s op) then throw (Rejected op) else ret tt) s.

Definition delay (ms : Z) : Task unit := emit (EvDelay ms).
Definition warn (what : Notice) : Task unit := emit (EvWarn what).

(** [navigator.serial.requestPort()]. *)
Definition navigatorRequestPort : Task SerialPort :=
  emit EvRequestPort ;;
  fun s =>
    match grants s with
    | Some granted :: rest => (update (set_grants rest) ;; ret granted) s
    | None :: rest => (update (set_grants rest) ;; throw (Rejected OpRequestPort)) s
    | [] => throw (Rejected OpRequestPort) s
    end.

(** *** The methods *)

(** [this.messageListeners.forEach(listener => listener(serialMessage))]. *)
Definition callListener (delivered : SerialMessage) (listener : Listener) : Task unit :=
  emit (EvListener listener delivered) ;;
  fun s => if raises s listener delivered then throw ListenerThrew s else ret tt s.

Definition notifyListeners (delivered : SerialMessage) : Task unit :=
  fun s => forEach (messageListeners s) (callListener delivered) s.

Definition notifyMessage (line : text) (type : MessageType) : Task unit :=
  notifyListeners (mkMessage (Line line) type).

Definition notifyInfo (content : Content) : Task unit :=
  notifyListeners (mkMessage content info).

Definition notifyError (content : Content) : Task unit :=
  notifyListeners (mkMessage content error).

Definition isWebSerialSupported : Task bool := fun s => ret (hasSerial s) s.

Definition requestPort : Task bool :=
  tryCatch
    (supported <- isWebSerialSupported ;;
     if negb supported then
       notifyError WebSerialNotSupported ;;
       ret false
     else
       granted <- navigatorRequestPort ;;
       update (set_port (Some granted)) ;;
       ret true)
    (fun _ =>
       notifyError FailedToRequestPort ;;
       ret false).

(** [resetArduino]: DTR is toggled when the port offers [setSignals]; any
    failure is logged and forgotten. *)
Definition resetArduino : Task unit :=
  port <- thisPort ;;
  match port with
  | None => ret tt
  | Some port =>
      tryCatch
        (if hasSetSignals port then
           attempt OpSetSignals (EvSetSignals false) ;;
           delay 100 ;;
           attempt OpSetSignals (EvSetSignals true) ;;
           delay 100
         else warn DtrResetNotSupported)
        (fun _ => warn CouldNotReset)
  end.

(** What a suspended [startReading] is doing: waiting for a read, or
    over. *)
Inductive Reading : Type := Suspended | Ended.

(** The [catch] and the [finally] of [startReading]. *)
Definition readingFailed (cause : Failure) : Task unit :=
  connected <- thisIsConnected ;;
  if connected then notifyError (ReadingError cause) else ret tt.

Definition releaseReader : Task unit :=
  reader <- thisReader ;;
  match reader with
  | Some _ => emit EvReleaseLock
  | None => ret tt
  end.

(** One stretch of the [try] block of [startReading]: when it throws the
    [catch] block runs, and the [finally] block runs unless the stretch
    ended on an [await]. *)
Definition guarded (stretch : Task Reading) : Task Reading := fun s =>
  let r := tryCatch stretch (fun cause => readingFailed cause ;; ret Ended) s in
  match outcome r with
  | Returned Suspended => r
  | _ =>
      let f := releaseReader (final r) in
      mkRun (outcome r) (final f) (emitted r ++ emitted f)
  end.

(** The head of [while (this.isConnected)] and the call of
    [this.reader.read()], on which the function is suspended. *)
Definition awaitRead : Task Reading :=
  connected <- thisIsConnected ;;
  if connected then
    reader <- thisReader ;;
    match reader with
    | None => throw ReaderIsNull
    | Some _ => emit EvRead ;; ret Suspended
    end
  else ret Ended.

(** [startReading], up to its first [await]. *)
Definition startReading : Task Reading :=
  port <- thisPort ;;
  match port with
  | None => ret Ended
  | Some port =>
      match readable port with
      | NoStream => ret Ended
      | LockedStream => emit EvGetReader ;; throw (Rejected OpGetReader)
      | OpenStream =>
          emit EvGetReader ;;
          update (set_reader (Some TheReader)) ;;
          guarded awaitRead
      end
  end.

(** How the read on which [startReading] is suspended settles. *)
Inductive ReadResult : Type :=
| Value (value : list Z)
| EndOfStream
| ReadRejected.

(** [text.split('\n').filter(line => line.trim())]. *)
Definition linesOf (decoded : text) : list text :=
  filter (fun line => truthy (trim line)) (split LF decoded).

(** [startReading] from the moment its read has settled to its next
    [await], or to its end. *)
Definition resumeReading (result : ReadResult) : Task Reading :=
  guarded
    match result with
    | ReadRejected => throw (Rejected OpRead)
    | EndOfStream => ret Ended
    | Value value =>
        (fun s =>
           let decoded := decode s value in
           let lines := linesOf decoded in
           forEach lines (fun line => notifyMessage (trim line) received) s) ;;
        awaitRead
    end.

Definition setupWriter : Task unit :=
  port <- thisPort ;;
  match port with
  | None => ret tt
  | Some port =>
      match writable port with
      | NoStream => ret tt
      | LockedStream => emit EvGetWriter ;; throw (Rejected OpGetWriter)
      | OpenStream => emit EvGetWriter ;; update (set_writer (Some TheWriter))
      end
  end.

(** [connect(baudRate = 9600)]; [None] is an argument left out. *)
Definition connect (baudRate : option Z) : Task bool :=
  let baudRate := match baudRate with Some given => given | None => 9600%Z end in
  tryCatch
    (port <- thisPort ;;
     granted <- match port with
                | None => requestPort
                | Some _ => ret true
                end ;;
     if negb granted then ret false
     else
       attempt OpOpen (EvOpen baudRate) ;;
       resetArduino ;;
       update (set_isConnected true) ;;
       notifyInfo (ConnectedAt baudRate) ;;
       detach startReading ;;
       detach setupWriter ;;
       ret true)
    (fun cause =>
       notifyError (FailedToConnect cause) ;;
       ret false).

Definition disconnect : Task unit :=
  tryCatch
    (reader <- thisReader ;;
     match reader with
     | Some _ => attempt OpCancel EvCancel ;; update (set_reader None)
     | None => ret tt
     end ;;
     writer <- thisWriter ;;
     match writer with
     | Some _ => attempt OpCloseWriter EvCloseWriter ;; update (set_writer None)
     | None => ret tt
     end ;;
     port <- thisPort ;;
     match port with
     | Some _ => attempt OpClosePort EvClosePort ;; update (set_port None)
     | None => ret tt
     end ;;
     update (set_isConnected false) ;;
     notifyInfo Disconnected)
    (fun cause => notifyError (ErrorDuringDisconnect cause)).

Definition sendMessage (message : text) : Task bool :=
  tryCatch
    (writer <- thisWriter ;;
     connected <- thisIsConnected ;;
     match writer, connected with
     | Some _, true =>
         (fun s => attempt OpWrite (EvWrite (encode s (message ++ [LF]))) s) ;;
         notifyMessage message sent ;;
         ret true
     | _, _ =>
         notifyError NotConnected ;;
         ret false
     end)
    (fun cause =>
       notifyError (FailedToSend cause) ;;
       ret false).

Definition getConnectionStatus : Task bool := thisIsConnected.

Definition getPort : Task (option SerialPort) := thisPort.

(** The result of [detectArduino]: [detected] and, when present,
    [boardType]. *)
Record Detection : Type := mkDetection {
  detected : bool;
  boardType : option text
}.

Definition detectArduino : Task Detection :=
  connected <- thisIsConnected ;;
  writer <- thisWriter ;;
  match connected, writer with
  | true, Some _ =>
      tryCatch
        (sendMessage (textOf "AT") ;;
         delay 1000 ;;
         ret (mkDetection true (Some (textOf "Arduino Compatible Device"))))
        (fun _ => ret (mkDetection false None))
  | _, _ => ret (mkDetection false None)
  end.

Definition addMessageListener (callback : Listener) : Task unit :=
  fun s => update (set_messageListeners (messageListeners s ++ [callback])) s.

(** [array.indexOf(callback)]: the first index that holds it, or -1. *)
Fixpoint indexOf (listeners : list Listener) (callback : Listener) : Z :=
  match listeners with
  | [] => (-1)%Z
  | listener :: rest =>
      if listener =? callback then 0%Z
      else
        let index := indexOf rest callback in
        if (index =? -1)%Z then (-1)%Z else (index + 1)%Z
  end.

(** [array.splice(index, 1)] for an index in the array. *)
Definition splice (listeners : list Listener) (index : Z) : list Listener :=
  firstn (Z.to_nat index) listeners ++ skipn (S (Z.to_nat index)) listeners.

Definition removeMessageListener (callback : Listener) : Task unit :=
  fun s =>
    let index := indexOf (messageListeners s) callback in
    if (index >? -1)%Z
    then update (set_messageListeners (splice (messageListeners s) index)) s
    else ret tt s.

(** *** Observations *)

Definition writes (evs : list Event) : list (list Z) :=
  flat_map (fun ev => match ev with EvWrite buffer => [buffer] | _ => [] end) evs.

(** The messages handed to the listeners, with the listener that got
    each. *)
Definition deliveries (evs : list Event) : list (Listener * SerialMessage) :=
  flat_map (fun ev => match ev with EvListener l m => [(l, m)] | _ => [] end) evs.

(** The calls on the port and on its streams. *)
Definition isPortCall (ev : Event) : bool :=
  match ev with
  | EvListener _ _ | EvWarn _ | EvDelay _ => false
  | _ => true
  end.

Definition portCalls (evs : list Event) : list Event := filter isPortCall evs.

(** How many times [reader.read()] was called. *)
Definition reads (evs : list Event) : nat :=
  length (filter (fun ev => match ev with EvRead => true | _ => false end) evs).

(** No listener throws. *)
Definition quiet (s : Service) : Prop :=
  forall listener delivered, raises s listener delivered = false.

(** The next call of [op] does not reject. *)
Definition succeeds (op : Operation) (s : Service) : Prop :=
  hd false (faults s op) = false.

Definition rejects (op : Operation) (s : Service) : Prop :=
  hd false (faults s op) = true.

(** One message delivered to every listener, in the order of
    registration. *)
Definition toAll (listeners : list Listener) (delivered : SerialMessage) : list Event :=
  map (fun listener => EvListener listener delivered) listeners.

(** The run of [task] from [s]: how it settles, the service it leaves and
    what it emits. *)
Definition runs {A} (task : Task A) (s : Service) (result : Result A)
           (s' : Service) (evs : list Event) : Prop :=
  task s = mkRun result s' evs.

(** The listeners that [forEach] calls: all of them up to the first one
    that throws, this one included. *)
Fixpoint calledListeners (throws : Listener -> bool) (listeners : list Listener)
  : list Listener :=
  match listeners with
  | [] => []
  | listener :: rest =>
      listener :: if throws listener then [] else calledListeners throws rest
  end.

(** The fields of the instance are the same in two services. *)
Definition sameFields (s s' : Service) : Prop :=
  port s' = port s /\ reader s' = reader s /\ writer s' = writer s
  /\ isConnected s' = isConnected s /\ messageListeners s' = messageListeners s.

(** A code unit that [trim] keeps. *)
Definition inked (c : Z) : bool := negb (isWhiteSpace c).

(** One line delivered as [received] to every listener. *)
Definition receivedBy (listeners : list Listener) (line : text)
  : list (Listener * SerialMessage) :=
  map (fun l => (l, mkMessage (Line line) received)) listeners.

(** The calls that release what the service holds, in the order in which
    [disconnect] makes them. *)
Definition releaseCalls (s : Service) : list Event :=
  match reader s with Some _ => [EvCancel] | None => [] end
  ++ match writer s with Some _ => [EvCloseWriter] | None => [] end
  ++ match port s with Some _ => [EvClosePort] | None => [] end.

(** A service as it is created, in a browser with Web Serial whose user
    grants [granted]; the codecs leave the code units as they are, as
    UTF-8 does below 128. *)
Definition created (granted : SerialPort) : Service :=
  mkService None None None false [] true (fun t => t) (fun b => b)
            (fun _ _ => false) [Some granted] (fun _ => []).

(** A service that is connected to a port whose streams were free, with
    the listeners [listeners], none of which throws; and the same once the
    device has been unplugged: [reader.cancel()] rejects. *)
Definition monitor (listeners : list Listener) : Service :=
  mkService (Some freePort) (Some TheReader) (Some TheWriter) true listeners true
            (fun t => t) (fun b => b) (fun _ _ => false) [] (fun _ => []).

Definition unplugged (listeners : list Listener) : Service :=
  set_faults (fun op => if sameOperation op OpCancel then [true] else [])
             (monitor listeners).

End SerialService.

(* ================================================================== *)
(** * Properties *)
(* ================================================================== *)

(** ** Laws of runs *)

Section RunLaws.
Context {A B : Type}.
Variables (m : M A) (k : A -> M B).

Lemma bind_outcome w :
  outcome (bind m k w) =
  match outcome (m w) with
  | Returned a => outcome (k a (final (m w)))
  | Thrown e => Thrown e
  | Pending => Pending
  end.
Proof. unfold bind. destruct (outcome (m w)); reflexivity. Qed.

Lemma bind_emitted w :
  emitted (bind m k w) =
  emitted (m w) ++
  match outcome (m w) with
  | Returned a => emitted (k a (final (m w)))
  | _ => []
  end.
Proof.
  unfold bind. destruct (outcome (m w)); simpl; auto using app_nil_r.
Qed.

Lemma bind_final w :
  final (bind m k w) =
  match outcome (m w) with
  | Returned a => final (k a (final (m w)))
  | _ => final (m w)
  end.
Proof. unfold bind. destruct (outcome (m w)); reflexivity. Qed.

Lemma bind_returned w a :
  outcome (m w) = Returned a ->
  bind m k w = after (emitted (m w)) (k a (final (m w))).
Proof. intros H. unfold bind. rewrite H. reflexivity. Qed.

Lemma bind_thrown w e :
  outcome (m w) = Thrown e ->
  bind m k w = mkRun (Thrown e) (final (m w)) (emitted (m w)).
Proof. intros H. unfold bind. rewrite H. reflexivity. Qed.

Lemma bind_pending w :
  outcome (m w) = Pending ->
  bind m k w = mkRun Pending (final (m w)) (emitted (m w)).
Proof. intros H. unfold bind. rewrite H. reflexivity. Qed.
End RunLaws.

Lemma run_eta {A} (r : Run A) : mkRun (outcome r) (final r) (emitted r) = r.
Proof. destruct r; reflexivity. Qed.

Lemma bind_ext {A B} (m : M A) (k1 k2 : A -> M B) w :
  (forall a w', k1 a w' = k2 a w') -> bind m k1 w = bind m k2 w.
Proof.
  intros H. unfold bind. destruct (outcome (m w)); auto. now rewrite H.
Qed.

(** ** Observations distribute over concatenation *)

Lemma writes_app a b : writes (a ++ b) = writes a ++ writes b.
Proof. apply flat_map_app. Qed.

Lemma snapshots_app a b : snapshots (a ++ b) = snapshots a ++ snapshots b.
Proof. apply flat_map_app. Qed.

Lemma percents_app a b : percents (a ++ b) = percents a ++ percents b.
Proof. unfold percents. now rewrite snapshots_app, map_app. Qed.

Lemma delays_app a b : delays (a ++ b) = delays a ++ delays b.
Proof. apply flat_map_app. Qed.

Lemma readTimes_app a b : readTimes (a ++ b) = readTimes a ++ readTimes b.
Proof. apply flat_map_app. Qed.

Lemma cancels_app a b : cancels (a ++ b) = cancels a + cancels b.
Proof. unfold cancels. now rewrite flat_map_app, length_app. Qed.

Lemma closes_app a b : closes (a ++ b) = closes a + closes b.
Proof. unfold closes. now rewrite flat_map_app, length_app. Qed.

(** ** What a computation may emit, and what it keeps of the world *)

Lemma writes_none evs : Forall notWrite evs -> writes evs = [].
Proof.
  induction 1 as [|ev evs H _ IH]; [reflexivity|].
  destruct ev; simpl in *; tauto.
Qed.

Lemma snapshots_none evs : Forall notProgress evs -> snapshots evs = [].
Proof.
  induction 1 as [|ev evs H _ IH]; [reflexivity|].
  destruct ev; simpl in *; tauto.
Qed.

Lemma releases_none evs : Forall notRelease evs -> cancels evs = 0 /\ closes evs = 0.
Proof.
  induction 1 as [|ev evs H _ IH]; [split; reflexivity|].
  destruct ev; simpl in *; tauto.
Qed.

Section Emission.
Variable P : Event -> Prop.

Lemma Emits_ret {A} (a : A) : Emits P (ret a).
Proof. intros w. constructor. Qed.

Lemma Emits_throw {A} e : Emits P (@throw A e).
Proof. intros w. constructor. Qed.

Lemma Emits_update f : Emits P (update f).
Proof. intros w. constructor. Qed.

Lemma Emits_emit ev : P ev -> Emits P (emit ev).
Proof. intros H w. repeat constructor. exact H. Qed.

Lemma Emits_bind {A B} (m : M A) (k : A -> M B) :
  Emits P m -> (forall a, Emits P (k a)) -> Emits P (bind m k).
Proof.
  intros Hm Hk w. rewrite bind_emitted. apply Forall_app. split; [apply Hm|].
  destruct (outcome (m w)); [apply Hk | constructor | constructor].
Qed.

Lemma Emits_tryCatch {A} (body : M A) handler :
  Emits P body -> (forall e, Emits P (handler e)) -> Emits P (tryCatch body handler).
Proof.
  intros Hb Hh w. unfold tryCatch.
  destruct (outcome (body w)); try apply Hb.
  simpl. apply Forall_app. split; [apply Hb | apply Hh].
Qed.

Lemma Emits_tryFinally {A} (body : M A) finalizer :
  Emits P body -> Emits P finalizer -> Emits P (tryFinally body finalizer).
Proof.
  intros Hb Hf w. unfold tryFinally.
  destruct (outcome (body w)); try apply Hb;
    destruct (outcome (finalizer (final (body w)))); simpl;
    apply Forall_app; split; solve [apply Hb | apply Hf].
Qed.

End Emission.

Section Keeping.
Variable R : World -> World -> Prop.
Hypothesis R_refl : forall w, R w w.
Hypothesis R_trans : forall w1 w2 w3, R w1 w2 -> R w2 w3 -> R w1 w3.

Lemma Keeps_ret {A} (a : A) : Keeps R (ret a).
Proof. intros w. apply R_refl. Qed.

Lemma Keeps_throw {A} e : Keeps R (@throw A e).
Proof. intros w. apply R_refl. Qed.

Lemma Keeps_emit ev : Keeps R (emit ev).
Proof. intros w. apply R_refl. Qed.

Lemma Keeps_update f : (forall w, R w (f w)) -> Keeps R (update f).
Proof. intros H w. apply H. Qed.

Lemma Keeps_bind {A B} (m : M A) (k : A -> M B) :
  Keeps R m -> (forall a, Keeps R (k a)) -> Keeps R (bind m k).
Proof.
  intros Hm Hk w. rewrite bind_final.
  destruct (outcome (m w)); try apply Hm.
  eapply R_trans; [apply Hm | apply Hk].
Qed.

Lemma Keeps_tryCatch {A} (body : M A) handler :
  Keeps R body -> (forall e, Keeps R (handler e)) -> Keeps R (tryCatch body handler).
Proof.
  intros Hb Hh w. unfold tryCatch.
  destruct (outcome (body w)); try apply Hb.
  simpl. eapply R_trans; [apply Hb | apply Hh].
Qed.

End Keeping.

(** ** Footprints of the primitives and of the protocol steps *)

Ltac emits_step :=
  first
    [ apply Emits_ret | apply Emits_throw | apply Emits_update
    | apply Emits_emit; solve [auto | exact I]
    | apply Emits_bind; [ | intro ]
    | apply Emits_tryCatch; [ | intro ]
    | apply Emits_tryFinally
    | match goal with
      | |- Emits _ (if ?b then _ else _) => destruct b
      | |- Emits _ (match ?x with _ => _ end) => destruct x
      end ].

Section EmissionOfSteps.
Variable P : Event -> Prop.

Lemma Emits_getPort : Emits P getPort.
Proof. intros w. constructor. Qed.

Lemma Emits_getReader : Emits P getReader.
Proof. intros w. constructor. Qed.

Lemma Emits_getWriter : Emits P getWriter.
Proof. intros w. constructor. Qed.

Lemma Emits_notify options p :
  P (EvProgress p) -> Emits P (notify options p).
Proof. intros H. unfold notify. repeat emits_step. Qed.

Lemma Emits_warn what : (forall x, P (EvWarn x)) -> Emits P (warn what).
Proof. intros H. unfold warn. repeat emits_step. Qed.

Lemma Emits_delay ms : (forall x, P (EvDelay x)) -> Emits P (delay ms).
Proof. intros H. unfold delay. repeat emits_step. Qed.

Lemma Emits_setSignals dtr rts :
  (forall a b, P (EvSetSignals a b)) -> Emits P (setSignals dtr rts).
Proof.
  intros H. unfold setSignals. apply Emits_bind; [repeat emits_step | intros _].
  intros w. destruct (signalFaults w); [constructor|].
  revert w. change (Emits P (update (set_signalFaults l) ;;
    if b then throw (TransportFailure OpSetSignals) else ret tt)).
  repeat emits_step.
Qed.

Lemma Emits_writerWrite buffer :
  (forall b, P (EvWrite b)) -> Emits P (writerWrite buffer).
Proof.
  intros H. unfold writerWrite. apply Emits_bind; [repeat emits_step | intros _].
  intros w. destruct (writeFaults w); [constructor|].
  revert w. change (Emits P (update (set_writeFaults l) ;;
    if b then throw (TransportFailure OpWrite) else ret tt)).
  repeat emits_step.
Qed.

Lemma Emits_readerCancel : P EvCancel -> Emits P readerCancel.
Proof.
  intros H. unfold readerCancel. apply Emits_bind; [repeat emits_step | intros _].
  intros w. destruct (cancelFault w); constructor.
Qed.

Lemma Emits_writerClose : P EvClose -> Emits P writerClose.
Proof.
  intros H. unfold writerClose. apply Emits_bind; [repeat emits_step | intros _].
  intros w. destruct (closeFault w); constructor.
Qed.

Lemma Emits_sendCommand command :
  (forall b, P (EvWrite b)) -> Emits P (sendCommand command).
Proof.
  intros H. unfold sendCommand.
  apply Emits_bind; [apply Emits_getWriter | intros [wr|]].
  - now apply Emits_writerWrite.
  - apply Emits_throw.
Qed.

Lemma Emits_readResult n response : Emits P (readResult n response).
Proof. unfold readResult. repeat emits_step. Qed.

Lemma Emits_readLoop n timeout :
  (forall t, P (EvRead t)) ->
  forall stream response w, Forall P (emitted (readLoop n timeout response stream w)).
Proof.
  intros H. induction stream as [|ev rest IH]; intros response w; simpl;
    destruct ((length response <? n) && (clock w <? timeout)%Z);
    try apply Emits_readResult.
  - constructor; [apply H | apply Emits_readResult].
  - destruct ev; simpl; constructor; auto; try apply Emits_readResult.
Qed.

Lemma Emits_readResponse n : (forall t, P (EvRead t)) -> Emits P (readResponse n).
Proof.
  intros H. unfold readResponse.
  apply Emits_bind; [apply Emits_getReader | intros [rd|]].
  - intros w. now apply Emits_readLoop.
  - apply Emits_throw.
Qed.

Hypothesis P_write : forall b, P (EvWrite b).
Hypothesis P_read : forall t, P (EvRead t).
Hypothesis P_delay : forall ms, P (EvDelay ms).

Lemma Emits_syncIteration syncAttempts : Emits P (syncIteration syncAttempts).
Proof.
  unfold syncIteration.
  repeat first [ apply Emits_sendCommand; assumption
               | apply Emits_readResponse; assumption
               | apply Emits_delay; assumption
               | emits_step ].
Qed.

Lemma Emits_syncLoop fuel : forall syncAttempts, Emits P (syncLoop fuel syncAttempts).
Proof.
  induction fuel as [|fuel IH]; intros syncAttempts; cbn [syncLoop].
  - intros w. constructor.
  - destruct (syncAttempts <? maxSyncAttempts); [|apply Emits_ret].
    apply Emits_bind; [apply Emits_syncIteration | intros [next|]].
    + apply IH.
    + apply Emits_ret.
Qed.

Lemma Emits_writePage address data : Emits P (writePage address data).
Proof.
  unfold writePage.
  repeat first [ apply Emits_sendCommand; assumption
               | apply Emits_readResponse; assumption
               | emits_step ].
Qed.

Lemma Emits_leaveProgrammingMode options : Emits P (leaveProgrammingMode options).
Proof.
  unfold leaveProgrammingMode.
  repeat first [ apply Emits_sendCommand; assumption
               | apply Emits_readResponse; assumption
               | emits_step ].
Qed.

Hypothesis P_progress : forall p, isErrorStage p = false -> P (EvProgress p).

Lemma Emits_enterProgrammingMode options : Emits P (enterProgrammingMode options).
Proof.
  unfold enterProgrammingMode.
  apply Emits_bind; [now apply Emits_notify, P_progress | intros _].
  apply Emits_bind; [intros w; apply Emits_syncLoop | intros _].
  repeat first [ apply Emits_sendCommand; assumption
               | apply Emits_readResponse; assumption
               | apply Emits_notify; apply P_progress; reflexivity
               | emits_step ].
Qed.

Lemma Emits_uploadLine options n i line : Emits P (uploadLine options n i line).
Proof.
  unfold uploadLine.
  repeat first [ apply Emits_notify; apply P_progress; reflexivity
               | apply Emits_writePage
               | apply Emits_delay; assumption
               | emits_step ].
Qed.

Lemma Emits_uploadLines options n hexLines :
  forall i, Emits P (uploadLines options n i hexLines).
Proof.
  induction hexLines as [|line rest IH]; intros i; simpl.
  - apply Emits_ret.
  - apply Emits_bind; [apply Emits_uploadLine | intros _; apply IH].
Qed.

Lemma Emits_uploadHexData hexData options : Emits P (uploadHexData hexData options).
Proof.
  unfold uploadHexData.
  apply Emits_bind; [now apply Emits_notify, P_progress | intros _; apply Emits_uploadLines].
Qed.

Lemma Emits_verifyUpload hexData options : Emits P (verifyUpload hexData options).
Proof.
  unfold verifyUpload.
  repeat first [ apply Emits_notify; apply P_progress; reflexivity
               | apply Emits_delay; assumption
               | emits_step ].
Qed.

Hypothesis P_signals : forall a b, P (EvSetSignals a b).
Hypothesis P_warn : forall x, P (EvWarn x).
Hypothesis P_getReader : P EvGetReader.
Hypothesis P_getWriter : P EvGetWriter.

Lemma Emits_resetArduino : Emits P resetArduino.
Proof.
  unfold resetArduino.
  apply Emits_bind; [apply Emits_getPort | intros [port|]]; [|apply Emits_ret].
  repeat first [ apply Emits_setSignals; assumption
               | apply Emits_delay; assumption
               | apply Emits_warn; assumption
               | emits_step ].
Qed.

Lemma Emits_initializeConnection baud : Emits P (initializeConnection baud).
Proof.
  unfold initializeConnection.
  apply Emits_bind; [apply Emits_getPort | intros [port|]]; [|apply Emits_throw].
  apply Emits_bind; [apply Emits_resetArduino | intros _].
  repeat first [ apply Emits_delay; assumption | emits_step ].
Qed.

Lemma Emits_uploadSteps options : Emits P (uploadSteps options).
Proof.
  unfold uploadSteps.
  repeat first [ apply Emits_initializeConnection
               | apply Emits_enterProgrammingMode
               | apply Emits_uploadHexData
               | apply Emits_verifyUpload
               | apply Emits_leaveProgrammingMode
               | apply Emits_notify; apply P_progress; reflexivity
               | emits_step ].
Qed.

End EmissionOfSteps.

(** A relation between worlds that every protocol step respects: it may
    let time pass, consume the next read, and consume the next write
    verdict.  The steps between [initializeConnection] and [cleanup] do
    nothing else to the world. *)
Section KeepingOfSteps.
Variable R : World -> World -> Prop.
Hypothesis R_refl : forall w, R w w.
Hypothesis R_trans : forall w1 w2 w3, R w1 w2 -> R w2 w3 -> R w1 w3.
Hypothesis R_tick : forall w ms, R w (tick ms w).
Hypothesis R_read : forall w ev rest, inbox w = ev :: rest -> R w (set_inbox rest w).
Hypothesis R_write :
  forall w fault rest, writeFaults w = fault :: rest -> R w (set_writeFaults rest w).

Ltac keeps_step :=
  first
    [ apply Keeps_ret; assumption | apply Keeps_throw; assumption
    | apply Keeps_emit; assumption
    | apply Keeps_bind; [ assumption | | intro ]
    | apply Keeps_tryCatch; [ assumption | | intro ]
    | match goal with
      | |- Keeps _ (if ?b then _ else _) => destruct b
      | |- Keeps _ (match ?x with _ => _ end) => destruct x
      end ].

Lemma Keeps_getReader : Keeps R getReader.
Proof. intros w. apply R_refl. Qed.

Lemma Keeps_getWriter : Keeps R getWriter.
Proof. intros w. apply R_refl. Qed.

Lemma Keeps_notify options p : Keeps R (notify options p).
Proof. unfold notify. repeat keeps_step. Qed.

Lemma Keeps_delay ms : Keeps R (delay ms).
Proof.
  unfold delay. repeat keeps_step. apply Keeps_update. intros w. apply R_tick.
Qed.

Lemma Keeps_writerWrite buffer : Keeps R (writerWrite buffer).
Proof.
  unfold writerWrite. apply Keeps_bind; [exact R_trans | apply Keeps_emit; auto | intros _].
  intros w. destruct (writeFaults w) as [|fault rest] eqn:E; [apply R_refl|].
  unfold bind, update; simpl. destruct fault; simpl; eapply R_write; eauto.
Qed.

Lemma Keeps_sendCommand command : Keeps R (sendCommand command).
Proof.
  unfold sendCommand.
  apply Keeps_bind; [exact R_trans | apply Keeps_getWriter | intros [wr|]].
  - apply Keeps_writerWrite.
  - now apply Keeps_throw.
Qed.

Lemma Keeps_readResult n response : Keeps R (readResult n response).
Proof. unfold readResult. repeat keeps_step. Qed.

Lemma Keeps_readLoop n timeout :
  forall stream response w,
    inbox w = stream ->
    R w (final (readLoop n timeout response stream w)).
Proof.
  induction stream as [|ev rest IH]; intros response w Hw; simpl;
    destruct ((length response <? n) && (clock w <? timeout)%Z);
    try apply Keeps_readResult.
  assert (H1 : R w (set_inbox rest w)) by (eapply R_read; eauto).
  assert (H2 : forall ms, R w (tick ms (set_inbox rest w)))
    by (intros ms; eapply R_trans; [exact H1 | apply R_tick]).
  destruct ev; simpl; auto.
  - eapply R_trans; [apply H2 | apply IH; reflexivity].
  - eapply R_trans; [apply H2 | apply Keeps_readResult].
Qed.

Lemma Keeps_readResponse n : Keeps R (readResponse n).
Proof.
  unfold readResponse.
  apply Keeps_bind; [exact R_trans | apply Keeps_getReader | intros [rd|]].
  - intros w. now apply Keeps_readLoop.
  - now apply Keeps_throw.
Qed.

Lemma Keeps_syncIteration syncAttempts : Keeps R (syncIteration syncAttempts).
Proof.
  unfold syncIteration.
  repeat first [ apply Keeps_sendCommand | apply Keeps_readResponse
               | apply Keeps_delay | keeps_step ].
Qed.

Lemma Keeps_syncLoop fuel : forall syncAttempts, Keeps R (syncLoop fuel syncAttempts).
Proof.
  induction fuel as [|fuel IH]; intros syncAttempts; cbn [syncLoop].
  - intros w. apply R_refl.
  - destruct (syncAttempts <? maxSyncAttempts); [|now apply Keeps_ret].
    apply Keeps_bind; [exact R_trans | apply Keeps_syncIteration | intros [next|]].
    + apply IH.
    + now apply Keeps_ret.
Qed.

Lemma Keeps_writePage address data : Keeps R (writePage address data).
Proof.
  unfold writePage.
  repeat first [ apply Keeps_sendCommand | apply Keeps_readResponse | keeps_step ].
Qed.

Lemma Keeps_leaveProgrammingMode options : Keeps R (leaveProgrammingMode options).
Proof.
  unfold leaveProgrammingMode.
  repeat first [ apply Keeps_sendCommand | apply Keeps_readResponse | keeps_step ].
Qed.

Lemma Keeps_enterProgrammingMode options : Keeps R (enterProgrammingMode options).
Proof.
  unfold enterProgrammingMode.
  apply Keeps_bind; [exact R_trans | apply Keeps_notify | intros _].
  apply Keeps_bind; [exact R_trans | intros w; apply Keeps_syncLoop | intros _].
  repeat first [ apply Keeps_sendCommand | apply Keeps_readResponse
               | apply Keeps_notify | keeps_step ].
Qed.

Lemma Keeps_uploadLine options n i line : Keeps R (uploadLine options n i line).
Proof.
  unfold uploadLine.
  repeat first [ apply Keeps_notify | apply Keeps_writePage | apply Keeps_delay
               | keeps_step ].
Qed.

Lemma Keeps_uploadLines options n hexLines :
  forall i, Keeps R (uploadLines options n i hexLines).
Proof.
  induction hexLines as [|line rest IH]; intros i; simpl.
  - now apply Keeps_ret.
  - apply Keeps_bind; [exact R_trans | apply Keeps_uploadLine | intros _; apply IH].
Qed.

Lemma Keeps_uploadHexData hexData options : Keeps R (uploadHexData hexData options).
Proof.
  unfold uploadHexData.
  apply Keeps_bind; [exact R_trans | apply Keeps_notify | intros _; apply Keeps_uploadLines].
Qed.

Lemma Keeps_verifyUpload hexData options : Keeps R (verifyUpload hexData options).
Proof.
  unfold verifyUpload.
  repeat first [ apply Keeps_notify | apply Keeps_delay | keeps_step ].
Qed.

(** From the sync loop to the last snapshot of the [try]. *)
Lemma Keeps_protocol options :
  Keeps R
    (enterProgrammingMode options ;;
     uploadHexData (hexData options) options ;;
     verifyUpload (hexData options) options ;;
     leaveProgrammingMode options ;;
     notify options (mkProgress complete 100 UploadCompleted) ;;
     ret true).
Proof.
  repeat first [ apply Keeps_enterProgrammingMode | apply Keeps_uploadHexData
               | apply Keeps_verifyUpload | apply Keeps_leaveProgrammingMode
               | apply Keeps_notify | keeps_step ].
Qed.

End KeepingOfSteps.

(** ** Bytes: the bitwise operators of [writePage] against arithmetic *)

Lemma toInt32_wrap a : exists q, JS.toInt32 (Some a) = (a + q * 4294967296)%Z.
Proof.
  unfold JS.toInt32. change (2 ^ 31)%Z with 2147483648%Z. change (2 ^ 32)%Z with 4294967296%Z.
  exists (- ((a + 2147483648) / 4294967296))%Z.
  pose proof (Z.div_mod (a + 2147483648) 4294967296). lia.
Qed.

Lemma lowByte_wrap a q : lowByte (a + q * 4294967296) = lowByte a.
Proof.
  unfold lowByte. replace (a + q * 4294967296)%Z with (a + (q * 16777216) * 256)%Z by lia.
  apply Z_mod_plus_full.
Qed.

Lemma highByte_wrap a q : highByte (a + q * 4294967296) = highByte a.
Proof.
  unfold highByte. replace (a + q * 4294967296)%Z with (a + (q * 16777216) * 256)%Z by lia.
  rewrite Z_div_plus_full by lia.
  replace (a / 256 + q * 16777216)%Z with (a / 256 + (q * 65536) * 256)%Z by lia.
  apply Z_mod_plus_full.
Qed.

Lemma bitAnd_0xFF x : JS.bitAnd x (JS.num 0xFF) = lowByte (JS.toInt32 x).
Proof.
  unfold JS.bitAnd, lowByte.
  change (JS.toInt32 (JS.num 255)) with (Z.ones 8).
  now rewrite Z.land_ones by lia.
Qed.

Lemma shiftRight_8 x : JS.shiftRight x 8 = (JS.toInt32 x / 256)%Z.
Proof. unfold JS.shiftRight. now rewrite Z.shiftr_div_pow2 by lia. Qed.

Lemma addrLow_spec a : JS.bitAnd (Some a) (JS.num 0xFF) = lowByte a.
Proof.
  rewrite bitAnd_0xFF. destruct (toInt32_wrap a) as [q ->]. apply lowByte_wrap.
Qed.

Lemma addrHigh_spec a :
  JS.bitAnd (JS.num (JS.shiftRight (Some a) 8)) (JS.num 0xFF) = highByte a.
Proof.
  unfold JS.num at 1. rewrite addrLow_spec, shiftRight_8.
  destruct (toInt32_wrap a) as [q ->]. apply highByte_wrap.
Qed.

Lemma toUint8_lowByte z : JS.toUint8 (JS.num (lowByte z)) = lowByte z.
Proof. unfold JS.toUint8, JS.num, lowByte. apply Z.mod_mod. lia. Qed.

Lemma toUint8_highByte z : JS.toUint8 (JS.num (highByte z)) = highByte z.
Proof. unfold JS.toUint8, JS.num, highByte. apply Z.mod_mod. lia. Qed.

(** ** Exchanges and the wire form of the commands *)

Lemma bind_assoc {A B C} (m : M A) (k : A -> M B) (h : B -> M C) w :
  bind (bind m k) h w = bind m (fun a => bind (k a) h) w.
Proof.
  unfold bind.
  destruct (outcome (m w)) eqn:E; simpl; try reflexivity.
  destruct (outcome (k a (final (m w)))); simpl; try reflexivity.
  unfold after; simpl. now rewrite app_assoc.
Qed.

Lemma bind_cong {A B} (m1 m2 : M A) (k1 k2 : A -> M B) w :
  m1 w = m2 w -> (forall a w', k1 a w' = k2 a w') -> bind m1 k1 w = bind m2 k2 w.
Proof.
  intros Hm Hk. unfold bind. rewrite Hm.
  destruct (outcome (m2 w)); auto. now rewrite Hk.
Qed.

(** *** [sendCommand] *)

Lemma sendCommand_buffer c1 c2 w :
  map JS.toUint8 c1 = map JS.toUint8 c2 -> sendCommand c1 w = sendCommand c2 w.
Proof. intros H. unfold sendCommand. now rewrite H. Qed.

Lemma sendCommand_writes command w :
  writes (emitted (sendCommand command w)) =
  match this_writer w with
  | Some _ => [map JS.toUint8 command]
  | None => []
  end.
Proof.
  unfold sendCommand, getWriter, writerWrite, bind, ret, emit; simpl.
  destruct (this_writer w); [|reflexivity].
  simpl. destruct (writeFaults w) as [|[] ?]; reflexivity.
Qed.

Lemma sendCommand_returned command w :
  outcome (sendCommand command w) = Returned tt ->
  writes (emitted (sendCommand command w)) = [map JS.toUint8 command].
Proof.
  rewrite sendCommand_writes.
  unfold sendCommand, getWriter, bind, ret; simpl.
  destruct (this_writer w); [reflexivity | discriminate].
Qed.

Lemma readResponse_writes n w : writes (emitted (readResponse n w)) = [].
Proof. apply writes_none. apply Emits_readResponse. intros; exact I. Qed.

Lemma exchange_writes command w :
  writes (emitted (exchange command w)) = writes (emitted (sendCommand command w)).
Proof.
  unfold exchange. rewrite bind_emitted, writes_app.
  destruct (outcome (sendCommand command w)); rewrite ?readResponse_writes;
    simpl; apply app_nil_r.
Qed.

Lemma exchange_returned command w response :
  outcome (exchange command w) = Returned response ->
  writes (emitted (exchange command w)) = [map JS.toUint8 command].
Proof.
  intros H. rewrite exchange_writes. apply sendCommand_returned.
  unfold exchange in H. rewrite bind_outcome in H.
  destruct (outcome (sendCommand command w)) as [[]| |]; congruence.
Qed.

Lemma exchange_writes_cases command w :
  writes (emitted (exchange command w)) = [] \/
  writes (emitted (exchange command w)) = [map JS.toUint8 command].
Proof.
  rewrite exchange_writes, sendCommand_writes. destruct (this_writer w); auto.
Qed.

(** The wire form of the two commands of [writePage]. *)
Lemma loadAddress_wire address :
  map JS.toUint8
    [JS.num STK_LOAD_ADDRESS; JS.num (JS.bitAnd address (JS.num 0xFF));
     JS.num (JS.bitAnd (JS.num (JS.shiftRight address 8)) (JS.num 0xFF));
     JS.num STK_CRC_EOP]
  = loadAddressCommand address.
Proof.
  unfold loadAddressCommand. destruct address as [a|].
  - cbn [map]. rewrite addrHigh_spec, addrLow_spec, toUint8_lowByte, toUint8_highByte.
    reflexivity.
  - reflexivity.
Qed.

Lemma progPage_wire data :
  let pageSize := JS.num (Z.of_nat (length data)) in
  map JS.toUint8
    ([JS.num STK_PROG_PAGE;
      JS.num (JS.bitAnd (JS.num (JS.shiftRight pageSize 8)) (JS.num 0xFF));
      JS.num (JS.bitAnd pageSize (JS.num 0xFF));
      JS.num 0x46] ++ data ++ [JS.num STK_CRC_EOP])
  = progPageCommand data.
Proof.
  cbv zeta. unfold progPageCommand.
  change (JS.num (Z.of_nat (length data))) with (Some (Z.of_nat (length data))).
  rewrite map_app, map_app. cbn [map].
  rewrite addrHigh_spec, addrLow_spec, toUint8_lowByte, toUint8_highByte.
  reflexivity.
Qed.

Lemma wire_idempotent bytes :
  Forall (fun b => (0 <= b < 256)%Z) bytes ->
  map JS.toUint8 (map JS.num bytes) = bytes.
Proof.
  induction 1 as [|b bytes Hb _ IH]; [reflexivity|].
  cbn [map]. rewrite IH. f_equal. unfold JS.toUint8, JS.num. apply Z.mod_small. lia.
Qed.

Lemma toUint8_range x : (0 <= JS.toUint8 x < 256)%Z.
Proof. destruct x; simpl; [apply Z.mod_pos_bound|]; lia. Qed.

Lemma loadAddress_bytes address :
  Forall (fun b => (0 <= b < 256)%Z) (loadAddressCommand address).
Proof.
  unfold loadAddressCommand, lowByte, highByte.
  repeat constructor; try lia; apply Z.mod_pos_bound; lia.
Qed.

Lemma progPage_bytes data :
  Forall (fun b => (0 <= b < 256)%Z) (progPageCommand data).
Proof.
  unfold progPageCommand, lowByte, highByte.
  apply Forall_app. split.
  - repeat constructor; try lia; apply Z.mod_pos_bound; lia.
  - apply Forall_app. split.
    + apply Forall_forall. intros b Hb. apply in_map_iff in Hb.
      destruct Hb as [x [<- _]]. apply toUint8_range.
    + repeat constructor; lia.
Qed.

(** [writePage] is two exchanges in a row. *)
Lemma writePage_exchanges address data w :
  writePage address data w =
  (response <- exchange (map JS.num (loadAddressCommand address)) ;;
   if negb (inSyncOk response) then throw (FailedToSetAddress address)
   else
     response <- exchange (map JS.num (progPageCommand data)) ;;
     if negb (inSyncOk response) then throw (FailedToWritePage address)
     else ret tt) w.
Proof.
  unfold writePage, exchange. rewrite bind_assoc.
  apply bind_cong.
  - apply sendCommand_buffer.
    rewrite loadAddress_wire, wire_idempotent; [reflexivity | apply loadAddress_bytes].
  - intros _ w1. apply bind_ext. intros response w2.
    destruct (negb (inSyncOk response)); [reflexivity|].
    rewrite bind_assoc. apply bind_cong; [|reflexivity].
    apply sendCommand_buffer.
    rewrite progPage_wire, wire_idempotent; [reflexivity | apply progPage_bytes].
Qed.

(** ** [writePage] *)

Lemma wire_load address :
  map JS.toUint8 (map JS.num (loadAddressCommand address)) = loadAddressCommand address.
Proof. apply wire_idempotent, loadAddress_bytes. Qed.

Lemma wire_prog data :
  map JS.toUint8 (map JS.num (progPageCommand data)) = progPageCommand data.
Proof. apply wire_idempotent, progPage_bytes. Qed.

Lemma cleanup_settles w :
  outcome (cleanup w) = Returned tt.
Proof.
  unfold cleanup, tryCatch, bind, getReader, getWriter, readerCancel, writerClose,
    update, emit, warn, ret, throw; simpl.
  destruct (this_reader w); simpl.
  - destruct (cancelFault w); simpl; [reflexivity|].
    destruct (this_writer w); simpl; [|reflexivity].
    destruct (closeFault w); reflexivity.
  - destruct (this_writer w); simpl; [|reflexivity].
    destruct (closeFault w); reflexivity.
Qed.

Lemma uploadSketch_unfold port options w :
  uploadSketch port options w =
  tryFinally (tryCatch (uploadSteps options) (reportFailure options)) cleanup
             (set_port (Some port) w).
Proof.
  unfold uploadSketch, bind, update. simpl. unfold after. simpl. apply run_eta.
Qed.

Lemma tryFinally_cleanup_outcome {A} (body : M A) w :
  outcome (tryFinally body cleanup w) = outcome (body w).
Proof.
  unfold tryFinally. destruct (outcome (body w)) eqn:E; try assumption;
    rewrite cleanup_settles; reflexivity.
Qed.

Lemma reportFailure_outcome options cause w :
  outcome (reportFailure options cause w) = Returned false \/
  outcome (reportFailure options cause w) = Thrown CallbackFailure.
Proof.
  unfold reportFailure, notify.
  destruct (onProgress options) as [callback|]; [|left; reflexivity].
  unfold bind, emit, ret, throw; simpl.
  destruct (callback _); simpl; auto.
Qed.

Lemma uploadSketch_outcome port options w :
  outcome (uploadSketch port options w) =
  let w0 := set_port (Some port) w in
  match outcome (uploadSteps options w0) with
  | Thrown e => outcome (reportFailure options e (final (uploadSteps options w0)))
  | o => o
  end.
Proof.
  rewrite uploadSketch_unfold, tryFinally_cleanup_outcome. unfold tryCatch. cbv zeta.
  destruct (outcome (uploadSteps options (set_port (Some port) w))) eqn:E;
    simpl; auto.
Qed.


Lemma writePage_shape (address : JS.number) (data : list JS.number) (w : World) :
  let r := writePage address data w in
  let load := loadAddressCommand address in
  let prog := progPageCommand data in
  let x1 := exchange (map JS.num load) w in
  let x2 := exchange (map JS.num prog) (final x1) in
  match outcome x1 with
  | Returned response1 =>
      if inSyncOk response1 then
        match outcome x2 with
        | Returned response2 =>
            writes (emitted r) = [load; prog] /\
            outcome r = if inSyncOk response2 then Returned tt
                        else Thrown (FailedToWritePage address)
        | Thrown e =>
            outcome r = Thrown e /\
            (writes (emitted r) = [load] \/ writes (emitted r) = [load; prog])
        | Pending =>
            outcome r = Pending /\
            (writes (emitted r) = [load] \/ writes (emitted r) = [load; prog])
        end
      else outcome r = Thrown (FailedToSetAddress address) /\ writes (emitted r) = [load]
  | Thrown e =>
      outcome r = Thrown e /\ (writes (emitted r) = [] \/ writes (emitted r) = [load])
  | Pending =>
      outcome r = Pending /\ (writes (emitted r) = [] \/ writes (emitted r) = [load])
  end.
Proof.
  cbv zeta. rewrite writePage_exchanges.
  set (L := map JS.num (loadAddressCommand address)).
  set (G := map JS.num (progPageCommand data)).
  pose proof (exchange_writes_cases L w) as HL.
  pose proof (@exchange_returned L w) as HLr.
  unfold L in HL, HLr. rewrite wire_load in HL, HLr. fold L in HL, HLr.
  rewrite bind_emitted, bind_outcome, writes_app.
  destruct (outcome (exchange L w)) as [response| |] eqn:E1;
    [| rewrite app_nil_r; auto | rewrite app_nil_r; auto].
  specialize (HLr _ eq_refl). rewrite HLr.
  pose proof (exchange_writes_cases G (final (exchange L w))) as HG.
  pose proof (@exchange_returned G (final (exchange L w))) as HGr.
  unfold G in HG, HGr. rewrite wire_prog in HG, HGr. fold G in HG, HGr.
  destruct (inSyncOk response) eqn:Ok1; cbn [negb]; [|split; reflexivity].
  rewrite bind_emitted, bind_outcome, writes_app.
  destruct (outcome (exchange G (final (exchange L w)))) as [response2| |] eqn:E2.
  - specialize (HGr _ eq_refl). rewrite HGr.
    destruct (inSyncOk response2); cbn [negb]; split; reflexivity.
  - rewrite app_nil_r. split; [reflexivity|]. destruct HG as [-> | ->]; auto.
  - rewrite app_nil_r. split; [reflexivity|]. destruct HG as [-> | ->]; auto.
Qed.

Lemma writePage_writes address data w :
  let r := writePage address data w in
  prefixOf (writes (emitted r)) [loadAddressCommand address; progPageCommand data]
  /\ (outcome r = Returned tt ->
      writes (emitted r) = [loadAddressCommand address; progPageCommand data]).
Proof.
  cbv zeta. pose proof (writePage_shape address data w) as S. cbv zeta in S.
  split.
  - destruct (outcome (exchange _ w)) as [r1| |];
      [destruct (inSyncOk r1);
       [destruct (outcome (exchange _ _)) as [r2| |]|]| |].
    all: repeat match goal with
                | H : _ /\ _ |- _ => destruct H
                | H : _ \/ _ |- _ => destruct H
                end.
    all: match goal with H : writes _ = _ |- _ => rewrite H end.
    all: unfold prefixOf; simpl; eauto.
  - intros Hr. destruct (outcome (exchange _ w)) as [r1| |];
      [destruct (inSyncOk r1);
       [destruct (outcome (exchange _ _)) as [r2| |]|]| |].
    all: destruct S as [S1 S2]; try congruence.
Qed.

(** ** [readResponse] *)

Lemma pushBytes_fill n : forall data response,
  length response < n ->
  pushBytes n response data = response ++ firstn (n - length response) data.
Proof.
  induction data as [|byte rest IH]; intros response H; cbn [pushBytes].
  - now rewrite firstn_nil, app_nil_r.
  - rewrite length_app. cbn [length].
    destruct (n <=? length response + 1) eqn:E.
    + apply Nat.leb_le in E. replace (n - length response) with 1 by lia.
      reflexivity.
    + apply Nat.leb_gt in E. rewrite IH by (rewrite length_app; simpl; lia).
      rewrite length_app. cbn [length].
      replace (n - length response) with (S (n - (length response + 1))) by lia.
      cbn [firstn]. now rewrite <- app_assoc.
Qed.

Lemma pushBytes_length n data response :
  length response < n ->
  length (pushBytes n response data) = Nat.min n (length response + length data).
Proof.
  intros H. rewrite pushBytes_fill by assumption.
  rewrite length_app, length_firstn. lia.
Qed.

Lemma firstn_fill {A} n (response value rest : list A) :
  firstn n ((response ++ firstn (n - length response) value) ++ rest)
  = firstn n (response ++ value ++ rest).
Proof.
  rewrite <- app_assoc, !firstn_app.
  rewrite firstn_firstn, Nat.min_id, length_firstn.
  f_equal. f_equal.
  destruct (Nat.le_gt_cases (n - length response) (length value)) as [H|H].
  - rewrite Nat.min_l by assumption.
    replace (n - length response - (n - length response)) with 0 by lia.
    replace (n - length response - length value) with 0 by lia. reflexivity.
  - rewrite Nat.min_r by lia. reflexivity.
Qed.

Lemma bytesObserved_length consumed : bytesObserved consumed = length (chunkBytes consumed).
Proof.
  induction consumed as [|ev rest IH]; [reflexivity|].
  unfold chunkBytes in *. simpl. rewrite length_app, <- IH. destruct ev; reflexivity.
Qed.

(** What the loop does, for every stream: it returns exactly the expected
    number of bytes (the first ones received), or throws the timeout error
    with the number of bytes received so far, or propagates the rejection
    of a read, or stays pending on a read that never settles.  No read is
    issued once the deadline has passed. *)
Lemma readLoop_spec n timeout :
  forall stream response w,
    length response <= n ->
    inbox w = stream ->
    let r := readLoop n timeout response stream w in
    exists consumed,
      stream = consumed ++ inbox (final r)
      /\ Forall (fun t => (t < timeout)%Z) (readTimes (emitted r))
      /\ match outcome r with
         | Returned bytes =>
             length bytes = n /\ bytes = firstn n (response ++ chunkBytes consumed)
         | Thrown e =>
             e = TransportFailure OpRead \/
             (e = ResponseTimeout n (length response + bytesObserved consumed)
              /\ length response + bytesObserved consumed < n)
         | Pending => In Never consumed
         end.
Proof.
  assert (Stop : forall response w,
    length response <= n ->
    let r := readResult n response w in
    final r = w /\ emitted r = [] /\
    match outcome r with
    | Returned bytes => length bytes = n /\ bytes = firstn n (response ++ [])
    | Thrown e => e = ResponseTimeout n (length response + 0) /\ length response + 0 < n
    | Pending => False
    end).
  { intros response w H. unfold readResult. cbv zeta.
    destruct (length response <? n) eqn:E; simpl.
    - apply Nat.ltb_lt in E. rewrite Nat.add_0_r. auto.
    - apply Nat.ltb_ge in E. rewrite app_nil_r, firstn_all2 by lia.
      repeat split; lia. }
  induction stream as [|ev rest IH]; intros response w Hlen Hw; cbn [readLoop]; cbv zeta.
  - destruct ((length response <? n) && (clock w <? timeout)%Z) eqn:C.
    + apply andb_prop in C. destruct C as [_ C]. apply Z.ltb_lt in C.
      destruct (Stop response w Hlen) as (F & E & O).
      exists []. unfold after; simpl. rewrite F, E. simpl.
      repeat split; auto.
      destruct (outcome (readResult n response w)); solve [auto | tauto].
    + destruct (Stop response w Hlen) as (F & E & O).
      exists []. rewrite F, E. simpl. repeat split; auto.
      destruct (outcome (readResult n response w)); solve [auto | tauto].
  - destruct ((length response <? n) && (clock w <? timeout)%Z) eqn:C.
    + apply andb_prop in C. destruct C as [C1 C]. apply Z.ltb_lt in C.
      apply Nat.ltb_lt in C1.
      destruct ev as [elapsed value|elapsed|elapsed|].
      * set (w' := tick elapsed (set_inbox rest w)).
        destruct (IH (pushBytes n response value) w') as (consumed & S & T & O);
          [rewrite pushBytes_length by assumption; lia | reflexivity |].
        exists (Chunk elapsed value :: consumed). unfold after; simpl.
        split; [now f_equal|]. split; [now constructor|].
        fold w'. destruct (outcome (readLoop n timeout _ rest w')).
        -- destruct O as [O1 O2]. split; [assumption|].
           rewrite O2, pushBytes_fill by assumption.
           unfold chunkBytes. simpl. apply firstn_fill.
        -- destruct O as [O | [O1 O2]]; [now left | right].
           rewrite pushBytes_length in O1, O2 by assumption.
           assert (length response + length value < n) by lia.
           rewrite Nat.min_r in O1, O2 by lia.
           rewrite Nat.add_assoc. split; assumption.
        -- now right.
      * destruct (Stop response (tick elapsed (set_inbox rest w)) Hlen) as (F & E & O).
        exists [Done elapsed]. unfold after; simpl. rewrite F, E. simpl.
        repeat split; auto.
        destruct (outcome (readResult n response _)); solve [auto | tauto].
      * exists [Rejected elapsed]. unfold after; simpl. repeat split; auto.
      * exists [Never]. unfold after; simpl. repeat split; auto.
    + destruct (Stop response w Hlen) as (F & E & O).
      exists []. rewrite F, E. simpl. repeat split; auto.
      destruct (outcome (readResult n response w)); solve [auto | tauto].
Qed.

Lemma readResponse_unavailable expectedLength w :
  this_reader w = None ->
  readResponse expectedLength w = mkRun (Thrown ReaderNotAvailable) w [].
Proof.
  intros H. unfold readResponse, getReader, bind, ret; simpl. now rewrite H.
Qed.

Lemma readResponse_available expectedLength w :
  this_reader w <> None ->
  let r := readResponse expectedLength w in
  exists consumed,
    inbox w = consumed ++ inbox (final r)
    /\ Forall (fun t => (t < clock w + 5000)%Z) (readTimes (emitted r))
    /\ match outcome r with
       | Returned bytes =>
           length bytes = expectedLength
           /\ bytes = firstn expectedLength (chunkBytes consumed)
       | Thrown e =>
           e = TransportFailure OpRead \/
           (e = ResponseTimeout expectedLength (bytesObserved consumed)
            /\ bytesObserved consumed < expectedLength)
       | Pending => In Never consumed
       end.
Proof.
  intros H. cbv zeta. unfold readResponse, getReader, bind, ret; simpl.
  destruct (this_reader w) as [rd|]; [|congruence]. simpl.
  destruct (@readLoop_spec expectedLength (clock w + 5000) (inbox w) [] w)
    as (consumed & S & T & O); [simpl; lia | reflexivity |].
  exists consumed. unfold after; simpl. auto.
Qed.








Example readResponse_late_timeout :
  let r := readResponse 2 (connectedWorld [Chunk 60000 [STK_INSYNC]]) in
  outcome r = Thrown (ResponseTimeout 2 1) /\ clock (final r) = 60000%Z.
Proof. vm_compute. auto. Qed.

Example readResponse_first_bytes :
  outcome (readResponse 2 (connectedWorld [Chunk 1 [0x14]; Chunk 1 [0x10; 0x14; 0x10]]%Z))
  = Returned [0x14; 0x10]%Z.
Proof. reflexivity. Qed.

(** ** Settling *)

Lemma Settles_ret {A} (a : A) : Settles (ret a).
Proof. intros w H. split; [discriminate | exact H]. Qed.

Lemma Settles_throw {A} e : Settles (@throw A e).
Proof. intros w H. split; [discriminate | exact H]. Qed.

Lemma Settles_emit ev : Settles (emit ev).
Proof. intros w H. split; [discriminate | exact H]. Qed.

Lemma Settles_update f : (forall w, inbox (f w) = inbox w) -> Settles (update f).
Proof.
  intros Hf w H. split; [discriminate|]. unfold noNever, update in *. simpl.
  now rewrite Hf.
Qed.

Lemma Settles_bind {A B} (m : M A) (k : A -> M B) :
  Settles m -> (forall a, Settles (k a)) -> Settles (bind m k).
Proof.
  intros Hm Hk w H. destruct (Hm w H) as [Hm1 Hm2].
  rewrite bind_outcome, bind_final.
  destruct (outcome (m w)) as [a| |]; auto.
  - apply Hk, Hm2.
  - split; [discriminate | assumption].
Qed.

Lemma Settles_tryCatch {A} (body : M A) handler :
  Settles body -> (forall e, Settles (handler e)) -> Settles (tryCatch body handler).
Proof.
  intros Hb Hh w H. destruct (Hb w H) as [Hb1 Hb2]. unfold tryCatch.
  destruct (outcome (body w)) as [a|e|] eqn:E; simpl.
  - rewrite E. split; [discriminate | assumption].
  - apply Hh, Hb2.
  - congruence.
Qed.

Lemma Settles_tryFinally {A} (body : M A) finalizer :
  Settles body -> Settles finalizer -> Settles (tryFinally body finalizer).
Proof.
  intros Hb Hf w H. destruct (Hb w H) as [Hb1 Hb2]. unfold tryFinally.
  destruct (Hf _ Hb2) as [Hf1 Hf2].
  destruct (outcome (body w)) as [a|e|] eqn:E; try congruence;
    destruct (outcome (finalizer (final (body w)))); simpl;
    try congruence; split; auto; discriminate.
Qed.

Ltac settles_step :=
  first
    [ apply Settles_ret | apply Settles_throw | apply Settles_emit
    | apply Settles_update; reflexivity
    | apply Settles_bind; [ | intro ]
    | apply Settles_tryCatch; [ | intro ]
    | apply Settles_tryFinally
    | match goal with
      | |- Settles (if ?b then _ else _) => destruct b
      | |- Settles (match ?x with _ => _ end) => destruct x
      end ].

Lemma Settles_getPort : Settles getPort.
Proof. intros w H. split; [discriminate | exact H]. Qed.

Lemma Settles_getReader : Settles getReader.
Proof. intros w H. split; [discriminate | exact H]. Qed.

Lemma Settles_getWriter : Settles getWriter.
Proof. intros w H. split; [discriminate | exact H]. Qed.

Lemma Settles_notify options p : Settles (notify options p).
Proof. unfold notify. repeat settles_step. Qed.

Lemma Settles_warn what : Settles (warn what).
Proof. unfold warn. repeat settles_step. Qed.

Lemma Settles_delay ms : Settles (delay ms).
Proof. unfold delay. repeat settles_step. Qed.

Lemma Settles_setSignals dtr rts : Settles (setSignals dtr rts).
Proof.
  unfold setSignals. apply Settles_bind; [apply Settles_emit | intros _].
  intros w H. destruct (signalFaults w) as [|fault rest]; [now apply Settles_ret|].
  revert w H.
  change (Settles (update (set_signalFaults rest) ;;
    if fault then throw (TransportFailure OpSetSignals) else ret tt)).
  repeat settles_step.
Qed.

Lemma Settles_writerWrite buffer : Settles (writerWrite buffer).
Proof.
  unfold writerWrite. apply Settles_bind; [apply Settles_emit | intros _].
  intros w H. destruct (writeFaults w) as [|fault rest]; [now apply Settles_ret|].
  revert w H.
  change (Settles (update (set_writeFaults rest) ;;
    if fault then throw (TransportFailure OpWrite) else ret tt)).
  repeat settles_step.
Qed.

Lemma Settles_readerCancel : Settles readerCancel.
Proof.
  unfold readerCancel. apply Settles_bind; [apply Settles_emit | intros _].
  intros w H. destruct (cancelFault w); split; solve [discriminate | exact H].
Qed.

Lemma Settles_writerClose : Settles writerClose.
Proof.
  unfold writerClose. apply Settles_bind; [apply Settles_emit | intros _].
  intros w H. destruct (closeFault w); split; solve [discriminate | exact H].
Qed.

Lemma Settles_sendCommand command : Settles (sendCommand command).
Proof.
  unfold sendCommand.
  apply Settles_bind; [apply Settles_getWriter | intros [wr|]].
  - apply Settles_writerWrite.
  - apply Settles_throw.
Qed.

Lemma Settles_readResponse n : Settles (readResponse n).
Proof.
  intros w H.
  destruct (this_reader w) as [rd|] eqn:E.
  - destruct (@readResponse_available n w) as (consumed & S & _ & O); [congruence|].
    cbv zeta in *.
    unfold noNever in *. rewrite S in H. split.
    + intros P. rewrite P in O. apply H, in_or_app. now left.
    + intros N. apply H, in_or_app. now right.
  - rewrite readResponse_unavailable by assumption. simpl.
    split; [discriminate | assumption].
Qed.

(** ** The sync loop *)

Lemma inboxSuffix_refl w : inboxSuffix w w.
Proof. now exists []. Qed.

Lemma inboxSuffix_trans w1 w2 w3 :
  inboxSuffix w1 w2 -> inboxSuffix w2 w3 -> inboxSuffix w1 w3.
Proof.
  intros [c1 H1] [c2 H2]. exists (c1 ++ c2). now rewrite H1, H2, app_assoc.
Qed.

Lemma inboxSuffix_tick w ms : inboxSuffix w (tick ms w).
Proof. now exists []. Qed.

Lemma inboxSuffix_read w ev rest : inbox w = ev :: rest -> inboxSuffix w (set_inbox rest w).
Proof. intros H. now exists [ev]. Qed.

Lemma inboxSuffix_write w fault rest :
  writeFaults w = fault :: rest -> inboxSuffix w (set_writeFaults rest w).
Proof. intros _. now exists []. Qed.

Lemma inboxSuffix_length w w' : inboxSuffix w w' -> length (inbox w') <= length (inbox w).
Proof. intros [c H]. rewrite H, length_app. lia. Qed.

Lemma sendCommand_inbox command w : inbox (final (sendCommand command w)) = inbox w.
Proof.
  unfold sendCommand, getWriter, writerWrite, bind, ret, emit, update; simpl.
  destruct (this_writer w); [|reflexivity].
  simpl. destruct (writeFaults w) as [|[] ?]; reflexivity.
Qed.

(** A response of two bytes has consumed a read. *)
Lemma readResponse_consumes w response :
  outcome (readResponse 2 w) = Returned response ->
  length (inbox (final (readResponse 2 w))) < length (inbox w).
Proof.
  intros H.
  destruct (this_reader w) as [rd|] eqn:E.
  - destruct (@readResponse_available 2 w) as (consumed & S & _ & O); [congruence|].
    cbv zeta in *.
    rewrite H in O. destruct O as [O1 O2].
    assert (L : length (inbox w) = length (consumed ++ inbox (final (readResponse 2 w))))
      by (f_equal; exact S).
    rewrite L, length_app.
    destruct consumed; [subst response; discriminate | simpl; lia].
  - rewrite readResponse_unavailable in H by assumption. discriminate.
Qed.

(** An iteration that asks for another one has either consumed a read or
    counted a failed attempt. *)
Lemma syncIteration_progress syncAttempts w next :
  outcome (syncIteration syncAttempts w) = Returned (Some next) ->
  (next = syncAttempts /\
   length (inbox (final (syncIteration syncAttempts w))) < length (inbox w))
  \/ (next = S syncAttempts /\ S syncAttempts < maxSyncAttempts).
Proof.
  unfold syncIteration, tryCatch.
  set (body := (sendCommand _ ;; response <- readResponse 2 ;; _)).
  cbv zeta. destruct (outcome (body w)) as [x|e|] eqn:E.
  - rewrite E. intros [= ->]. left.
    unfold body in *. rewrite bind_outcome in E. rewrite bind_final.
    destruct (outcome (sendCommand _ w)) eqn:E1; try discriminate.
    rewrite bind_outcome in E. rewrite bind_final.
    destruct (outcome (readResponse 2 _)) as [response| |] eqn:E2; try discriminate.
    apply readResponse_consumes in E2. rewrite sendCommand_inbox in E2.
    destruct (inSyncOk response); simpl in *; [discriminate|].
    split; [congruence | assumption].
  - unfold after; cbn [outcome].
    destruct (maxSyncAttempts <=? S syncAttempts) eqn:L; [intros H; discriminate|].
    apply Nat.leb_gt in L. unfold delay, bind, emit, update, ret; cbn [outcome after].
    intros [= <-]. now right.
  - rewrite E. discriminate.
Qed.

Lemma bind_ext_at {A B} (m : M A) (k1 k2 : A -> M B) w :
  (forall a, outcome (m w) = Returned a -> k1 a (final (m w)) = k2 a (final (m w))) ->
  bind m k1 w = bind m k2 w.
Proof.
  intros H. unfold bind. destruct (outcome (m w)); auto. now rewrite H.
Qed.

(** More fuel than reads and attempts left changes nothing. *)
Lemma syncLoop_fuel : forall fuel fuel' syncAttempts w,
  length (inbox w) + (maxSyncAttempts - syncAttempts) < fuel ->
  fuel <= fuel' ->
  syncLoop fuel' syncAttempts w = syncLoop fuel syncAttempts w.
Proof.
  induction fuel as [|fuel IH]; intros fuel' syncAttempts w Hm Hle; [lia|].
  destruct fuel' as [|fuel']; [lia|]. cbn [syncLoop].
  destruct (syncAttempts <? maxSyncAttempts) eqn:L; [|reflexivity].
  apply Nat.ltb_lt in L.
  apply bind_ext_at. intros [next|] E; [|reflexivity].
  pose proof (@Keeps_syncIteration inboxSuffix inboxSuffix_refl inboxSuffix_trans
                inboxSuffix_tick inboxSuffix_read inboxSuffix_write syncAttempts w) as K.
  apply inboxSuffix_length in K.
  apply IH; [|lia].
  destruct (@syncIteration_progress _ _ _ E) as [[-> P] | [-> P]]; lia.
Qed.

(** With that much fuel, the loop is pending only on a read that never
    settles. *)
Lemma Settles_syncIteration syncAttempts : Settles (syncIteration syncAttempts).
Proof.
  unfold syncIteration.
  repeat first [ apply Settles_sendCommand | apply Settles_readResponse
               | apply Settles_delay | settles_step ].
Qed.

Lemma syncLoop_settles : forall fuel syncAttempts w,
  length (inbox w) + (maxSyncAttempts - syncAttempts) < fuel ->
  noNever w ->
  outcome (syncLoop fuel syncAttempts w) <> Pending
  /\ noNever (final (syncLoop fuel syncAttempts w)).
Proof.
  induction fuel as [|fuel IH]; intros syncAttempts w Hm Hn; [lia|].
  cbn [syncLoop].
  destruct (syncAttempts <? maxSyncAttempts) eqn:L; [|now apply Settles_ret].
  apply Nat.ltb_lt in L.
  destruct (Settles_syncIteration syncAttempts Hn) as [S1 S2].
  pose proof (@Keeps_syncIteration inboxSuffix inboxSuffix_refl inboxSuffix_trans
                inboxSuffix_tick inboxSuffix_read inboxSuffix_write syncAttempts w) as K.
  apply inboxSuffix_length in K.
  rewrite bind_outcome, bind_final.
  destruct (outcome (syncIteration syncAttempts w)) as [[next|]| |] eqn:E; try congruence.
  - apply IH; [|assumption].
    destruct (@syncIteration_progress _ _ _ E) as [[-> P] | [-> P]]; lia.
  - now apply Settles_ret.
  - split; [discriminate | assumption].
Qed.

Lemma Settles_sync : Settles (fun w => syncLoop (syncFuel w) 0 w).
Proof. intros w H. apply syncLoop_settles; [unfold syncFuel; lia | assumption]. Qed.

Lemma readLoop_full n timeout response stream w :
  n <= length response ->
  readLoop n timeout response stream w = mkRun (Returned response) w [].
Proof.
  intros H. apply Nat.ltb_ge in H.
  destruct stream; cbn [readLoop]; rewrite H; cbn [andb];
    unfold readResult; rewrite H; reflexivity.
Qed.

(** One exchange on a ready uploader whose next read is a two-byte chunk. *)
Lemma exchange_reply command w elapsed b0 b1 rest :
  ready w ->
  inbox w = Chunk elapsed [b0; b1] :: rest ->
  exchange command w =
  mkRun (Returned [b0; b1]) (tick elapsed (set_inbox rest w))
        [EvWrite (map JS.toUint8 command); EvRead (clock w)].
Proof.
  intros (Hr & Hw & Hf) Hi.
  unfold exchange, sendCommand, readResponse, getWriter, getReader, writerWrite,
    bind, ret, emit; cbn [outcome final emitted after].
  rewrite Hw; cbn [outcome final emitted after]. rewrite Hf; cbn [outcome final emitted after].
  rewrite Hr; cbn [outcome final emitted after]. rewrite Hi. cbn [readLoop length].
  replace (clock w <? clock w + 5000)%Z with true by (symmetry; apply Z.ltb_lt; lia).
  cbn [Nat.ltb Nat.leb andb pushBytes app length].
  rewrite readLoop_full by (simpl; lia).
  reflexivity.
Qed.

Lemma syncIteration_reply syncAttempts w elapsed b0 b1 rest :
  ready w ->
  inbox w = Chunk elapsed [b0; b1] :: rest ->
  syncIteration syncAttempts w =
  mkRun (Returned (if inSyncOk [b0; b1] then None else Some syncAttempts))
        (tick elapsed (set_inbox rest w))
        [EvWrite syncCommand; EvRead (clock w)].
Proof.
  intros Hr Hi.
  set (c := [JS.num STK_GET_SYNC; JS.num STK_CRC_EOP]).
  set (K := fun response : list Z =>
              if inSyncOk response then @ret (option nat) None else ret (Some syncAttempts)).
  assert (B : (sendCommand c ;; response <- readResponse 2 ;; K response) w =
              mkRun (Returned (if inSyncOk [b0; b1] then None else Some syncAttempts))
                    (tick elapsed (set_inbox rest w))
                    [EvWrite syncCommand; EvRead (clock w)]).
  { rewrite <- bind_assoc. change (sendCommand c ;; readResponse 2) with (exchange c).
    unfold bind. rewrite (exchange_reply c Hr Hi). cbn [outcome final emitted after].
    unfold K. destruct (inSyncOk [b0; b1]); reflexivity. }
  unfold syncIteration, tryCatch. fold c.
  change (sendCommand c ;; response <- readResponse 2 ;;
          if inSyncOk response then ret None else ret (Some syncAttempts))
    with (sendCommand c ;; response <- readResponse 2 ;; K response).
  rewrite B. reflexivity.
Qed.

Lemma syncLoop_refusals elapsed : forall k fuel syncAttempts w rest,
  k < fuel ->
  syncAttempts < maxSyncAttempts ->
  ready w ->
  inbox w = repeat refusal k ++ ack elapsed :: rest ->
  let r := syncLoop fuel syncAttempts w in
  outcome r = Returned tt
  /\ writes (emitted r) = repeat syncCommand (S k)
  /\ delays (emitted r) = []
  /\ ready (final r)
  /\ inbox (final r) = rest.
Proof.
  induction k as [|k IH]; intros fuel syncAttempts w rest Hf Ha Hr Hi;
    (destruct fuel as [|fuel]; [lia|]); cbv zeta; cbn [syncLoop];
    apply Nat.ltb_lt in Ha; rewrite Ha; apply Nat.ltb_lt in Ha.
  - simpl in Hi. unfold bind. rewrite (syncIteration_reply syncAttempts Hr Hi).
    cbn. auto.
  - simpl in Hi. unfold bind. rewrite (syncIteration_reply syncAttempts Hr Hi).
    cbn [outcome final emitted after inSyncOk nth_error].
    change ((STK_INSYNC =? STK_INSYNC)%Z && (STK_FAILED =? STK_OK)%Z) with false.
    cbv iota.
    destruct (IH fuel syncAttempts
                 (tick 0 (set_inbox (repeat refusal k ++ ack elapsed :: rest) w)) rest)
      as (O & W & D & R & I); [lia | assumption | exact Hr | reflexivity |].
    cbv zeta in *. unfold after. cbn [outcome final emitted app].
    unfold writes, delays in *. cbn [flat_map app]. rewrite O, W, D.
    repeat split; try assumption; apply R.
Qed.

(** Claim C2 (the code departs from it).  The sync phase is not bounded by
    ten attempts: a complete two-byte reply that is not in-sync/OK is
    neither counted nor followed by a back-off.  After [k] such replies,
    for every [k], the loop is still running; if the next reply is
    in-sync/OK, the sync succeeds on attempt [k + 1], without any
    delay. *)
Theorem sync_attempts_unbounded (k : nat) :
  let reads := repeat refusal k ++ [ack 0; ack 0] in
  let r := enterProgrammingMode (silentOptions []) (connectedWorld reads) in
  outcome r = Returned tt
  /\ writes (emitted r) = repeat syncCommand (S k) ++ [enterProgmodeCommand]
  /\ delays (emitted r) = [].
Proof.
  cbv zeta. set (w := connectedWorld _).
  assert (Hr : ready w) by (repeat split).
  destruct (@syncLoop_refusals 0%Z k (syncFuel w) 0 w [ack 0]) as (O & W & D & R & I);
    [ unfold syncFuel, w; simpl; rewrite length_app, repeat_length; lia
    | unfold maxSyncAttempts; lia | exact Hr | reflexivity | ].
  cbv zeta in *.
  unfold enterProgrammingMode.
  rewrite (bind_returned _ _ w (a := tt)) by reflexivity.
  cbn [emitted notify silentOptions onProgress ret final after app].
  unfold after at 1. cbn [app emitted outcome final].
  set (sync := fun w => syncLoop (syncFuel w) 0 w) in *.
  change (syncLoop (syncFuel w) 0 w) with (sync w) in *.
  rewrite (bind_returned sync _ w O).
  set (w1 := final (sync w)) in *.
  rewrite (bind_returned _ _ w1 (a := tt)) by reflexivity.
  cbn [emitted ret final after app].
  rewrite <- bind_assoc.
  change (sendCommand [JS.num STK_ENTER_PROGMODE; JS.num STK_CRC_EOP] ;; readResponse 2)
    with (exchange [JS.num STK_ENTER_PROGMODE; JS.num STK_CRC_EOP]).
  unfold bind. rewrite (exchange_reply _ R I). unfold after.
  cbn [outcome final emitted app inSyncOk nth_error negb].
  change ((STK_INSYNC =? STK_INSYNC)%Z && (STK_OK =? STK_OK)%Z) with true. cbv iota.
  cbn [negb outcome emitted ret]. rewrite ?app_nil_r.
  rewrite writes_app, delays_app, W, D.
  repeat split.
Qed.

(** The same for eleven refusals, by evaluation: twelve sync commands. *)
Example sync_twelve_attempts :
  let reads := repeat refusal 11 ++ [ack 0; ack 0] in
  let r := enterProgrammingMode (silentOptions []) (connectedWorld reads) in
  outcome r = Returned tt
  /\ writes (emitted r) = repeat syncCommand 12 ++ [enterProgmodeCommand]
  /\ delays (emitted r) = [].
Proof. vm_compute. auto. Qed.

(** With a stream that is closed every attempt throws: ten attempts, nine
    back-offs of 100 ms, then the failure to sync. *)
Example sync_ten_timeouts :
  let r := enterProgrammingMode (silentOptions []) (connectedWorld []) in
  outcome r = Thrown FailedToSync
  /\ writes (emitted r) = repeat syncCommand 10
  /\ delays (emitted r) = repeat 100%Z 9.
Proof. vm_compute. auto. Qed.

(** Refusals in between do not count: twenty-one attempts before the
    failure, and still nine back-offs. *)
Example sync_twenty_one_attempts :
  let reads := repeat (Done 5000) 4 ++ repeat refusal 11 ++ repeat (Done 5000) 6 in
  let r := enterProgrammingMode (silentOptions []) (connectedWorld reads) in
  outcome r = Thrown FailedToSync
  /\ writes (emitted r) = repeat syncCommand 21
  /\ delays (emitted r) = repeat 100%Z 9.
Proof. vm_compute. auto. Qed.

(** When the attempts before it time out, an in-sync reply on the k-th
    attempt, k <= 10, is accepted, after k - 1 back-offs. *)
Lemma sync_on_kth_attempt (k : nat) :
  k < 10 ->
  let reads := repeat (Done 5000) k ++ [ack 0; ack 0] in
  let r := enterProgrammingMode (silentOptions []) (connectedWorld reads) in
  outcome r = Returned tt
  /\ writes (emitted r) = repeat syncCommand (S k) ++ [enterProgmodeCommand]
  /\ delays (emitted r) = repeat 100%Z k.
Proof.
  intros H.
  do 10 (destruct k as [|k]; [vm_compute; auto|]). lia.
Qed.

Example sync_on_kth_attempt_witness :
  3 < 10
  /\ let reads := repeat (Done 5000) 3 ++ [ack 0; ack 0] in
     let r := enterProgrammingMode (silentOptions []) (connectedWorld reads) in
     outcome r = Returned tt
     /\ writes (emitted r) = repeat syncCommand 4 ++ [enterProgmodeCommand]
     /\ delays (emitted r) = repeat 100%Z 3.
Proof.
  split; [lia|]. apply (@sync_on_kth_attempt 3). lia.
Defined.

(** ** The loop over the records *)

Lemma notify_quiet options p w :
  quietCallback options ->
  notify options p w =
  mkRun (Returned tt) w
        (match onProgress options with Some _ => [EvProgress p] | None => [] end).
Proof.
  unfold quietCallback, notify. destruct (onProgress options) as [callback|]; intros H.
  - unfold bind, emit, ret, throw. cbn [outcome final emitted after]. rewrite H.
    reflexivity.
  - reflexivity.
Qed.

Lemma notify_writes options p w : writes (emitted (notify options p w)) = [].
Proof. apply writes_none, Emits_notify. exact I. Qed.

(** The line of index [i] is processed as follows. *)
Lemma uploadLine_cases options n i line w :
  uploadLine options n i line w =
  (notify options (mkProgress uploading (lineProgress i n)
                              (UploadingPercent (JS.round (lineProgress i n)))) ;;
   if isDataRecord line
   then writePage (recordAddressOf line) (dataOf line (dataLengthOf line)) ;; delay 10
   else if length line <? 11 then ret tt else ret tt ;; delay 10) w.
Proof.
  unfold uploadLine, isDataRecord. cbv zeta.
  apply bind_ext. intros _ w'.
  rewrite Nat.leb_antisym.
  destruct (length line <? 11); cbn [negb andb]; [reflexivity|].
  destruct (JS.strictEq (recordTypeOf line) (JS.num 0) && JS.gt (dataLengthOf line) (JS.num 0));
    reflexivity.
Qed.

Lemma delay_writes ms w : writes (emitted (delay ms w)) = [].
Proof. reflexivity. Qed.

Lemma uploadLine_writes options n i line w :
  let r := uploadLine options n i line w in
  prefixOf (writes (emitted r)) (pageCommands line)
  /\ (outcome r = Returned tt -> writes (emitted r) = pageCommands line).
Proof.
  cbv zeta. rewrite uploadLine_cases. unfold pageCommands.
  rewrite bind_emitted, bind_outcome, writes_app, notify_writes. cbn [app].
  destruct (outcome (notify options _ w)) as [[]| |];
    [| split; [now eexists | discriminate] | split; [now eexists | discriminate]].
  destruct (isDataRecord line).
  - rewrite bind_emitted, bind_outcome, writes_app.
    destruct (writePage_writes (recordAddressOf line) (dataOf line (dataLengthOf line))
                               (final (notify options
                                  (mkProgress uploading (lineProgress i n)
                                     (UploadingPercent (JS.round (lineProgress i n)))) w)))
      as [P R].
    destruct (outcome (writePage _ _ _)) as [[]| |]; rewrite app_nil_r.
    + rewrite R by reflexivity. split; [now exists [] | reflexivity].
    + split; [exact P | discriminate].
    + split; [exact P | discriminate].
  - destruct (length line <? 11); simpl; split; auto; now exists [].
Qed.

Lemma prefixOf_app {A} (l1 l2 full2 : list A) :
  prefixOf l2 full2 -> prefixOf (l1 ++ l2) (l1 ++ full2).
Proof. intros [rest ->]. exists rest. now rewrite app_assoc. Qed.

Lemma prefixOf_weaken {A} (l full more : list A) :
  prefixOf l full -> prefixOf l (full ++ more).
Proof. intros [rest ->]. exists (rest ++ more). now rewrite app_assoc. Qed.

(** The buffers written by the loop are a prefix of the planned ones, and
    all of them when the loop returns. *)
Lemma uploadLines_writes options n : forall hexLines i w,
  let r := uploadLines options n i hexLines w in
  prefixOf (writes (emitted r)) (plannedWrites hexLines)
  /\ (outcome r = Returned tt -> writes (emitted r) = plannedWrites hexLines).
Proof.
  induction hexLines as [|line rest IH]; intros i w; cbv zeta.
  - split; [now exists [] | reflexivity].
  - cbn [uploadLines plannedWrites flat_map].
    rewrite bind_emitted, bind_outcome, writes_app.
    destruct (uploadLine_writes options n i line w) as [P R]. cbv zeta in P, R.
    destruct (outcome (uploadLine options n i line w)) as [[]| |].
    + rewrite R by reflexivity.
      destruct (IH (S i) (final (uploadLine options n i line w))) as [P' R'].
      split; [now apply prefixOf_app | intros H; now rewrite R'].
    + rewrite app_nil_r. split; [now apply prefixOf_weaken | discriminate].
    + rewrite app_nil_r. split; [now apply prefixOf_weaken | discriminate].
Qed.

Lemma uploadHexData_writes hexData options w :
  let r := uploadHexData hexData options w in
  prefixOf (writes (emitted r)) (plannedWrites (hexLinesOf hexData))
  /\ (outcome r = Returned tt -> writes (emitted r) = plannedWrites (hexLinesOf hexData)).
Proof.
  cbv zeta. unfold uploadHexData. cbv zeta.
  rewrite bind_emitted, bind_outcome, writes_app, notify_writes. cbn [app].
  destruct (outcome (notify options _ w)) as [[]| |];
    [| split; [now eexists | discriminate] | split; [now eexists | discriminate]].
  apply uploadLines_writes.
Qed.

Lemma plannedWrites_app l1 l2 : plannedWrites (l1 ++ l2) = plannedWrites l1 ++ plannedWrites l2.
Proof. apply flat_map_app. Qed.

Lemma isDataRecord_type line :
  isDataRecord line = true -> recordTypeOf line = Some 0%Z.
Proof.
  unfold isDataRecord. intros H. apply andb_prop in H. destruct H as [H _].
  apply andb_prop in H. destruct H as [_ H].
  destruct (recordTypeOf line) as [t|]; [|discriminate].
  simpl in H. apply Z.eqb_eq in H. now subst.
Qed.

Lemma isDataRecord_count line :
  isDataRecord line = true -> exists c, dataLengthOf line = Some c /\ (0 < c)%Z.
Proof.
  unfold isDataRecord. intros H. apply andb_prop in H. destruct H as [_ H].
  destruct (dataLengthOf line) as [c|]; [|discriminate].
  simpl in H. apply Z.ltb_lt in H. eauto.
Qed.

(** Claim C9.  For a line whose record type is not 0 (not a number
    included), or whose byte count is 0, the loop body sends nothing --
    no load-address, no page-write command -- reads nothing, and returns
    normally (the progress callback being one that does not throw): the
    record is skipped. *)
Theorem skipped_records options n i line w :
  quietCallback options ->
  recordTypeOf line <> JS.num 0 \/ dataLengthOf line = JS.num 0 ->
  let r := uploadLine options n i line w in
  outcome r = Returned tt
  /\ writes (emitted r) = []
  /\ readTimes (emitted r) = []
  /\ inbox (final r) = inbox w.
Proof.
  intros Q H. cbv zeta.
  assert (D : isDataRecord line = false).
  { destruct (isDataRecord line) eqn:E; [|reflexivity]. exfalso.
    destruct H as [H | H].
    - apply H. now apply isDataRecord_type.
    - destruct (isDataRecord_count _ E) as (c & C1 & C2).
      rewrite H in C1. injection C1 as <-. lia. }
  rewrite uploadLine_cases, D.
  unfold bind. rewrite notify_quiet by assumption. cbn [outcome final emitted after].
  destruct (length line <? 11); cbn;
    destruct (onProgress options); repeat split.
Qed.

Example skipped_records_witness :
  (recordTypeOf (ascii_text ":00000001FF") <> JS.num 0
   \/ dataLengthOf (ascii_text ":00000001FF") = JS.num 0)
  /\ let r := uploadLine (recordingOptions []) 2 1 (ascii_text ":00000001FF")
                         (connectedWorld []) in
     outcome r = Returned tt /\ writes (emitted r) = [] /\ readTimes (emitted r) = []
     /\ inbox (final r) = inbox (connectedWorld []).
Proof.
  split; [right; reflexivity|].
  apply (@skipped_records (recordingOptions []) 2 1 (ascii_text ":00000001FF")
           (connectedWorld [])).
  - intros p. reflexivity.
  - right. reflexivity.
Defined.

(** Claim C6.  The buffers the upload of a hex text writes are, in order, a
    prefix of the commands planned line by line (all of them when the
    loop returns); the load-address command of a data line is computed
    from the four characters of its own address field and from nothing
    else; a line of type 4 (extended linear address) contributes no
    command and changes none of the commands of the lines around it.  So
    a record meant for 0x10000 goes out with the load address of
    0x0000. *)
Theorem addresses_from_record_field :
  (forall hexData options w,
      let r := uploadHexData hexData options w in
      prefixOf (writes (emitted r)) (plannedWrites (hexLinesOf hexData))
      /\ (outcome r = Returned tt ->
          writes (emitted r) = plannedWrites (hexLinesOf hexData)))
  /\ (forall line,
         isDataRecord line = true ->
         pageCommands line =
         [loadAddressCommand (JS.parseInt16 (JS.substr line 3 4));
          progPageCommand (dataOf line (dataLengthOf line))])
  /\ (forall line, recordTypeOf line = JS.num 4 -> pageCommands line = [])
  /\ (forall before extended after,
         recordTypeOf extended = JS.num 4 ->
         plannedWrites (before ++ extended :: after) = plannedWrites (before ++ after))
  /\ (let extended := ascii_text ":020000040001F9" in
      let data := ascii_text ":0400000001020304F2" in
      plannedWrites [extended; data] = plannedWrites [data]
      /\ plannedWrites [data] = [[0x55; 0; 0; 0x20]; [0x64; 0; 4; 0x46; 1; 2; 3; 4; 0x20]]%Z).
Proof.
  assert (E : forall line, recordTypeOf line = JS.num 4 -> pageCommands line = []).
  { intros line H. unfold pageCommands.
    destruct (isDataRecord line) eqn:D; [|reflexivity].
    apply isDataRecord_type in D. rewrite D in H. discriminate. }
  split; [|split; [|split; [|split]]].
  - intros. apply uploadHexData_writes.
  - intros line D. unfold pageCommands. now rewrite D.
  - exact E.
  - intros before extended after H.
    rewrite !plannedWrites_app. cbn [plannedWrites flat_map].
    now rewrite (E _ H).
  - vm_compute. split; reflexivity.
Qed.

(** ** An acknowledging transport *)

Lemma stocked_less elapsed m m' w : m' <= m -> stocked elapsed m w -> stocked elapsed m' w.
Proof. intros H (R & k & K & I). split; [exact R|]. exists k. split; [lia | exact I]. Qed.

Lemma exchange_stocked command elapsed m w :
  stocked elapsed (S m) w ->
  outcome (exchange command w) = Returned [STK_INSYNC; STK_OK]
  /\ stocked elapsed m (final (exchange command w)).
Proof.
  intros (R & k & K & I). destruct k as [|k]; [lia|]. cbn [repeat] in I.
  unfold ack in I at 1. rewrite (exchange_reply command R I). cbn [outcome final].
  split; [reflexivity|]. split; [exact R|]. exists k. split; [lia | reflexivity].
Qed.

Lemma notify_stocked options p elapsed m w :
  quietCallback options ->
  stocked elapsed m w ->
  outcome (notify options p w) = Returned tt
  /\ stocked elapsed m (final (notify options p w)).
Proof. intros Q S. rewrite notify_quiet by assumption. split; [reflexivity | exact S]. Qed.

Lemma writePage_stocked address data elapsed m w :
  stocked elapsed (2 + m) w ->
  outcome (writePage address data w) = Returned tt
  /\ stocked elapsed m (final (writePage address data w)).
Proof.
  intros S. rewrite writePage_exchanges.
  destruct (exchange_stocked (map JS.num (loadAddressCommand address)) S) as [O1 S1].
  rewrite bind_outcome, bind_final, O1.
  change (negb (inSyncOk [STK_INSYNC; STK_OK])) with false. cbv iota.
  destruct (exchange_stocked (map JS.num (progPageCommand data)) S1) as [O2 S2].
  rewrite bind_outcome, bind_final, O2.
  change (negb (inSyncOk [STK_INSYNC; STK_OK])) with false. cbv iota.
  split; [reflexivity | exact S2].
Qed.

Lemma uploadLine_stocked options n i line elapsed m w :
  quietCallback options ->
  stocked elapsed (2 + m) w ->
  outcome (uploadLine options n i line w) = Returned tt
  /\ stocked elapsed m (final (uploadLine options n i line w)).
Proof.
  intros Q S. rewrite uploadLine_cases.
  rewrite bind_outcome, bind_final.
  destruct (notify_stocked options
              (mkProgress uploading (lineProgress i n)
                          (UploadingPercent (JS.round (lineProgress i n)))) Q S) as [O1 S1].
  rewrite O1.
  destruct (isDataRecord line).
  - rewrite bind_outcome, bind_final.
    destruct (writePage_stocked (recordAddressOf line) (dataOf line (dataLengthOf line)) S1)
      as [O2 S2].
    rewrite O2. split; [reflexivity | exact S2].
  - apply stocked_less with (m' := m) in S1; [|lia].
    destruct (length line <? 11); split; solve [reflexivity | exact S1].
Qed.

Lemma uploadLines_stocked options n elapsed : forall hexLines i m w,
  quietCallback options ->
  stocked elapsed (2 * length hexLines + m) w ->
  outcome (uploadLines options n i hexLines w) = Returned tt
  /\ stocked elapsed m (final (uploadLines options n i hexLines w)).
Proof.
  induction hexLines as [|line rest IH]; intros i m w Q S.
  - split; [reflexivity | exact S].
  - cbn [uploadLines]. rewrite bind_outcome, bind_final.
    destruct (@uploadLine_stocked options n i line elapsed (2 * length rest + m) w Q)
      as [O1 S1].
    { eapply stocked_less; [|exact S]. cbn [length]. lia. }
    rewrite O1. now apply IH.
Qed.

Lemma uploadHexData_stocked hexData options elapsed m w :
  quietCallback options ->
  stocked elapsed (2 * length (hexLinesOf hexData) + m) w ->
  outcome (uploadHexData hexData options w) = Returned tt
  /\ stocked elapsed m (final (uploadHexData hexData options w)).
Proof.
  intros Q S. unfold uploadHexData. cbv zeta. rewrite bind_outcome, bind_final.
  destruct (notify_stocked options (mkProgress uploading 30 UploadingSketch) Q S) as [O1 S1].
  rewrite O1. now apply uploadLines_stocked.
Qed.

Lemma syncLoop_stocked elapsed m w :
  stocked elapsed (S m) w ->
  outcome (syncLoop (syncFuel w) 0 w) = Returned tt
  /\ writes (emitted (syncLoop (syncFuel w) 0 w)) = [syncCommand]
  /\ stocked elapsed m (final (syncLoop (syncFuel w) 0 w)).
Proof.
  intros (R & k & K & I). destruct k as [|k]; [lia|]. cbn [repeat] in I.
  destruct (@syncLoop_refusals elapsed 0 (syncFuel w) 0 w (repeat (ack elapsed) k))
    as (O & W & _ & R' & I');
    [unfold syncFuel; lia | unfold maxSyncAttempts; lia | exact R | exact I |].
  cbv zeta in *. split; [exact O|]. split; [exact W|].
  split; [exact R'|]. exists k. split; [lia | exact I'].
Qed.

Lemma enterProgrammingMode_stocked options elapsed m w :
  quietCallback options ->
  stocked elapsed (2 + m) w ->
  let r := enterProgrammingMode options w in
  outcome r = Returned tt
  /\ writes (emitted r) = [syncCommand; enterProgmodeCommand]
  /\ stocked elapsed m (final r).
Proof.
  intros Q S. cbv zeta. unfold enterProgrammingMode.
  rewrite bind_outcome, bind_final, bind_emitted, writes_app, notify_writes.
  destruct (notify_stocked options (mkProgress connecting 10 ConnectingToBootloader) Q S)
    as [O1 S1].
  rewrite O1. cbn [app].
  set (w1 := final (notify options _ w)) in *.
  rewrite bind_outcome, bind_final, bind_emitted, writes_app.
  destruct (syncLoop_stocked S1) as (O2 & W2 & S2).
  rewrite O2, W2.
  set (w2 := final (syncLoop (syncFuel w1) 0 w1)) in *.
  rewrite bind_outcome, bind_final, bind_emitted, writes_app, notify_writes.
  destruct (notify_stocked options (mkProgress syncing 20 SyncedWithBootloader) Q S2)
    as [O3 S3].
  rewrite O3. cbn [app].
  set (w3 := final (notify options _ w2)) in *.
  rewrite <- bind_assoc.
  change (sendCommand [JS.num STK_ENTER_PROGMODE; JS.num STK_CRC_EOP] ;; readResponse 2)
    with (exchange [JS.num STK_ENTER_PROGMODE; JS.num STK_CRC_EOP]).
  rewrite bind_outcome, bind_final, bind_emitted, writes_app.
  destruct (exchange_stocked [JS.num STK_ENTER_PROGMODE; JS.num STK_CRC_EOP] S3) as [O4 S4].
  rewrite O4, (exchange_returned _ _ O4).
  change (negb (inSyncOk [STK_INSYNC; STK_OK])) with false. cbv iota.
  split; [reflexivity | split; [reflexivity | exact S4]].
Qed.

Lemma delay_stocked ms elapsed m w :
  stocked elapsed m w ->
  outcome (delay ms w) = Returned tt /\ stocked elapsed m (final (delay ms w)).
Proof. intros S. split; [reflexivity | exact S]. Qed.

Lemma verifyUpload_stocked hexData options elapsed m w :
  quietCallback options ->
  stocked elapsed m w ->
  let r := verifyUpload hexData options w in
  outcome r = Returned tt /\ writes (emitted r) = [] /\ stocked elapsed m (final r).
Proof.
  intros Q S. cbv zeta. unfold verifyUpload.
  rewrite bind_outcome, bind_final, bind_emitted, writes_app, notify_writes.
  destruct (notify_stocked options (mkProgress verifying 85 VerifyingUpload) Q S) as [O1 S1].
  rewrite O1. cbn [app].
  rewrite bind_outcome, bind_final, bind_emitted, writes_app, delay_writes.
  destruct (delay_stocked 500 S1) as [O2 S2].
  rewrite O2. cbn [app]. rewrite notify_writes.
  destruct (notify_stocked options (mkProgress verifying 95 VerificationComplete) Q S2)
    as [O3 S3].
  split; [exact O3 | split; [reflexivity | exact S3]].
Qed.

Lemma leaveProgrammingMode_stocked options elapsed m w :
  stocked elapsed (S m) w ->
  let r := leaveProgrammingMode options w in
  outcome r = Returned tt
  /\ writes (emitted r) = [leaveProgmodeCommand]
  /\ stocked elapsed m (final r).
Proof.
  intros S. cbv zeta. unfold leaveProgrammingMode.
  rewrite <- bind_assoc.
  change (sendCommand [JS.num STK_LEAVE_PROGMODE; JS.num STK_CRC_EOP] ;; readResponse 2)
    with (exchange [JS.num STK_LEAVE_PROGMODE; JS.num STK_CRC_EOP]).
  rewrite bind_outcome, bind_final, bind_emitted, writes_app.
  destruct (exchange_stocked [JS.num STK_LEAVE_PROGMODE; JS.num STK_CRC_EOP] S) as [O S'].
  rewrite O, (exchange_returned _ _ O).
  change (negb (inSyncOk [STK_INSYNC; STK_OK])) with false. cbv iota.
  split; [reflexivity | split; [reflexivity | exact S']].
Qed.

(** ** The whole upload on an acknowledging transport *)

Lemma initializeConnection_free baud reads :
  let r := initializeConnection baud (set_port (Some freePort) (freshWorld reads)) in
  outcome r = Returned tt
  /\ writes (emitted r) = []
  /\ final r = mkWorld (Some freePort) (Some TheReader) (Some TheWriter) 2150 reads
                       [] [] false false.
Proof. cbv zeta. repeat split. Qed.

Lemma cleanup_writes w : writes (emitted (cleanup w)) = [].
Proof.
  apply writes_none.
  unfold cleanup.
  repeat first [ apply Emits_getReader | apply Emits_getWriter
               | apply Emits_readerCancel; exact I
               | apply Emits_writerClose; exact I
               | apply Emits_warn; intros; exact I
               | emits_step ].
Qed.

Lemma reportFailure_writes options cause w :
  writes (emitted (reportFailure options cause w)) = [].
Proof.
  apply writes_none. unfold reportFailure.
  repeat first [ apply Emits_notify; exact I | emits_step ].
Qed.

Lemma uploadSketch_writes port options w :
  outcome (uploadSketch port options w) <> Pending ->
  writes (emitted (uploadSketch port options w))
  = writes (emitted (uploadSteps options (set_port (Some port) w))).
Proof.
  rewrite uploadSketch_outcome, uploadSketch_unfold. cbv zeta.
  unfold tryFinally, tryCatch.
  set (w0 := set_port (Some port) w).
  destruct (outcome (uploadSteps options w0)) as [b|e|] eqn:E; intros H.
  - rewrite E, cleanup_settles. cbn [emitted]. now rewrite writes_app, cleanup_writes, app_nil_r.
  - cbn [outcome after final emitted].
    destruct (outcome (reportFailure options e (final (uploadSteps options w0)))) eqn:F;
      try congruence; rewrite cleanup_settles; cbn [emitted];
      now rewrite !writes_app, cleanup_writes, reportFailure_writes, !app_nil_r.
  - congruence.
Qed.

Lemma uploadSteps_stocked options elapsed w :
  quietCallback options ->
  outcome (initializeConnection (baudRate options) w) = Returned tt ->
  writes (emitted (initializeConnection (baudRate options) w)) = [] ->
  stocked elapsed (3 + 2 * length (hexLinesOf (hexData options)))
          (final (initializeConnection (baudRate options) w)) ->
  outcome (uploadSteps options w) = Returned true
  /\ writes (emitted (uploadSteps options w)) =
     [syncCommand; enterProgmodeCommand]
     ++ plannedWrites (hexLinesOf (hexData options)) ++ [leaveProgmodeCommand].
Proof.
  intros Q O0 W0 S0. unfold uploadSteps.
  set (n := length (hexLinesOf (hexData options))) in *.
  rewrite bind_outcome, bind_emitted, writes_app, O0, W0. cbn [app].
  set (w0 := final (initializeConnection (baudRate options) w)) in *.
  destruct (@enterProgrammingMode_stocked options elapsed (2 * n + 1) w0 Q) as (O1 & W1 & S1);
    [eapply stocked_less; [|exact S0]; lia|].
  rewrite bind_outcome, bind_emitted, writes_app, O1, W1.
  set (w1 := final (enterProgrammingMode options w0)) in *.
  destruct (@uploadHexData_stocked (hexData options) options elapsed 1 w1 Q S1) as (O2 & S2).
  fold n in S1.
  rewrite bind_outcome, bind_emitted, writes_app, O2.
  destruct (uploadHexData_writes (hexData options) options w1) as [_ W2].
  rewrite (W2 O2).
  set (w2 := final (uploadHexData (hexData options) options w1)) in *.
  destruct (@verifyUpload_stocked (hexData options) options elapsed 1 w2 Q S2)
    as (O3 & W3 & S3).
  rewrite bind_outcome, bind_emitted, writes_app, O3, W3. cbn [app].
  set (w3 := final (verifyUpload (hexData options) options w2)) in *.
  destruct (@leaveProgrammingMode_stocked options elapsed 0 w3 S3) as (O4 & W4 & S4).
  rewrite bind_outcome, bind_emitted, writes_app, O4, W4.
  set (w4 := final (leaveProgrammingMode options w3)) in *.
  rewrite bind_outcome, bind_emitted, writes_app, notify_writes.
  rewrite notify_quiet by assumption. cbn [outcome final emitted ret app writes flat_map].
  split; reflexivity.
Qed.

Lemma dataOf_length line count : length (dataOf line count) = JS.iterations count.
Proof. unfold dataOf. now rewrite length_map, length_seq. Qed.

(** *** The commands of one line, case by case *)

Lemma substr_within (body rest : JS.text) start len :
  start + len <= length body ->
  JS.substr (body ++ rest) start len = JS.substr body start len.
Proof.
  intros H. unfold JS.substr.
  rewrite skipn_app, firstn_app, length_skipn.
  replace (len - (length body - start)) with 0 by lia.
  cbn [firstn]. apply app_nil_r.
Qed.

Lemma substr_beyond (line : JS.text) start len :
  length line <= start -> JS.substr line start len = [].
Proof.
  intros H. unfold JS.substr. rewrite skipn_all2 by lia. now destruct len.
Qed.

Lemma pageCommands_short line : length line < 11 -> pageCommands line = [].
Proof.
  intros H. unfold pageCommands, isDataRecord.
  replace (11 <=? length line) with false by (symmetry; apply Nat.leb_gt; lia).
  reflexivity.
Qed.

Lemma pageCommands_other line :
  recordTypeOf line <> JS.num 0
  \/ (forall count, dataLengthOf line = JS.num count -> (count <= 0)%Z) ->
  pageCommands line = [].
Proof.
  intros H. unfold pageCommands. destruct (isDataRecord line) eqn:D; [|reflexivity].
  exfalso. destruct H as [H | H].
  - apply H. now apply isDataRecord_type.
  - destruct (isDataRecord_count _ D) as (c & C1 & C2). specialize (H _ C1). lia.
Qed.

Lemma pageCommands_data line count :
  11 <= length line ->
  recordTypeOf line = JS.num 0 ->
  dataLengthOf line = JS.num count ->
  (0 < count)%Z ->
  pageCommands line =
  [loadAddressCommand (recordAddressOf line);
   ([0x64; highByte count; lowByte count; 0x46]
    ++ map (fun j => JS.toUint8 (JS.parseInt16 (JS.substr line (9 + j * 2) 2)))
           (seq 0 (Z.to_nat count))
    ++ [0x20])%Z].
Proof.
  intros L T C P. unfold pageCommands, isDataRecord. rewrite T, C.
  replace (11 <=? length line) with true by (symmetry; apply Nat.leb_le; lia).
  cbn [JS.strictEq JS.gt JS.num andb]. rewrite Z.eqb_refl.
  replace (0 <? count)%Z with true by (symmetry; apply Z.ltb_lt; lia).
  cbn [andb]. unfold progPageCommand, dataOf.
  rewrite length_map, length_seq, map_map.
  change (JS.iterations (JS.num count)) with (Z.to_nat count).
  rewrite Z2Nat.id by lia. reflexivity.
Qed.

Lemma missing_byte line j :
  length line <= 9 + j * 2 ->
  JS.toUint8 (JS.parseInt16 (JS.substr line (9 + j * 2) 2)) = 0%Z.
Proof. intros H. now rewrite substr_beyond. Qed.

Lemma parseInt16_invalid c rest :
  JS.hexDigit c = None -> JS.isWhiteSpace c = false ->
  c <> "+"%char -> c <> "-"%char ->
  JS.parseInt16 (c :: rest) = JS.NaN.
Proof.
  intros D S P M. unfold JS.parseInt16. cbn [JS.trimStart]. rewrite S.
  assert (Z0 : c <> "0"%char) by (intros ->; discriminate D).
  destruct (Ascii.eqb_spec c "-") as [->|_]; [congruence|].
  destruct (Ascii.eqb_spec c "+") as [->|_]; [congruence|].
  destruct (Ascii.eqb_spec c "0") as [->|_]; [congruence|].
  destruct c as [[] [] [] [] [] [] [] []]; try congruence;
    cbn [JS.hexPrefix]; rewrite D; reflexivity.
Qed.

Lemma pageCommands_tail line tail :
  9 + 2 * JS.iterations (dataLengthOf line) <= length line ->
  pageCommands (line ++ tail) = pageCommands line.
Proof.
  intros H.
  assert (L : dataLengthOf (line ++ tail) = dataLengthOf line)
    by (unfold dataLengthOf; now rewrite substr_within by lia).
  assert (T : recordTypeOf (line ++ tail) = recordTypeOf line)
    by (unfold recordTypeOf; now rewrite substr_within by lia).
  assert (A : recordAddressOf (line ++ tail) = recordAddressOf line)
    by (unfold recordAddressOf; now rewrite substr_within by lia).
  assert (D : dataOf (line ++ tail) (dataLengthOf line) = dataOf line (dataLengthOf line)).
  { unfold dataOf. apply map_ext_in. intros j Hj. apply in_seq in Hj.
    rewrite substr_within; [reflexivity | lia]. }
  unfold pageCommands, isDataRecord. rewrite L, T, A, D, length_app.
  destruct (JS.gt (dataLengthOf line) (JS.num 0)) eqn:G.
  - destruct (dataLengthOf line) as [count|]; [|discriminate].
    cbn [JS.gt JS.num] in G. apply Z.ltb_lt in G. cbn [JS.iterations] in H.
    assert (1 <= Z.to_nat count) by lia.
    replace (11 <=? length line + length tail) with true by (symmetry; apply Nat.leb_le; lia).
    replace (11 <=? length line) with true by (symmetry; apply Nat.leb_le; lia).
    reflexivity.
  - now rewrite !andb_false_r.
Qed.

(** The upload of any hex text on a transport that acknowledges. *)
Lemma uploadSketch_acknowledged (hexData : JS.text) (elapsed : Z) :
  let n := length (hexLinesOf hexData) in
  let r := uploadSketch freePort (recordingOptions hexData)
                        (freshWorld (repeat (ack elapsed) (3 + 2 * n))) in
  outcome r = Returned true
  /\ writes (emitted r) =
     [syncCommand; enterProgmodeCommand]
     ++ plannedWrites (hexLinesOf hexData) ++ [leaveProgmodeCommand].
Proof.
  cbv zeta.
  set (options := recordingOptions hexData).
  set (n := length (hexLinesOf hexData)).
  set (w := freshWorld (repeat (ack elapsed) (3 + 2 * n))).
  assert (Q : quietCallback options) by (intros p; reflexivity).
  destruct (initializeConnection_free (baudRate options) (repeat (ack elapsed) (3 + 2 * n)))
    as (O0 & W0 & F0).
  fold w in O0, W0, F0.
  assert (S0 : stocked elapsed (3 + 2 * n)
                 (final (initializeConnection (baudRate options) (set_port (Some freePort) w)))).
  { rewrite F0. split; [repeat split|]. exists (3 + 2 * n). split; [lia | reflexivity]. }
  destruct (@uploadSteps_stocked options elapsed (set_port (Some freePort) w) Q)
    as [O W]; try assumption.
  assert (O' : outcome (uploadSketch freePort options w) = Returned true).
  { rewrite uploadSketch_outcome. cbv zeta. now rewrite O. }
  split; [exact O'|].
  rewrite uploadSketch_writes by (rewrite O'; discriminate). exact W.
Qed.

(** Claim C3, as amended.  No hex text is rejected: on a transport that
    acknowledges every command the upload of any text succeeds, whatever
    its lines hold, and what it writes is the sync and enter commands, the
    commands of its kept lines one after the other, and the leave command.
    The commands of one line are these.  A line of fewer than 11
    characters has none: it is skipped.  A line whose type field does not
    decode to 0, or whose count field does not decode to a positive
    number, has none either.  A line of at least 11 characters whose type
    decodes to 0 and whose count decodes to [count > 0] has two: the load
    address of its address field and a page of exactly [count] bytes,
    byte [j] being [parseInt] of the two characters at offset [9 + 2j]
    converted to a byte.  Such a pair is sent as 0 when the line ends
    before it, and when its first character is neither a hexadecimal
    digit nor something [parseInt] skips (white space, a sign); and
    whatever follows the [count] announced bytes changes nothing. *)
Theorem malformed_records_are_uploaded (hexData : JS.text) (elapsed : Z) :
  let n := length (hexLinesOf hexData) in
  let r := uploadSketch freePort (recordingOptions hexData)
                        (freshWorld (repeat (ack elapsed) (3 + 2 * n))) in
  outcome r = Returned true
  /\ writes (emitted r) =
     [syncCommand; enterProgmodeCommand]
     ++ flat_map pageCommands (hexLinesOf hexData) ++ [leaveProgmodeCommand]
  /\ (forall line, length line < 11 -> pageCommands line = [])
  /\ (forall line,
        recordTypeOf line <> JS.num 0
        \/ (forall count, dataLengthOf line = JS.num count -> (count <= 0)%Z) ->
        pageCommands line = [])
  /\ (forall line count,
        11 <= length line ->
        recordTypeOf line = JS.num 0 ->
        dataLengthOf line = JS.num count ->
        (0 < count)%Z ->
        pageCommands line =
        [loadAddressCommand (recordAddressOf line);
         ([0x64; highByte count; lowByte count; 0x46]
          ++ map (fun j => JS.toUint8 (JS.parseInt16 (JS.substr line (9 + j * 2) 2)))
                 (seq 0 (Z.to_nat count))
          ++ [0x20])%Z])
  /\ (forall line j,
        length line <= 9 + j * 2 ->
        JS.toUint8 (JS.parseInt16 (JS.substr line (9 + j * 2) 2)) = 0%Z)
  /\ (forall c rest,
        JS.hexDigit c = None -> JS.isWhiteSpace c = false ->
        c <> "+"%char -> c <> "-"%char ->
        JS.toUint8 (JS.parseInt16 (c :: rest)) = 0%Z)
  /\ (forall line tail,
        9 + 2 * JS.iterations (dataLengthOf line) <= length line ->
        pageCommands (line ++ tail) = pageCommands line).
Proof.
  cbv zeta.
  destruct (uploadSketch_acknowledged hexData elapsed) as [O W]. cbv zeta in O, W.
  split; [exact O|]. split; [exact W|].
  split; [exact pageCommands_short|].
  split; [exact pageCommands_other|].
  split; [exact pageCommands_data|].
  split; [exact missing_byte|].
  split; [|exact pageCommands_tail].
  intros c rest D S P M. now rewrite parseInt16_invalid.
Qed.

(** The same at a text of four lines: a byte that is no hexadecimal
    number, a record that announces four bytes and carries one, a line of
    ten characters and the end-of-file record. *)
Example malformed_records_are_uploaded_witness :
  let hexData :=
    textOfLines [":01000000ZZ00"; ":0400000001F2"; ":01000000A"; ":00000001FF"]%string in
  let n := length (hexLinesOf hexData) in
  let r := uploadSketch freePort (recordingOptions hexData)
                        (freshWorld (repeat (ack 1) (3 + 2 * n))) in
  outcome r = Returned true
  /\ writes (emitted r)
     = [[0x30; 0x20]; [0x50; 0x20];
        [0x55; 0; 0; 0x20]; [0x64; 0; 1; 0x46; 0; 0x20];
        [0x55; 0; 0; 0x20]; [0x64; 0; 4; 0x46; 1; 0xF2; 0; 0; 0x20];
        [0x51; 0x20]]%Z
  /\ pageCommands (ascii_text ":01000000A") = []
  /\ pageCommands (ascii_text ":00000001FF") = []
  /\ pageCommands (ascii_text ":0400000001F2")
     = [[0x55; 0; 0; 0x20]; [0x64; 0; 4; 0x46; 1; 0xF2; 0; 0; 0x20]]%Z
  /\ JS.toUint8 (JS.parseInt16 (JS.substr (ascii_text ":0400000001F2") (9 + 2 * 2) 2)) = 0%Z
  /\ JS.toUint8 (JS.parseInt16 (ascii_text "ZZ")) = 0%Z
  /\ pageCommands (ascii_text ":0400000001020304" ++ ascii_text "F2 anything")
     = pageCommands (ascii_text ":0400000001020304").
Proof.
  cbv zeta.
  destruct (@malformed_records_are_uploaded
              (textOfLines [":01000000ZZ00"; ":0400000001F2"; ":01000000A"; ":00000001FF"]%string)
              1%Z)
    as (O & W & Short & Other & Data & Missing & Invalid & Tail).
  split; [exact O|].
  split; [rewrite W; vm_compute; reflexivity|].
  split; [apply Short; vm_compute; lia|].
  split; [apply Other; right; intros count H; vm_compute in H; injection H as <-; lia|].
  split; [rewrite (Data (ascii_text ":0400000001F2") 4%Z);
          [vm_compute; reflexivity | vm_compute; lia | reflexivity | reflexivity | lia]|].
  split; [apply Missing; vm_compute; lia|].
  split; [apply Invalid; [reflexivity | reflexivity | discriminate | discriminate]|].
  apply Tail. vm_compute. lia.
Defined.

(** Claim C3 as stated fails: the first line holds characters that are no
    hexadecimal digits and the second announces four bytes and carries
    one; the upload succeeds and the pages of both are written. *)
Lemma malformed_records_not_rejected :
  let hexData := textOfLines [":01000000ZZ00"; ":0400000001F2"; ":00000001FF"]%string in
  let w := freshWorld (repeat (ack 1) 7) in
  ~ rejectsRecord hexData [0x64; 0; 1; 0x46; 0; 0x20]%Z w
  /\ ~ rejectsRecord hexData [0x64; 0; 4; 0x46; 1; 0xF2; 0; 0; 0x20]%Z w.
Proof.
  cbv zeta. split; intros [H _]; vm_compute in H; discriminate.
Qed.

Example malformed_records_upload :
  let hexData := textOfLines [":01000000ZZ00"; ":0400000001F2"; ":00000001FF"]%string in
  let r := uploadSketch freePort (recordingOptions hexData)
                        (freshWorld (repeat (ack 1) 7)) in
  outcome r = Returned true
  /\ writes (emitted r)
     = [[0x30; 0x20]; [0x50; 0x20];
        [0x55; 0; 0; 0x20]; [0x64; 0; 1; 0x46; 0; 0x20];
        [0x55; 0; 0; 0x20]; [0x64; 0; 4; 0x46; 1; 0xF2; 0; 0; 0x20];
        [0x51; 0x20]]%Z.
Proof. vm_compute. split; reflexivity. Qed.

(** ** The checksum characters *)

Section ChecksumVariant.
Variable body : JS.text.
Hypothesis body_length : length body = 9 + payloadChars body.

Lemma variant_dataLength sum : dataLengthOf (body ++ sum) = dataLengthOf body.
Proof. unfold dataLengthOf. now rewrite substr_within by lia. Qed.

Lemma variant_recordType sum : recordTypeOf (body ++ sum) = recordTypeOf body.
Proof. unfold recordTypeOf. now rewrite substr_within by lia. Qed.

Lemma variant_recordAddress sum : recordAddressOf (body ++ sum) = recordAddressOf body.
Proof. unfold recordAddressOf. now rewrite substr_within by lia. Qed.

Lemma variant_data sum :
  dataOf (body ++ sum) (dataLengthOf (body ++ sum)) = dataOf body (dataLengthOf body).
Proof.
  rewrite variant_dataLength. unfold dataOf.
  apply map_ext_in. intros j Hj. apply in_seq in Hj.
  rewrite substr_within; [reflexivity|].
  unfold payloadChars in body_length. lia.
Qed.

Lemma variant_marker sum :
  JS.startsWith (body ++ sum) [":"%char] = JS.startsWith body [":"%char].
Proof.
  destruct body as [|c b]; [simpl in body_length; lia|]. reflexivity.
Qed.

End ChecksumVariant.

Lemma trimStart_keeps l c :
  JS.isWhiteSpace c = false -> JS.trimStart (l ++ [c]) <> [].
Proof.
  intros H. induction l as [|a l IH]; cbn [app JS.trimStart].
  - rewrite H. discriminate.
  - destruct (JS.isWhiteSpace a); [exact IH | discriminate].
Qed.

(** A line that starts with the record marker is not blank: the first
    half of the filter of [uploadHexData] follows from the second. *)
Lemma marker_truthy line :
  JS.startsWith line [":"%char] = true -> JS.truthy (JS.trim line) = true.
Proof.
  destruct line as [|c rest]; [discriminate|]. cbn [JS.startsWith].
  rewrite andb_true_r. intros H. apply Ascii.eqb_eq in H. subst c.
  unfold JS.trim. cbn [JS.trimStart].
  change (JS.isWhiteSpace ":") with false. cbv iota. cbn [rev].
  pose proof (@trimStart_keeps (rev rest) ":"%char eq_refl) as N.
  destruct (JS.trimStart (rev rest ++ [":"%char])) as [|x xs]; [congruence|].
  cbn [rev]. destruct (rev xs); reflexivity.
Qed.

Lemma keptLine_startsWith line : keptLine line = JS.startsWith line [":"%char].
Proof.
  unfold keptLine. destruct (JS.startsWith line [":"%char]) eqn:E.
  - now rewrite marker_truthy.
  - apply andb_false_r.
Qed.

Lemma keptLine_marker line : keptLine line = JS.startsWith line [":"%char].
Proof. apply keptLine_startsWith. Qed.

Lemma checksumVariant_kept l1 l2 :
  checksumVariant l1 l2 -> keptLine l1 = keptLine l2.
Proof.
  intros [line | body sum1 sum2 tail B S1 S2]; [reflexivity|].
  rewrite !keptLine_startsWith. now rewrite !variant_marker.
Qed.

Lemma hexLines_variant lines1 lines2 :
  Forall2 checksumVariant lines1 lines2 ->
  Forall2 checksumVariant (filter keptLine lines1) (filter keptLine lines2).
Proof.
  induction 1 as [|l1 l2 r1 r2 H _ IH]; [constructor|].
  cbn [filter]. rewrite (checksumVariant_kept H).
  destruct (keptLine l2); [now constructor | exact IH].
Qed.

Lemma notify_callback o1 o2 p w :
  onProgress o1 = onProgress o2 -> notify o1 p w = notify o2 p w.
Proof. intros H. unfold notify. now rewrite H. Qed.

Lemma uploadLine_variant o1 o2 n i l1 l2 w :
  onProgress o1 = onProgress o2 ->
  checksumVariant l1 l2 ->
  uploadLine o1 n i l1 w = uploadLine o2 n i l2 w.
Proof.
  intros C [line | body sum1 sum2 tail B S1 S2]; unfold uploadLine; cbv zeta.
  - apply bind_cong; [now apply notify_callback | reflexivity].
  - apply bind_cong; [now apply notify_callback | intros _ w'].
    rewrite !length_app, S1, S2.
    rewrite !variant_recordType, !variant_recordAddress, !variant_data by assumption.
    rewrite !variant_dataLength by assumption.
    reflexivity.
Qed.

Lemma uploadLines_variant o1 o2 n lines1 lines2 :
  onProgress o1 = onProgress o2 ->
  Forall2 checksumVariant lines1 lines2 ->
  forall i w, uploadLines o1 n i lines1 w = uploadLines o2 n i lines2 w.
Proof.
  intros C. induction 1 as [|l1 l2 r1 r2 H _ IH]; intros i w; [reflexivity|].
  cbn [uploadLines]. apply bind_cong; [now apply uploadLine_variant | intros _ w'; apply IH].
Qed.

Lemma uploadHexData_variant o1 o2 hex1 hex2 w :
  onProgress o1 = onProgress o2 ->
  Forall2 checksumVariant (JS.split LF hex1) (JS.split LF hex2) ->
  uploadHexData hex1 o1 w = uploadHexData hex2 o2 w.
Proof.
  intros C H. unfold uploadHexData. cbv zeta.
  apply hexLines_variant in H.
  change (Forall2 checksumVariant (hexLinesOf hex1) (hexLinesOf hex2)) in H.
  apply bind_cong; [now apply notify_callback | intros _ w'].
  rewrite (Forall2_length H). now apply uploadLines_variant.
Qed.

Lemma enterProgrammingMode_callback o1 o2 w :
  onProgress o1 = onProgress o2 ->
  enterProgrammingMode o1 w = enterProgrammingMode o2 w.
Proof.
  intros C. unfold enterProgrammingMode.
  apply bind_cong; [now apply notify_callback | intros _ w1].
  apply bind_cong; [reflexivity | intros _ w2].
  apply bind_cong; [now apply notify_callback | reflexivity].
Qed.

Lemma verifyUpload_callback o1 o2 hex1 hex2 w :
  onProgress o1 = onProgress o2 ->
  verifyUpload hex1 o1 w = verifyUpload hex2 o2 w.
Proof.
  intros C. unfold verifyUpload.
  apply bind_cong; [now apply notify_callback | intros _ w1].
  apply bind_cong; [reflexivity | intros _ w2]. now apply notify_callback.
Qed.

Lemma tryCatch_cong {A} (b1 b2 : M A) h1 h2 w :
  b1 w = b2 w -> (forall e w', h1 e w' = h2 e w') -> tryCatch b1 h1 w = tryCatch b2 h2 w.
Proof.
  intros Hb Hh. unfold tryCatch. rewrite Hb.
  destruct (outcome (b2 w)); auto. now rewrite Hh.
Qed.

Lemma tryFinally_cong {A} (b1 b2 : M A) f w :
  b1 w = b2 w -> tryFinally b1 f w = tryFinally b2 f w.
Proof. intros Hb. unfold tryFinally. now rewrite Hb. Qed.

(** Claim C8.  The checksum is never read.  When the lines of two hex
    texts are pairwise equal, or differ only in the two characters that
    follow the payload announced by the byte count, the two uploads are
    the same run on every port, transport and callback: the same buffers
    written, the same snapshots reported, in the same order, and the same
    result. *)
Theorem checksum_never_read port board baud callback hex1 hex2 w :
  Forall2 checksumVariant (JS.split LF hex1) (JS.split LF hex2) ->
  uploadSketch port (mkOptions board baud hex1 callback) w
  = uploadSketch port (mkOptions board baud hex2 callback) w.
Proof.
  intros H. rewrite !uploadSketch_unfold.
  set (o1 := mkOptions board baud hex1 callback).
  set (o2 := mkOptions board baud hex2 callback).
  assert (C : onProgress o1 = onProgress o2) by reflexivity.
  apply tryFinally_cong. apply tryCatch_cong.
  - unfold uploadSteps.
    apply bind_cong; [reflexivity | intros _ w1].
    apply bind_cong; [now apply enterProgrammingMode_callback | intros _ w2].
    apply bind_cong; [now apply uploadHexData_variant | intros _ w3].
    apply bind_cong; [now apply verifyUpload_callback | intros _ w4].
    apply bind_cong; [reflexivity | intros _ w5].
    apply bind_cong; [now apply notify_callback | reflexivity].
  - intros e w'. unfold reportFailure.
    apply bind_cong; [now apply notify_callback | reflexivity].
Qed.

Example checksum_never_read_witness :
  let hex1 := textOfLines [":0400000001020304F2"; ":00000001FF"]%string in
  let hex2 := textOfLines [":040000000102030400"; ":0000000100"]%string in
  let w := freshWorld (repeat (ack 1) 5) in
  Forall2 checksumVariant (JS.split LF hex1) (JS.split LF hex2)
  /\ uploadSketch freePort (recordingOptions hex1) w
     = uploadSketch freePort (recordingOptions hex2) w.
Proof.
  cbv zeta.
  assert (H : Forall2 checksumVariant
                (JS.split LF (textOfLines [":0400000001020304F2"; ":00000001FF"]%string))
                (JS.split LF (textOfLines [":040000000102030400"; ":0000000100"]%string))).
  { cbv [textOfLines flat_map ascii_text list_ascii_of_string app LF JS.split Ascii.eqb Bool.eqb].
    constructor; [|constructor; [|constructor; [apply cv_same | constructor]]].
    - apply (cv_record (ascii_text ":0400000001020304") (ascii_text "F2") (ascii_text "00") []);
        reflexivity.
    - apply (cv_record (ascii_text ":00000001") (ascii_text "FF") (ascii_text "00") []);
        reflexivity. }
  split; [exact H|].
  apply (@checksum_never_read freePort (ascii_text "uno") 115200 (Some (fun _ => false))
           _ _ _ H).
Defined.

(** ** Progress *)

Lemma inverse_nonneg n : (0 <= / inject_Z (Z.of_nat n))%Q.
Proof. apply Qinv_le_0_compat. rewrite <- (Zle_Qle 0). lia. Qed.

Lemma lineProgress_step i j n : i <= j -> (lineProgress i n <= lineProgress j n)%Q.
Proof.
  intros H. unfold lineProgress, Qdiv.
  apply Qplus_le_r. apply Qmult_le_compat_r; [|discriminate].
  apply Qmult_le_compat_r; [|apply inverse_nonneg].
  rewrite <- Zle_Qle. lia.
Qed.

Lemma lineProgress_low i n : (30 <= lineProgress i n)%Q.
Proof.
  unfold lineProgress, Qdiv.
  rewrite <- (Qplus_0_r 30) at 1.
  apply Qplus_le_r. apply Qmult_le_0_compat; [|discriminate].
  apply Qmult_le_0_compat; [|apply inverse_nonneg].
  rewrite <- (Zle_Qle 0). lia.
Qed.

Lemma lineProgress_high i n : i <= n -> (lineProgress i n <= 80)%Q.
Proof.
  intros H. unfold lineProgress.
  apply Qle_trans with (30 + 1 * 50)%Q; [|discriminate].
  apply Qplus_le_r. apply Qmult_le_compat_r; [|discriminate].
  destruct n as [|n].
  - replace i with 0 by lia. discriminate.
  - apply Qle_shift_div_r.
    + rewrite <- (Zlt_Qlt 0). lia.
    + rewrite Qmult_1_l, <- Zle_Qle. lia.
Qed.

Lemma Rising_weaken {A} lo hi lo' hi' (m : M A) :
  (lo' <= lo)%Q -> (hi <= hi')%Q -> Rising lo hi m -> Rising lo' hi' m.
Proof.
  intros L H R w. destruct (R w) as [S F]. split; [exact S|].
  eapply Forall_impl; [|exact F]. intros q [Q1 Q2].
  split; eapply Qle_trans; eauto.
Qed.

Lemma Rising_quiet {A} lo hi (m : M A) : Emits notProgress m -> Rising lo hi m.
Proof.
  intros E w. unfold percents. rewrite (snapshots_none (E w)).
  split; constructor.
Qed.

Lemma Rising_notify options p lo hi :
  (lo <= progress p)%Q -> (progress p <= hi)%Q -> Rising lo hi (notify options p).
Proof.
  intros L H w. unfold notify.
  destruct (onProgress options) as [callback|]; [|split; constructor].
  unfold bind, emit, ret, throw. cbn [outcome emitted after final].
  destruct (callback p); cbn; (split; [repeat constructor | repeat constructor; assumption]).
Qed.

Lemma sorted_app l1 l2 mid :
  StronglySorted Qle l1 -> StronglySorted Qle l2 ->
  Forall (fun q => (q <= mid)%Q) l1 -> Forall (fun q => (mid <= q)%Q) l2 ->
  StronglySorted Qle (l1 ++ l2).
Proof.
  intros S1 S2 F1 F2. induction S1 as [|a l1 S1 IH Ha]; [exact S2|].
  cbn [app]. inversion F1 as [|? ? Fa F1']; subst.
  constructor; [now apply IH|].
  apply Forall_app. split; [exact Ha|].
  eapply Forall_impl; [|exact F2]. intros q Hq. eapply Qle_trans; eauto.
Qed.

Lemma Rising_bind {A B} lo mid hi (m : M A) (k : A -> M B) :
  (lo <= mid)%Q -> (mid <= hi)%Q ->
  Rising lo mid m -> (forall a, Rising mid hi (k a)) -> Rising lo hi (bind m k).
Proof.
  intros L H Rm Rk w. rewrite bind_emitted, percents_app.
  destruct (Rm w) as [Sm Fm].
  assert (K : StronglySorted Qle
                (percents match outcome (m w) with
                          | Returned a => emitted (k a (final (m w)))
                          | _ => []
                          end)
              /\ Forall (fun q => (mid <= q)%Q /\ (q <= hi)%Q)
                   (percents match outcome (m w) with
                             | Returned a => emitted (k a (final (m w)))
                             | _ => []
                             end)).
  { destruct (outcome (m w)); [apply Rk | split; constructor | split; constructor]. }
  destruct K as [Sk Fk]. split.
  - apply sorted_app with mid; auto.
    + eapply Forall_impl; [|exact Fm]. intros q Hq; apply Hq.
    + eapply Forall_impl; [|exact Fk]. intros q Hq; apply Hq.
  - apply Forall_app. split.
    + eapply Forall_impl; [|exact Fm]. intros q [Q1 Q2].
      split; [exact Q1 | eapply Qle_trans; eauto].
    + eapply Forall_impl; [|exact Fk]. intros q [Q1 Q2].
      split; [eapply Qle_trans; eauto | exact Q2].
Qed.

Lemma Emits_syncPhase P :
  (forall b, P (EvWrite b)) -> (forall t, P (EvRead t)) -> (forall ms, P (EvDelay ms)) ->
  Emits P (fun w => syncLoop (syncFuel w) 0 w).
Proof. intros Hw Hr Hd w. now apply Emits_syncLoop. Qed.

Lemma Rising_enterProgrammingMode options :
  Rising 10 20 (enterProgrammingMode options).
Proof.
  unfold enterProgrammingMode.
  apply Rising_bind with (mid := 10%Q); try discriminate.
  { apply Rising_notify; discriminate. }
  intros _. apply Rising_bind with (mid := 10%Q); try discriminate.
  { apply Rising_quiet, Emits_syncPhase; intros; exact I. }
  intros _. apply Rising_bind with (mid := 20%Q); try discriminate.
  { apply Rising_notify; discriminate. }
  intros _. apply Rising_quiet.
  repeat first [ apply Emits_sendCommand; intros; exact I
               | apply Emits_readResponse; intros; exact I
               | emits_step ].
Qed.

Lemma Rising_uploadLine options n i line :
  Rising (lineProgress i n) (lineProgress i n) (uploadLine options n i line).
Proof.
  unfold uploadLine. cbv zeta.
  apply Rising_bind with (mid := lineProgress i n); try apply Qle_refl.
  { apply Rising_notify; apply Qle_refl. }
  intros _. apply Rising_quiet.
  repeat first [ apply Emits_writePage; intros; exact I
               | apply Emits_delay; intros; exact I
               | emits_step ].
Qed.

Lemma Rising_uploadLines options n : forall hexLines i,
  i + length hexLines <= n ->
  Rising (lineProgress i n) 80 (uploadLines options n i hexLines).
Proof.
  induction hexLines as [|line rest IH]; intros i H; cbn [uploadLines].
  - apply Rising_quiet, Emits_ret.
  - cbn [length] in H.
    apply Rising_bind with (mid := lineProgress (S i) n).
    + apply lineProgress_step. lia.
    + apply lineProgress_high. lia.
    + eapply Rising_weaken; [apply Qle_refl | | apply Rising_uploadLine].
      apply lineProgress_step. lia.
    + intros _. apply IH. lia.
Qed.

Lemma Rising_uploadHexData hexData options :
  Rising 30 80 (uploadHexData hexData options).
Proof.
  unfold uploadHexData. cbv zeta.
  apply Rising_bind with (mid := 30%Q); try discriminate.
  { apply Rising_notify; discriminate. }
  intros _. eapply Rising_weaken; [| apply Qle_refl | apply Rising_uploadLines; simpl; lia].
  apply lineProgress_low.
Qed.

Lemma Rising_verifyUpload hexData options :
  Rising 85 95 (verifyUpload hexData options).
Proof.
  unfold verifyUpload.
  apply Rising_bind with (mid := 85%Q); try discriminate.
  { apply Rising_notify; discriminate. }
  intros _. apply Rising_bind with (mid := 85%Q); try discriminate.
  { apply Rising_quiet, Emits_delay. intros; exact I. }
  intros _. apply Rising_notify; discriminate.
Qed.

(** The percentages reported by the [try] block never decrease, whatever
    its outcome. *)
Lemma Rising_uploadSteps options : Rising 10 100 (uploadSteps options).
Proof.
  unfold uploadSteps.
  apply Rising_bind with (mid := 10%Q); try discriminate.
  { apply Rising_quiet, Emits_initializeConnection; intros; exact I. }
  intros _. apply Rising_bind with (mid := 20%Q); try discriminate.
  { apply Rising_enterProgrammingMode. }
  intros _. apply Rising_bind with (mid := 80%Q); try discriminate.
  { eapply Rising_weaken; [| apply Qle_refl | apply Rising_uploadHexData]. discriminate. }
  intros _. apply Rising_bind with (mid := 95%Q); try discriminate.
  { eapply Rising_weaken; [| apply Qle_refl | apply Rising_verifyUpload]. discriminate. }
  intros _. apply Rising_bind with (mid := 95%Q); try discriminate.
  { apply Rising_quiet, Emits_leaveProgrammingMode; intros; exact I. }
  intros _. apply Rising_bind with (mid := 100%Q); try discriminate.
  { apply Rising_notify; discriminate. }
  intros _. apply Rising_quiet, Emits_ret.
Qed.

Lemma bind_returned_inv {A B} (m : M A) (k : A -> M B) w b :
  outcome (bind m k w) = Returned b ->
  exists a,
    outcome (m w) = Returned a
    /\ outcome (k a (final (m w))) = Returned b
    /\ emitted (bind m k w) = emitted (m w) ++ emitted (k a (final (m w))).
Proof.
  rewrite bind_outcome, bind_emitted.
  destruct (outcome (m w)) as [a| |]; try discriminate.
  intros H. exists a. auto.
Qed.

Lemma uploadSteps_completion options w b :
  outcome (uploadSteps options w) = Returned b ->
  b = true /\
  exists evs,
    emitted (uploadSteps options w) =
    evs ++ match onProgress options with
           | Some _ => [EvProgress completion]
           | None => []
           end.
Proof.
  unfold uploadSteps. intros H.
  apply bind_returned_inv in H. destruct H as (a1 & _ & H & ->).
  apply bind_returned_inv in H. destruct H as (a2 & _ & H & ->).
  apply bind_returned_inv in H. destruct H as (a3 & _ & H & ->).
  apply bind_returned_inv in H. destruct H as (a4 & _ & H & ->).
  apply bind_returned_inv in H. destruct H as (a5 & _ & H & ->).
  apply bind_returned_inv in H. destruct H as (a6 & N & H & ->).
  injection H as <-. split; [reflexivity|].
  cbn [emitted ret]. rewrite app_nil_r. rewrite !app_assoc.
  eexists. f_equal.
  unfold notify in *. destruct (onProgress options) as [callback|]; [|reflexivity].
  unfold bind, emit, ret, throw in *. cbn [outcome emitted after final] in *.
  fold completion in *. destruct (callback completion); [discriminate | reflexivity].
Qed.

Lemma cleanup_quiet : Emits notProgress cleanup.
Proof.
  unfold cleanup.
  repeat first [ apply Emits_getReader | apply Emits_getWriter
               | apply Emits_readerCancel; exact I
               | apply Emits_writerClose; exact I
               | apply Emits_warn; intros; exact I
               | emits_step ].
Qed.

Lemma uploadSketch_success port options w :
  outcome (uploadSketch port options w) = Returned true ->
  let w0 := set_port (Some port) w in
  outcome (uploadSteps options w0) = Returned true
  /\ emitted (uploadSketch port options w)
     = emitted (uploadSteps options w0) ++ emitted (cleanup (final (uploadSteps options w0))).
Proof.
  rewrite uploadSketch_outcome, uploadSketch_unfold. cbv zeta.
  unfold tryFinally, tryCatch.
  set (w0 := set_port (Some port) w).
  destruct (outcome (uploadSteps options w0)) as [b|e|] eqn:E; intros H.
  - rewrite E, cleanup_settles. cbn [emitted]. split; [congruence | reflexivity].
  - destruct (reportFailure_outcome options e (final (uploadSteps options w0))) as [F | F];
      rewrite F in H; discriminate.
  - discriminate.
Qed.

Lemma last_app_singleton {A} (l : list A) x d : last (l ++ [x]) d = x.
Proof. induction l as [|a [|b l] IH]; auto. Qed.

(** Claim C5.  In every upload that ends in success the percentages handed
    to the progress callback never decrease, and the last one is 100. *)
Theorem progress_rises port options w :
  outcome (uploadSketch port options w) = Returned true ->
  let reported := percents (emitted (uploadSketch port options w)) in
  StronglySorted Qle reported
  /\ (onProgress options <> None -> last reported 0%Q = 100%Q).
Proof.
  intros H. cbv zeta.
  destruct (uploadSketch_success _ _ _ H) as [S E]. cbv zeta in S, E.
  rewrite E, percents_app.
  replace (percents (emitted (cleanup _))) with (@nil Q)
    by (unfold percents; now rewrite (snapshots_none (cleanup_quiet _))).
  rewrite app_nil_r. split.
  - apply Rising_uploadSteps.
  - intros C. destruct (uploadSteps_completion _ _ S) as [_ [evs ->]].
    destruct (onProgress options); [|congruence].
    rewrite percents_app. apply last_app_singleton.
Qed.

(** The same at a hex text with three data records of 16, 16 and 8
    bytes. *)
Example progress_rises_witness :
  let hexData :=
    textOfLines [":10000000000102030405060708090A0B0C0D0E0F78";
                 ":10001000101112131415161718191A1B1C1D1E1F68";
                 ":0800200020212223242526275C";
                 ":00000001FF"]%string in
  let r := uploadSketch freePort (recordingOptions hexData) (freshWorld (repeat (ack 1) 9)) in
  outcome r = Returned true
  /\ StronglySorted Qle (percents (emitted r))
  /\ (onProgress (recordingOptions hexData) <> None -> last (percents (emitted r)) 0%Q = 100%Q).
Proof.
  cbv zeta. split; [vm_compute; reflexivity|].
  apply (@progress_rises freePort
           (recordingOptions
              (textOfLines [":10000000000102030405060708090A0B0C0D0E0F78";
                            ":10001000101112131415161718191A1B1C1D1E1F68";
                            ":0800200020212223242526275C";
                            ":00000001FF"]%string))
           (freshWorld (repeat (ack 1) 9))).
  vm_compute. reflexivity.
Defined.

(** The percentages of that upload, and the three pages it writes. *)
Example three_records_upload :
  let hexData :=
    textOfLines [":10000000000102030405060708090A0B0C0D0E0F78";
                 ":10001000101112131415161718191A1B1C1D1E1F68";
                 ":0800200020212223242526275C";
                 ":00000001FF"]%string in
  let r := uploadSketch freePort (recordingOptions hexData) (freshWorld (repeat (ack 1) 9)) in
  map Qred (percents (emitted r))
  = [10; 20; 30; 30; 85 # 2; 55; 135 # 2; 85; 95; 100]%Q
  /\ map (fun buffer => (hd 0%Z buffer, Z.of_nat (length buffer))) (writes (emitted r))
     = [(0x30, 2); (0x50, 2); (0x55, 4); (0x64, 21); (0x55, 4); (0x64, 21);
        (0x55, 4); (0x64, 13); (0x51, 2)]%Z.
Proof. vm_compute. split; reflexivity. Qed.

(** ** [uploadSketch]: the [try], the [catch] and the [finally] *)

Lemma Settles_writePage address data : Settles (writePage address data).
Proof.
  unfold writePage.
  repeat first [ apply Settles_sendCommand | apply Settles_readResponse | settles_step ].
Qed.

Lemma Settles_uploadLine options n i line : Settles (uploadLine options n i line).
Proof.
  unfold uploadLine.
  repeat first [ apply Settles_notify | apply Settles_writePage | apply Settles_delay
               | settles_step ].
Qed.

Lemma Settles_uploadLines options n hexLines :
  forall i, Settles (uploadLines options n i hexLines).
Proof.
  induction hexLines as [|line rest IH]; intros i; cbn [uploadLines].
  - apply Settles_ret.
  - apply Settles_bind; [apply Settles_uploadLine | intros _; apply IH].
Qed.

Lemma Settles_uploadSteps options : Settles (uploadSteps options).
Proof.
  unfold uploadSteps, initializeConnection, resetArduino, enterProgrammingMode,
    uploadHexData, verifyUpload, leaveProgrammingMode.
  repeat first [ apply Settles_getPort | apply Settles_setSignals | apply Settles_delay
               | apply Settles_warn | apply Settles_notify | apply Settles_sync
               | apply Settles_sendCommand | apply Settles_readResponse
               | apply Settles_uploadLines | settles_step ].
Qed.

Lemma Settles_cleanup : Settles cleanup.
Proof.
  unfold cleanup.
  repeat first [ apply Settles_getReader | apply Settles_getWriter
               | apply Settles_readerCancel | apply Settles_writerClose
               | apply Settles_warn | settles_step ].
Qed.

Lemma Settles_uploadSketch port options : Settles (uploadSketch port options).
Proof.
  unfold uploadSketch, reportFailure.
  repeat first [ apply Settles_uploadSteps | apply Settles_cleanup | apply Settles_notify
               | settles_step ].
Qed.

Lemma noErrorStage_none evs :
  Forall notErrorProgress evs -> filter isErrorStage (snapshots evs) = [].
Proof.
  induction 1 as [|ev evs H _ IH]; [reflexivity|].
  destruct ev; cbn [snapshots flat_map app] in *; try exact IH.
  cbn [filter]. simpl in H. rewrite H. exact IH.
Qed.

Lemma uploadSteps_stages options w :
  filter isErrorStage (snapshots (emitted (uploadSteps options w))) = [].
Proof.
  apply noErrorStage_none, Emits_uploadSteps; try (intros; exact I).
  intros p H. exact H.
Qed.

Lemma cleanup_snapshots w : snapshots (emitted (cleanup w)) = [].
Proof. apply snapshots_none, cleanup_quiet. Qed.

Lemma reportFailure_quiet options cause w :
  quietCallback options ->
  reportFailure options cause w =
  mkRun (Returned false) w
        match onProgress options with
        | Some _ => [EvProgress (mkProgress error 0 (UploadFailed cause))]
        | None => []
        end.
Proof.
  intros Q. unfold reportFailure, bind. rewrite notify_quiet by assumption.
  cbn [outcome final emitted]. unfold after, ret. cbn [outcome final emitted].
  now rewrite app_nil_r.
Qed.

(** The run of [uploadSketch] when its [try] block throws. *)
Lemma uploadSketch_failed port options w cause :
  quietCallback options ->
  let w0 := set_port (Some port) w in
  outcome (uploadSteps options w0) = Thrown cause ->
  outcome (uploadSketch port options w) = Returned false
  /\ emitted (uploadSketch port options w)
     = emitted (uploadSteps options w0)
       ++ match onProgress options with
          | Some _ => [EvProgress (mkProgress error 0 (UploadFailed cause))]
          | None => []
          end
       ++ emitted (cleanup (final (uploadSteps options w0))).
Proof.
  intros Q w0 E. rewrite uploadSketch_outcome, uploadSketch_unfold. fold w0. cbv zeta.
  rewrite E. unfold tryFinally, tryCatch. rewrite E.
  rewrite reportFailure_quiet by assumption.
  cbn [outcome final emitted after]. rewrite cleanup_settles. cbn [emitted].
  split; [reflexivity | now rewrite app_assoc].
Qed.

(** Claim C10.  With a progress callback that does not throw (or none),
    [uploadSketch] never throws: it returns [true] exactly when its [try]
    block ran to the end and [false] exactly when the block threw.  On a
    failure the callback receives one snapshot of stage [error]; its
    percentage is 0 and it is the last snapshot of the run, whatever the
    percentages reported before.  A successful run reports no snapshot of
    stage [error].  The call is pending exactly when its [try] block is:
    the [catch] and the [finally] wait for nothing that does not
    settle. *)
Theorem uploadSketch_reports_failure port options w :
  quietCallback options ->
  let r := uploadSketch port options w in
  let steps := uploadSteps options (set_port (Some port) w) in
  (forall e, outcome r <> Thrown e)
  /\ (outcome r = Returned true <-> outcome steps = Returned true)
  /\ (outcome r = Returned false <-> exists cause, outcome steps = Thrown cause)
  /\ (forall cause,
        outcome steps = Thrown cause ->
        let failure := mkProgress error 0 (UploadFailed cause) in
        filter isErrorStage (snapshots (emitted r))
        = match onProgress options with Some _ => [failure] | None => [] end
        /\ (onProgress options <> None ->
            last (snapshots (emitted r)) completion = failure))
  /\ (outcome r = Returned true -> filter isErrorStage (snapshots (emitted r)) = [])
  /\ (outcome r = Pending <-> outcome steps = Pending).
Proof.
  intros Q. cbv zeta.
  set (w0 := set_port (Some port) w).
  assert (O : outcome (uploadSketch port options w) =
              match outcome (uploadSteps options w0) with
              | Thrown _ => Returned false
              | o => o
              end).
  { rewrite uploadSketch_outcome. fold w0. cbv zeta.
    destruct (outcome (uploadSteps options w0)); try reflexivity.
    now rewrite reportFailure_quiet. }
  split; [|split; [|split; [|split; [|split]]]].
  - intros e. rewrite O. destruct (outcome (uploadSteps options w0)); discriminate.
  - rewrite O. destruct (outcome (uploadSteps options w0)) as [[]| |]; split; congruence.
  - rewrite O. destruct (outcome (uploadSteps options w0)) as [b|e|] eqn:E.
    + destruct (uploadSteps_completion _ _ E) as [-> _].
      split; [discriminate | intros [c C]; discriminate].
    + split; eauto.
    + split; [discriminate | intros [c C]; discriminate].
  - intros cause E. cbv zeta.
    destruct (@uploadSketch_failed port options w cause Q E) as [_ ->].
    rewrite !snapshots_app, cleanup_snapshots, app_nil_r.
    rewrite filter_app, uploadSteps_stages.
    destruct (onProgress options) as [callback|] eqn:C.
    + cbn [snapshots flat_map app]. split; [reflexivity|].
      intros _. apply last_app_singleton.
    + split; [reflexivity | congruence].
  - intros H. destruct (uploadSketch_success _ _ _ H) as [_ ->].
    rewrite snapshots_app, cleanup_snapshots, app_nil_r. apply uploadSteps_stages.
  - rewrite O. destruct (outcome (uploadSteps options w0)); split; congruence.
Qed.

(** The same on a port whose read stream is closed: the sync fails after
    the snapshot at 10 and the run ends with the snapshot at 0. *)
Example uploadSketch_reports_failure_witness :
  let options := recordingOptions [] in
  let r := uploadSketch freePort options (freshWorld []) in
  quietCallback options
  /\ outcome r = Returned false
  /\ filter isErrorStage (snapshots (emitted r))
     = [mkProgress error 0 (UploadFailed FailedToSync)]
  /\ map progress (snapshots (emitted r)) = [10; 0]%Q.
Proof.
  cbv zeta.
  assert (Q : quietCallback (recordingOptions [])) by (intros p; reflexivity).
  assert (E : outcome (uploadSteps (recordingOptions []) (set_port (Some freePort) (freshWorld [])))
              = Thrown FailedToSync) by (vm_compute; reflexivity).
  destruct (@uploadSketch_reports_failure freePort (recordingOptions []) (freshWorld []) Q)
    as (_ & _ & F & S & _).
  split; [exact Q|]. split; [apply F; eauto|]. split.
  - apply (S FailedToSync E).
  - vm_compute. reflexivity.
Defined.

(* ================================================================== *)
(** ** [writePage] and a device that refuses *)
(* ================================================================== *)

(** One exchange on a ready uploader whose next read is a chunk that holds
    the whole reply. *)
Lemma exchange_chunk command w elapsed reply rest :
  ready w ->
  inbox w = Chunk elapsed reply :: rest ->
  2 <= length reply ->
  exchange command w =
  mkRun (Returned (firstn 2 reply)) (tick elapsed (set_inbox rest w))
        [EvWrite (map JS.toUint8 command); EvRead (clock w)].
Proof.
  intros (Hr & Hw & Hf) Hi Hl.
  unfold exchange, sendCommand, readResponse, getWriter, getReader, writerWrite,
    bind, ret, emit; cbn [outcome final emitted after].
  rewrite Hw; cbn [outcome final emitted after]. rewrite Hf; cbn [outcome final emitted after].
  rewrite Hr; cbn [outcome final emitted after]. rewrite Hi. cbn [readLoop length].
  replace (clock w <? clock w + 5000)%Z with true by (symmetry; apply Z.ltb_lt; lia).
  cbn [Nat.ltb Nat.leb andb]. rewrite pushBytes_fill by (simpl; lia).
  cbn [app length Nat.sub].
  rewrite readLoop_full by (rewrite length_firstn; lia).
  reflexivity.
Qed.

Lemma inSyncOk_firstn reply : inSyncOk (firstn 2 reply) = inSyncOk reply.
Proof. destruct reply as [|b0 [|b1 rest]]; reflexivity. Qed.

Lemma ready_read elapsed rest w : ready w -> ready (tick elapsed (set_inbox rest w)).
Proof. intros H. exact H. Qed.

(** [writePage] when each reply arrives whole. *)
Lemma writePage_refused address data w elapsed reply rest :
  ready w ->
  inbox w = Chunk elapsed reply :: rest ->
  2 <= length reply ->
  inSyncOk reply = false ->
  writePage address data w =
  mkRun (Thrown (FailedToSetAddress address)) (tick elapsed (set_inbox rest w))
        [EvWrite (loadAddressCommand address); EvRead (clock w)].
Proof.
  intros R I L Bad. rewrite writePage_exchanges.
  unfold bind. rewrite (exchange_chunk _ R I L). cbn [outcome final emitted after].
  rewrite inSyncOk_firstn, Bad, wire_load. reflexivity.
Qed.

Lemma writePage_replied address data w elapsed1 reply1 elapsed2 reply2 rest :
  ready w ->
  inbox w = Chunk elapsed1 reply1 :: Chunk elapsed2 reply2 :: rest ->
  2 <= length reply1 -> 2 <= length reply2 ->
  inSyncOk reply1 = true ->
  writePage address data w =
  mkRun (if inSyncOk reply2 then Returned tt else Thrown (FailedToWritePage address))
        (tick elapsed2 (set_inbox rest (tick elapsed1 (set_inbox (Chunk elapsed2 reply2 :: rest) w))))
        [EvWrite (loadAddressCommand address); EvRead (clock w);
         EvWrite (progPageCommand data); EvRead (clock w + elapsed1)%Z].
Proof.
  intros R I L1 L2 Ok. rewrite writePage_exchanges.
  unfold bind. rewrite (exchange_chunk _ R I L1). cbn [outcome final emitted after].
  rewrite inSyncOk_firstn, Ok. cbn [negb].
  set (w1 := tick elapsed1 (set_inbox (Chunk elapsed2 reply2 :: rest) w)).
  assert (R1 : ready w1) by exact R.
  assert (I1 : inbox w1 = Chunk elapsed2 reply2 :: rest) by reflexivity.
  rewrite (exchange_chunk _ R1 I1 L2). cbn [outcome final emitted after].
  rewrite inSyncOk_firstn, wire_load, wire_prog.
  destruct (inSyncOk reply2); reflexivity.
Qed.

(** *** Acknowledgements, then something else *)

Lemma exchange_supplied command elapsed m tail w :
  supplied elapsed (S m) tail w ->
  outcome (exchange command w) = Returned [STK_INSYNC; STK_OK]
  /\ writes (emitted (exchange command w)) = [map JS.toUint8 command]
  /\ supplied elapsed m tail (final (exchange command w)).
Proof.
  intros (R & I). cbn [repeat app] in I. unfold ack in I at 1.
  rewrite (exchange_reply command R I). cbn [outcome final emitted].
  repeat split; apply R.
Qed.

Lemma notify_supplied options p elapsed m tail w :
  quietCallback options ->
  supplied elapsed m tail w ->
  outcome (notify options p w) = Returned tt
  /\ supplied elapsed m tail (final (notify options p w)).
Proof. intros Q S. rewrite notify_quiet by assumption. split; [reflexivity | exact S]. Qed.

Lemma writePage_supplied address data elapsed m tail w :
  supplied elapsed (2 + m) tail w ->
  outcome (writePage address data w) = Returned tt
  /\ writes (emitted (writePage address data w))
     = [loadAddressCommand address; progPageCommand data]
  /\ supplied elapsed m tail (final (writePage address data w)).
Proof.
  intros S. rewrite writePage_exchanges.
  destruct (exchange_supplied (map JS.num (loadAddressCommand address)) S) as (O1 & W1 & S1).
  rewrite bind_outcome, bind_final, bind_emitted, writes_app, O1, W1.
  change (negb (inSyncOk [STK_INSYNC; STK_OK])) with false. cbv iota.
  destruct (exchange_supplied (map JS.num (progPageCommand data)) S1) as (O2 & W2 & S2).
  rewrite bind_outcome, bind_final, bind_emitted, writes_app, O2, W2.
  change (negb (inSyncOk [STK_INSYNC; STK_OK])) with false. cbv iota.
  rewrite wire_load, wire_prog.
  split; [reflexivity | split; [reflexivity | exact S2]].
Qed.

Lemma uploadLine_supplied options n i line elapsed m tail w :
  quietCallback options ->
  supplied elapsed (length (pageCommands line) + m) tail w ->
  outcome (uploadLine options n i line w) = Returned tt
  /\ writes (emitted (uploadLine options n i line w)) = pageCommands line
  /\ supplied elapsed m tail (final (uploadLine options n i line w)).
Proof.
  intros Q S. rewrite uploadLine_cases. unfold pageCommands in *.
  rewrite bind_outcome, bind_final, bind_emitted, writes_app, notify_writes.
  destruct (notify_supplied options
              (mkProgress uploading (lineProgress i n)
                          (UploadingPercent (JS.round (lineProgress i n)))) Q S) as [O1 S1].
  rewrite O1. cbn [app].
  destruct (isDataRecord line).
  - rewrite bind_outcome, bind_final, bind_emitted, writes_app.
    destruct (writePage_supplied (recordAddressOf line) (dataOf line (dataLengthOf line)) S1)
      as (O2 & W2 & S2).
    rewrite O2, W2. split; [reflexivity | split; [reflexivity | exact S2]].
  - destruct (length line <? 11); repeat split; apply S1.
Qed.

Lemma uploadLines_supplied options n elapsed tail : forall hexLines i m w,
  quietCallback options ->
  supplied elapsed (length (plannedWrites hexLines) + m) tail w ->
  outcome (uploadLines options n i hexLines w) = Returned tt
  /\ writes (emitted (uploadLines options n i hexLines w)) = plannedWrites hexLines
  /\ supplied elapsed m tail (final (uploadLines options n i hexLines w)).
Proof.
  induction hexLines as [|line rest IH]; intros i m w Q Sup.
  - repeat split; apply Sup.
  - cbn [uploadLines plannedWrites flat_map] in *.
    rewrite bind_outcome, bind_final, bind_emitted, writes_app.
    rewrite length_app, <- Nat.add_assoc in Sup.
    destruct (@uploadLine_supplied options n i line elapsed
                (length (flat_map pageCommands rest) + m) tail w Q Sup) as (O1 & W1 & S1).
    rewrite O1, W1.
    destruct (IH (S i) m _ Q S1) as (O2 & W2 & S2).
    rewrite O2, W2. repeat split; apply S2.
Qed.

Lemma syncLoop_supplied elapsed m tail w :
  supplied elapsed (S m) tail w ->
  outcome (syncLoop (syncFuel w) 0 w) = Returned tt
  /\ writes (emitted (syncLoop (syncFuel w) 0 w)) = [syncCommand]
  /\ supplied elapsed m tail (final (syncLoop (syncFuel w) 0 w)).
Proof.
  intros (R & I). cbn [repeat app] in I.
  destruct (@syncLoop_refusals elapsed 0 (syncFuel w) 0 w (repeat (ack elapsed) m ++ tail))
    as (O & W & _ & R' & I');
    [unfold syncFuel; lia | unfold maxSyncAttempts; lia | exact R | exact I |].
  cbv zeta in *. split; [exact O|]. split; [exact W|]. split; [exact R' | exact I'].
Qed.

Lemma enterProgrammingMode_supplied options elapsed m tail w :
  quietCallback options ->
  supplied elapsed (2 + m) tail w ->
  let r := enterProgrammingMode options w in
  outcome r = Returned tt
  /\ writes (emitted r) = [syncCommand; enterProgmodeCommand]
  /\ supplied elapsed m tail (final r).
Proof.
  intros Q S. cbv zeta. unfold enterProgrammingMode.
  rewrite bind_outcome, bind_final, bind_emitted, writes_app, notify_writes.
  destruct (notify_supplied options (mkProgress connecting 10 ConnectingToBootloader) Q S)
    as [O1 S1].
  rewrite O1. cbn [app].
  set (w1 := final (notify options _ w)) in *.
  rewrite bind_outcome, bind_final, bind_emitted, writes_app.
  destruct (syncLoop_supplied S1) as (O2 & W2 & S2).
  rewrite O2, W2.
  set (w2 := final (syncLoop (syncFuel w1) 0 w1)) in *.
  rewrite bind_outcome, bind_final, bind_emitted, writes_app, notify_writes.
  destruct (notify_supplied options (mkProgress syncing 20 SyncedWithBootloader) Q S2)
    as [O3 S3].
  rewrite O3. cbn [app].
  set (w3 := final (notify options _ w2)) in *.
  rewrite <- bind_assoc.
  change (sendCommand [JS.num STK_ENTER_PROGMODE; JS.num STK_CRC_EOP] ;; readResponse 2)
    with (exchange [JS.num STK_ENTER_PROGMODE; JS.num STK_CRC_EOP]).
  rewrite bind_outcome, bind_final, bind_emitted, writes_app.
  destruct (exchange_supplied [JS.num STK_ENTER_PROGMODE; JS.num STK_CRC_EOP] S3)
    as (O4 & W4 & S4).
  rewrite O4, W4.
  change (negb (inSyncOk [STK_INSYNC; STK_OK])) with false. cbv iota.
  split; [reflexivity | split; [reflexivity | exact S4]].
Qed.

(** The loop over the lines when the page of one line is refused: the
    lines before it are written, the refused line as far as it got, and
    nothing of the lines after it. *)
Lemma uploadLines_refused options n elapsed tail cause sent line rest :
  quietCallback options ->
  isDataRecord line = true ->
  (forall w, supplied elapsed 0 tail w ->
     outcome (writePage (recordAddressOf line) (dataOf line (dataLengthOf line)) w)
     = Thrown cause
     /\ writes (emitted (writePage (recordAddressOf line) (dataOf line (dataLengthOf line)) w))
        = sent) ->
  forall before i w,
    supplied elapsed (length (plannedWrites before)) tail w ->
    outcome (uploadLines options n i (before ++ line :: rest) w) = Thrown cause
    /\ writes (emitted (uploadLines options n i (before ++ line :: rest) w))
       = plannedWrites before ++ sent.
Proof.
  intros Q D P. induction before as [|first before IH]; intros i w Sup.
  - cbn [app uploadLines plannedWrites flat_map].
    rewrite bind_outcome, bind_emitted, writes_app.
    rewrite uploadLine_cases, D.
    rewrite bind_outcome, bind_emitted, writes_app, notify_writes.
    destruct (notify_supplied options
                (mkProgress uploading (lineProgress i n)
                            (UploadingPercent (JS.round (lineProgress i n)))) Q Sup) as [O1 S1].
    rewrite O1. cbn [app].
    rewrite bind_outcome, bind_emitted, writes_app.
    destruct (P _ S1) as [O2 W2]. rewrite O2, W2.
    rewrite !app_nil_r. split; reflexivity.
  - cbn [app uploadLines plannedWrites flat_map] in *.
    rewrite bind_outcome, bind_emitted, writes_app.
    rewrite length_app in Sup.
    destruct (@uploadLine_supplied options n i first elapsed
                (length (flat_map pageCommands before) + 0) tail w Q) as (O1 & W1 & S1).
    { now rewrite Nat.add_0_r. }
    rewrite Nat.add_0_r in S1.
    rewrite O1, W1.
    destruct (IH (S i) _ S1) as [O2 W2].
    rewrite O2, W2. now rewrite app_assoc.
Qed.

Lemma uploadSketch_refused options elapsed tail cause sent before line rest :
  quietCallback options ->
  hexLinesOf (hexData options) = before ++ line :: rest ->
  isDataRecord line = true ->
  (forall w, supplied elapsed 0 tail w ->
     outcome (writePage (recordAddressOf line) (dataOf line (dataLengthOf line)) w)
     = Thrown cause
     /\ writes (emitted (writePage (recordAddressOf line) (dataOf line (dataLengthOf line)) w))
        = sent) ->
  let reads := repeat (ack elapsed) (2 + length (plannedWrites before)) ++ tail in
  let r := uploadSketch freePort options (freshWorld reads) in
  outcome r = Returned false
  /\ writes (emitted r)
     = [syncCommand; enterProgmodeCommand] ++ plannedWrites before ++ sent
  /\ filter isErrorStage (snapshots (emitted r))
     = match onProgress options with
       | Some _ => [mkProgress error 0 (UploadFailed cause)]
       | None => []
       end.
Proof.
  intros Q H D P. cbv zeta.
  set (reads := repeat (ack elapsed) (2 + length (plannedWrites before)) ++ tail).
  set (w := freshWorld reads).
  set (w0 := set_port (Some freePort) w).
  destruct (initializeConnection_free (baudRate options) reads) as (O0 & W0 & F0).
  fold w w0 in O0, W0, F0.
  assert (S0 : supplied elapsed (2 + length (plannedWrites before)) tail
                 (final (initializeConnection (baudRate options) w0))).
  { rewrite F0. split; [repeat split | reflexivity]. }
  assert (E : outcome (uploadSteps options w0) = Thrown cause
              /\ writes (emitted (uploadSteps options w0))
                 = [syncCommand; enterProgmodeCommand] ++ plannedWrites before ++ sent).
  { unfold uploadSteps.
    rewrite bind_outcome, bind_emitted, writes_app, O0, W0. cbn [app].
    set (w1 := final (initializeConnection (baudRate options) w0)) in *.
    destruct (@enterProgrammingMode_supplied options elapsed _ tail w1 Q S0) as (O1 & W1 & S1).
    rewrite bind_outcome, bind_emitted, writes_app, O1, W1.
    set (w2 := final (enterProgrammingMode options w1)) in *.
    rewrite bind_outcome, bind_emitted, writes_app.
    unfold uploadHexData. cbv zeta. rewrite H.
    rewrite bind_outcome, bind_final, bind_emitted, writes_app, notify_writes.
    destruct (notify_supplied options (mkProgress uploading 30 UploadingSketch) Q S1)
      as [O2 S2].
    rewrite O2. cbn [app].
    destruct (@uploadLines_refused options (length (before ++ line :: rest)) elapsed tail
                cause sent line rest Q D P before 0 _ S2) as [O3 W3].
    rewrite O3, W3. rewrite !app_nil_r. split; reflexivity. }
  destruct E as [E W].
  destruct (@uploadSketch_failed freePort options w cause Q E) as [O ->].
  fold w0. split; [exact O|]. split.
  - rewrite !writes_app, cleanup_writes, app_nil_r, W.
    destruct (onProgress options); cbn [writes flat_map]; now rewrite app_nil_r.
  - rewrite !snapshots_app, cleanup_snapshots, app_nil_r, filter_app, uploadSteps_stages.
    destruct (onProgress options); reflexivity.
Qed.

(** Claim C4.  In every world a call [writePage(address, data)] writes at
    most two buffers, in this order and each at most once: the
    load-address command (0x55, low byte of the address, high byte, 0x20)
    and then the program-page command (0x64, the payload length on two
    bytes high byte first, 0x46, the payload, 0x20); a call that returns
    has written both.  On an uploader that holds its handles, with replies
    that arrive whole: a reply to the load address that is not in-sync/OK
    makes the call throw after that one write, the page is not sent and
    the next reply is left unread; after an in-sync/OK reply the page is
    written, once, and the call returns or throws according to the second
    reply.  The same holds, in every world, of whatever response the two
    exchanges return.  And the upload stops there: when the device has
    acknowledged everything up to a data record and refuses its load
    address or its page, [uploadSketch] returns [false], reports the
    failure, and has written the commands of the records before it and of
    this one as far as the refusal -- nothing is sent again and nothing of
    the records after it, not even the command that leaves programming
    mode. *)
Theorem writePage_protocol (address : JS.number) (data : list JS.number) :
  let load := loadAddressCommand address in
  let prog := progPageCommand data in
  (forall w,
      let r := writePage address data w in
      prefixOf (writes (emitted r)) [load; prog]
      /\ (outcome r = Returned tt -> writes (emitted r) = [load; prog]))
  /\ (forall w elapsed reply rest,
        ready w ->
        inbox w = Chunk elapsed reply :: rest ->
        2 <= length reply ->
        inSyncOk reply = false ->
        writePage address data w
        = mkRun (Thrown (FailedToSetAddress address)) (tick elapsed (set_inbox rest w))
                [EvWrite load; EvRead (clock w)])
  /\ (forall w elapsed1 reply1 elapsed2 reply2 rest,
        ready w ->
        inbox w = Chunk elapsed1 reply1 :: Chunk elapsed2 reply2 :: rest ->
        2 <= length reply1 -> 2 <= length reply2 ->
        inSyncOk reply1 = true ->
        let r := writePage address data w in
        outcome r = (if inSyncOk reply2 then Returned tt
                     else Thrown (FailedToWritePage address))
        /\ emitted r = [EvWrite load; EvRead (clock w);
                        EvWrite prog; EvRead (clock w + elapsed1)%Z]
        /\ inbox (final r) = rest)
  /\ (forall w response,
        outcome (exchange (map JS.num load) w) = Returned response ->
        inSyncOk response = false ->
        outcome (writePage address data w) = Thrown (FailedToSetAddress address)
        /\ writes (emitted (writePage address data w)) = [load])
  /\ (forall w response1 response2,
        outcome (exchange (map JS.num load) w) = Returned response1 ->
        inSyncOk response1 = true ->
        outcome (exchange (map JS.num prog) (final (exchange (map JS.num load) w)))
        = Returned response2 ->
        inSyncOk response2 = false ->
        outcome (writePage address data w) = Thrown (FailedToWritePage address)
        /\ writes (emitted (writePage address data w)) = [load; prog])
  /\ (forall options before line rest elapsed elapsed1 reply1 more,
        quietCallback options ->
        hexLinesOf (hexData options) = before ++ line :: rest ->
        isDataRecord line = true ->
        recordAddressOf line = address ->
        dataOf line (dataLengthOf line) = data ->
        2 <= length reply1 ->
        inSyncOk reply1 = false ->
        let reads := repeat (ack elapsed) (2 + length (plannedWrites before))
                     ++ Chunk elapsed1 reply1 :: more in
        let r := uploadSketch freePort options (freshWorld reads) in
        outcome r = Returned false
        /\ writes (emitted r)
           = [syncCommand; enterProgmodeCommand] ++ plannedWrites before ++ [load]
        /\ filter isErrorStage (snapshots (emitted r))
           = match onProgress options with
             | Some _ => [mkProgress error 0 (UploadFailed (FailedToSetAddress address))]
             | None => []
             end)
  /\ (forall options before line rest elapsed elapsed1 reply1 elapsed2 reply2 more,
        quietCallback options ->
        hexLinesOf (hexData options) = before ++ line :: rest ->
        isDataRecord line = true ->
        recordAddressOf line = address ->
        dataOf line (dataLengthOf line) = data ->
        2 <= length reply1 -> 2 <= length reply2 ->
        inSyncOk reply1 = true ->
        inSyncOk reply2 = false ->
        let reads := repeat (ack elapsed) (2 + length (plannedWrites before))
                     ++ Chunk elapsed1 reply1 :: Chunk elapsed2 reply2 :: more in
        let r := uploadSketch freePort options (freshWorld reads) in
        outcome r = Returned false
        /\ writes (emitted r)
           = [syncCommand; enterProgmodeCommand] ++ plannedWrites before ++ [load; prog]
        /\ filter isErrorStage (snapshots (emitted r))
           = match onProgress options with
             | Some _ => [mkProgress error 0 (UploadFailed (FailedToWritePage address))]
             | None => []
             end).
Proof.
  cbv zeta.
  split; [intros w; apply writePage_writes|].
  split; [intros w elapsed reply rest R I L Bad; exact (writePage_refused address data R I L Bad)|].
  split.
  { intros w elapsed1 reply1 elapsed2 reply2 rest R I L1 L2 Ok.
    rewrite (writePage_replied address data R I L1 L2 Ok). repeat split. }
  split.
  { intros w response E Bad.
    pose proof (writePage_shape address data w) as S. cbv zeta in S.
    rewrite E, Bad in S. exact S. }
  split.
  { intros w response1 response2 E1 Ok1 E2 Bad.
    pose proof (writePage_shape address data w) as S. cbv zeta in S.
    rewrite E1, Ok1, E2, Bad in S. destruct S; split; assumption. }
  split.
  - intros options before line rest elapsed elapsed1 reply1 more Q H D <- <- L Bad.
    apply (@uploadSketch_refused options elapsed (Chunk elapsed1 reply1 :: more)
             (FailedToSetAddress (recordAddressOf line))
             [loadAddressCommand (recordAddressOf line)] before line rest Q H D).
    intros w [R I]. cbn [repeat app] in I.
    rewrite (writePage_refused _ _ R I L Bad). split; reflexivity.
  - intros options before line rest elapsed elapsed1 reply1 elapsed2 reply2 more
           Q H D <- <- L1 L2 Ok Bad.
    apply (@uploadSketch_refused options elapsed
             (Chunk elapsed1 reply1 :: Chunk elapsed2 reply2 :: more)
             (FailedToWritePage (recordAddressOf line))
             [loadAddressCommand (recordAddressOf line);
              progPageCommand (dataOf line (dataLengthOf line))] before line rest Q H D).
    intros w [R I]. cbn [repeat app] in I.
    rewrite (writePage_replied _ _ R I L1 L2 Ok), Bad. split; reflexivity.
Qed.

(** The same for the record [:0212340001020B]: two bytes for address
    0x1234.  The device refuses the load address, or accepts it and
    refuses the page, in a file whose first record it has accepted. *)
Example writePage_protocol_witness :
  let address := JS.num 0x1234 in
  let data := [JS.num 1; JS.num 2] in
  let load := [0x55; 0x34; 0x12; 0x20]%Z in
  let prog := [0x64; 0; 2; 0x46; 1; 2; 0x20]%Z in
  let hexData := textOfLines [":0100000007F8"; ":0212340001020B"; ":00000001FF"]%string in
  let first := [[0x55; 0; 0; 0x20]; [0x64; 0; 1; 0x46; 7; 0x20]]%Z in
  writePage address data (connectedWorld [refusal; ack 1])
  = mkRun (Thrown (FailedToSetAddress address))
          (connectedWorld [ack 1]) [EvWrite load; EvRead 0]
  /\ (let r := writePage address data (connectedWorld [ack 1; refusal]) in
      outcome r = Thrown (FailedToWritePage address)
      /\ emitted r = [EvWrite load; EvRead 0; EvWrite prog; EvRead 1]
      /\ inbox (final r) = [])
  /\ (let r := uploadSketch freePort (recordingOptions hexData)
                            (freshWorld (repeat (ack 1) 4 ++ [refusal; ack 1; ack 1])) in
      outcome r = Returned false
      /\ writes (emitted r) = [syncCommand; enterProgmodeCommand] ++ first ++ [load]
      /\ filter isErrorStage (snapshots (emitted r))
         = [mkProgress error 0 (UploadFailed (FailedToSetAddress address))])
  /\ (let r := uploadSketch freePort (recordingOptions hexData)
                            (freshWorld (repeat (ack 1) 4 ++ [ack 1; refusal; ack 1])) in
      outcome r = Returned false
      /\ writes (emitted r) = [syncCommand; enterProgmodeCommand] ++ first ++ [load; prog]
      /\ filter isErrorStage (snapshots (emitted r))
         = [mkProgress error 0 (UploadFailed (FailedToWritePage address))]).
Proof.
  cbv zeta.
  destruct (@writePage_protocol (JS.num 0x1234) [JS.num 1; JS.num 2])
    as (_ & Load & Page & _ & _ & AbortLoad & AbortPage).
  assert (Q : quietCallback
                (recordingOptions
                   (textOfLines [":0100000007F8"; ":0212340001020B"; ":00000001FF"]%string)))
    by (intros p; reflexivity).
  split; [|split; [|split]].
  - apply (Load (connectedWorld [refusal; ack 1]) 0%Z [STK_INSYNC; STK_FAILED] [ack 1]);
      [repeat split | reflexivity | simpl; lia | reflexivity].
  - apply (Page (connectedWorld [ack 1; refusal]) 1%Z [STK_INSYNC; STK_OK]
                0%Z [STK_INSYNC; STK_FAILED] []);
      [repeat split | reflexivity | simpl; lia | simpl; lia | reflexivity].
  - apply (AbortLoad _ [ascii_text ":0100000007F8"] (ascii_text ":0212340001020B")
                     [ascii_text ":00000001FF"] 1%Z 0%Z [STK_INSYNC; STK_FAILED]
                     [ack 1; ack 1] Q);
      [reflexivity | reflexivity | reflexivity | reflexivity | simpl; lia | reflexivity].
  - apply (AbortPage _ [ascii_text ":0100000007F8"] (ascii_text ":0212340001020B")
                     [ascii_text ":00000001FF"] 1%Z 1%Z [STK_INSYNC; STK_OK]
                     0%Z [STK_INSYNC; STK_FAILED] [ack 1] Q);
      [reflexivity | reflexivity | reflexivity | reflexivity | simpl; lia | simpl; lia
      | reflexivity | reflexivity].
Defined.

(** ** Release of the handles *)

Lemma sameHandles_refl w : sameHandles w w.
Proof. repeat split. Qed.

Lemma sameHandles_trans w1 w2 w3 :
  sameHandles w1 w2 -> sameHandles w2 w3 -> sameHandles w1 w3.
Proof.
  intros (A1 & A2 & A3 & A4) (B1 & B2 & B3 & B4).
  repeat split; congruence.
Qed.

(** From the sync loop on, the steps of the [try] leave the handles
    alone. *)
Lemma protocol_keeps_handles options :
  Keeps sameHandles
    (enterProgrammingMode options ;;
     uploadHexData (hexData options) options ;;
     verifyUpload (hexData options) options ;;
     leaveProgrammingMode options ;;
     notify options (mkProgress complete 100 UploadCompleted) ;;
     ret true).
Proof.
  apply Keeps_protocol.
  - apply sameHandles_refl.
  - apply sameHandles_trans.
  - intros w ms. repeat split.
  - intros w ev rest _. repeat split.
  - intros w fault rest _. repeat split.
Qed.

Lemma resetArduino_effect w :
  outcome (resetArduino w) = Returned tt
  /\ sameHandles w (final (resetArduino w))
  /\ this_port (final (resetArduino w)) = this_port w.
Proof.
  destruct w as [port rd wr clk inb wf sf cf clf].
  destruct port as [[signals rs ws]|]; [|repeat split].
  destruct signals; [|repeat split].
  destruct sf as [|[] [|[] [|[] sf]]]; repeat split.
Qed.

(** On a port whose two streams are free, [initializeConnection] returns
    with both handles acquired. *)
Lemma initializeConnection_open baud port w :
  this_port w = Some port ->
  readable port = OpenStream ->
  writable port = OpenStream ->
  let r := initializeConnection baud w in
  outcome r = Returned tt
  /\ this_reader (final r) = Some TheReader
  /\ this_writer (final r) = Some TheWriter
  /\ cancelFault (final r) = cancelFault w
  /\ closeFault (final r) = closeFault w.
Proof.
  intros P R W. cbv zeta. unfold initializeConnection.
  rewrite bind_outcome, bind_final. cbn [getPort ret outcome final]. rewrite P, R, W.
  destruct (resetArduino_effect w) as (O & (_ & _ & C1 & C2) & _).
  rewrite bind_outcome, bind_final, O.
  set (w1 := final (resetArduino w)) in *.
  cbn. auto.
Qed.

Lemma cleanup_counts w :
  cancels (emitted (cleanup w)) = match this_reader w with Some _ => 1 | None => 0 end
  /\ closes (emitted (cleanup w)) =
     match this_reader w, this_writer w with
     | Some _, Some _ => if cancelFault w then 0 else 1
     | None, Some _ => 1
     | _, None => 0
     end.
Proof.
  destruct w as [port rd wr clk inb wf sf cf clf].
  destruct rd, wr, cf, clf; split; reflexivity.
Qed.

Lemma cleanup_leak w rd :
  this_reader w = Some rd -> cancelFault w = true ->
  this_writer (final (cleanup w)) = this_writer w.
Proof.
  destruct w as [port rd' wr clk inb wf sf cf clf]. cbn [this_reader cancelFault].
  intros -> ->. reflexivity.
Qed.

Lemma reportFailure_keeps options cause w :
  sameHandles w (final (reportFailure options cause w)).
Proof.
  unfold reportFailure, notify.
  destruct (onProgress options) as [callback|]; [|apply sameHandles_refl].
  unfold bind, emit, ret, throw. cbn. destruct (callback _); apply sameHandles_refl.
Qed.

Lemma reportFailure_releases options cause w :
  Forall notRelease (emitted (reportFailure options cause w)).
Proof.
  unfold reportFailure.
  revert w. change (Emits notRelease (notify options (mkProgress error 0 (UploadFailed cause)) ;; ret false)).
  repeat first [ apply Emits_notify; exact I | emits_step ].
Qed.

(** One run of [uploadSketch] on a port whose two streams are free: if it
    settles, [reader.cancel()] has been called exactly once, and
    [writer.close()] exactly once unless [cancel] rejected, in which case it
    has not been called at all and the writer is still held. *)
Lemma uploadSketch_releases port options w :
  readable port = OpenStream ->
  writable port = OpenStream ->
  let r := uploadSketch port options w in
  outcome r <> Pending ->
  cancels (emitted r) = 1
  /\ closes (emitted r) = (if cancelFault w then 0 else 1)
  /\ (cancelFault w = true -> this_writer (final r) = Some TheWriter).
Proof.
  intros R W. cbv zeta. rewrite uploadSketch_outcome, uploadSketch_unfold. cbv zeta.
  set (w0 := set_port (Some port) w).
  destruct (@initializeConnection_open (baudRate options) port w0 eq_refl R W)
    as (O0 & R0 & W0 & C0 & L0).
  assert (H : let s := uploadSteps options w0 in
              this_reader (final s) = Some TheReader
              /\ this_writer (final s) = Some TheWriter
              /\ cancelFault (final s) = cancelFault w
              /\ closeFault (final s) = closeFault w).
  { cbv zeta. unfold uploadSteps. rewrite bind_final, O0.
    destruct (protocol_keeps_handles options (final (initializeConnection (baudRate options) w0)))
      as (K1 & K2 & K3 & K4).
    rewrite K1, K2, K3, K4. auto. }
  cbv zeta in H. destruct H as (H1 & H2 & H3 & H4).
  assert (Es : Forall notRelease (emitted (uploadSteps options w0))).
  { apply Emits_uploadSteps; intros; exact I. }
  apply releases_none in Es. destruct Es as [Es1 Es2].
  unfold tryFinally, tryCatch.
  destruct (outcome (uploadSteps options w0)) as [b|e|] eqn:S; intros N.
  - rewrite S, cleanup_settles. cbn [emitted final].
    destruct (cleanup_counts (final (uploadSteps options w0))) as [c1 c2].
    rewrite cancels_app, closes_app, Es1, Es2, c1, c2, H1, H2, H3.
    repeat split. intros T.
    rewrite (cleanup_leak _ H1) by congruence. exact H2.
  - cbn [outcome final emitted after].
    set (w1 := final (uploadSteps options w0)) in *.
    destruct (reportFailure_keeps options e w1) as (K1 & K2 & K3 & K4).
    pose proof (reportFailure_releases options e w1) as Er.
    apply releases_none in Er. destruct Er as [Er1 Er2].
    set (w2 := final (reportFailure options e w1)) in *.
    destruct (cleanup_counts w2) as [c1 c2].
    assert (X : cancels (emitted (uploadSteps options w0) ++ emitted (reportFailure options e w1)
                         ++ emitted (cleanup w2)) = 1
                /\ closes (emitted (uploadSteps options w0) ++ emitted (reportFailure options e w1)
                           ++ emitted (cleanup w2)) = (if cancelFault w then 0 else 1)
                /\ (cancelFault w = true -> this_writer (final (cleanup w2)) = Some TheWriter)).
    { rewrite !cancels_app, !closes_app, Es1, Es2, Er1, Er2, c1, c2, K1, K2, K3, H1, H2, H3.
      repeat split. intros T.
      rewrite (@cleanup_leak w2 TheReader) by congruence. congruence. }
    destruct (outcome (reportFailure options e w1)); try congruence;
      rewrite cleanup_settles; cbn [emitted final]; rewrite <- app_assoc; exact X.
  - congruence.
Qed.

Example uploadSketch_releases_witness :
  let w := mkWorld None None None 0 [Rejected 1] [] [] false false in
  let r := uploadSketch freePort (silentOptions []) w in
  readable freePort = OpenStream
  /\ writable freePort = OpenStream
  /\ outcome r <> Pending
  /\ cancels (emitted r) = 1
  /\ closes (emitted r) = 1.
Proof.
  cbv zeta.
  assert (N : outcome (uploadSketch freePort (silentOptions [])
                         (mkWorld None None None 0 [Rejected 1] [] [] false false))
              <> Pending) by (vm_compute; discriminate).
  destruct (@uploadSketch_releases freePort (silentOptions [])
              (mkWorld None None None 0 [Rejected 1] [] [] false false)
              eq_refl eq_refl N) as (C1 & C2 & _).
  repeat split; assumption.
Defined.

(** Claim C1 (the code departs from it).  The read stream fails during the
    sync and [reader.cancel()] rejects in [cleanup]: the run returns
    [false], [cancel] has been called once and [writer.close()] not at
    all; the uploader still holds both handles. *)
Example cleanup_leaks_writer :
  let w := mkWorld None None None 0 [Rejected 1] [] [] true false in
  let r := uploadSketch freePort (silentOptions []) w in
  outcome r = Returned false
  /\ cancels (emitted r) = 1
  /\ closes (emitted r) = 0
  /\ this_reader (final r) = Some TheReader
  /\ this_writer (final r) = Some TheWriter.
Proof. vm_compute. repeat split. Qed.
(* ================================================================== *)
(** ** The order of the commands and of the snapshots *)
(* ================================================================== *)

Section Following.
Context {X : Type}.
Variable obs : list Event -> list X.
Hypothesis obs_app : forall a b, obs (a ++ b) = obs a ++ obs b.

Lemma follows_bind {A B} (m : M A) (k : A -> M B) w plan1 plan2 :
  follows obs m w plan1 ->
  (forall a, outcome (m w) = Returned a -> follows obs (k a) (final (m w)) plan2) ->
  follows obs (bind m k) w (plan1 ++ plan2).
Proof.
  intros [P1 R1] H2. unfold follows.
  rewrite bind_emitted, bind_outcome, obs_app.
  destruct (outcome (m w)) as [a| |] eqn:E.
  - rewrite (R1 a eq_refl). destruct (H2 a eq_refl) as [P2 R2].
    split; [now apply prefixOf_app | intros b Hb; now rewrite (R2 b Hb)].
  - split; [|discriminate].
    replace (obs []) with (@nil X)
      by (pose proof (obs_app [] []) as O; simpl in O;
          destruct (obs []); [reflexivity | apply (f_equal (@length X)) in O;
            rewrite length_app in O; simpl in O; lia]).
    rewrite app_nil_r. now apply prefixOf_weaken.
  - split; [|discriminate].
    replace (obs []) with (@nil X)
      by (pose proof (obs_app [] []) as O; simpl in O;
          destruct (obs []); [reflexivity | apply (f_equal (@length X)) in O;
            rewrite length_app in O; simpl in O; lia]).
    rewrite app_nil_r. now apply prefixOf_weaken.
Qed.

Lemma follows_silent {A} (m : M A) w :
  obs (emitted (m w)) = [] -> follows obs m w [].
Proof. intros H. unfold follows. rewrite H. split; [now exists [] | reflexivity]. Qed.

End Following.

Lemma tryCatch_emitted {A} (body : M A) handler w :
  emitted (tryCatch body handler w) =
  emitted (body w) ++
  match outcome (body w) with
  | Thrown e => emitted (handler e (final (body w)))
  | _ => []
  end.
Proof.
  unfold tryCatch. destruct (outcome (body w)); cbn [after emitted];
    now rewrite ?app_nil_r.
Qed.

Lemma syncIteration_writes syncAttempts w :
  writes (emitted (syncIteration syncAttempts w)) = []
  \/ writes (emitted (syncIteration syncAttempts w)) = [syncCommand].
Proof.
  unfold syncIteration. rewrite tryCatch_emitted, writes_app.
  set (body := bind (sendCommand _) _).
  assert (H : writes (emitted (body w)) = writes (emitted (exchange [JS.num STK_GET_SYNC; JS.num STK_CRC_EOP] w))).
  { unfold body, exchange. rewrite !bind_emitted, !writes_app.
    destruct (outcome (sendCommand _ w)); [|reflexivity|reflexivity].
    f_equal. rewrite writes_app.
    destruct (outcome (readResponse 2 _)) as [response| |]; rewrite ?app_nil_r; try reflexivity.
    destruct (inSyncOk response); now rewrite app_nil_r. }
  rewrite H.
  assert (T : forall w', writes (emitted
     ((let syncAttempts' := S syncAttempts in
        if maxSyncAttempts <=? syncAttempts' then throw FailedToSync
        else delay 100 ;; ret (Some syncAttempts')) w')) = []).
  { intros w'. cbv zeta. destruct (maxSyncAttempts <=? S syncAttempts); reflexivity. }
  destruct (outcome (body w)); rewrite ?T, app_nil_r; apply exchange_writes_cases.
Qed.

Lemma syncLoop_writes : forall fuel syncAttempts w,
  exists k, writes (emitted (syncLoop fuel syncAttempts w)) = repeat syncCommand k.
Proof.
  induction fuel as [|fuel IH]; intros syncAttempts w; cbn [syncLoop].
  - now exists 0.
  - destruct (syncAttempts <? maxSyncAttempts); [|now exists 0].
    rewrite bind_emitted, writes_app.
    assert (S1 : exists j, writes (emitted (syncIteration syncAttempts w)) = repeat syncCommand j).
    { destruct (syncIteration_writes syncAttempts w) as [-> | ->];
        [now exists 0 | now exists 1]. }
    destruct S1 as [j ->].
    destruct (outcome (syncIteration syncAttempts w)) as [[next|]| |].
    + destruct (IH next (final (syncIteration syncAttempts w))) as [k ->].
      exists (j + k). now rewrite repeat_app.
    + exists j. now rewrite app_nil_r.
    + exists j. now rewrite app_nil_r.
    + exists j. now rewrite app_nil_r.
Qed.

Lemma follows_exchange_check command (failure : Error) w :
  follows writes
    (sendCommand command ;;
     response <- readResponse 2 ;;
     if negb (inSyncOk response) then throw failure else ret tt)
    w [map JS.toUint8 command].
Proof.
  unfold follows. rewrite <- bind_assoc. fold (exchange command).
  destruct (outcome (exchange command w)) as [response| |] eqn:E.
  - erewrite bind_returned by exact E. cbn [after emitted outcome].
    rewrite writes_app. erewrite exchange_returned by exact E.
    destruct (negb (inSyncOk response)); cbn [emitted throw ret writes flat_map app];
      (split; [exists []; reflexivity | intros; reflexivity]).
  - erewrite bind_thrown by exact E. cbn [emitted outcome]. split; [|discriminate].
    destruct (exchange_writes_cases command w) as [-> | ->]; [now eexists | now exists []].
  - erewrite bind_pending by exact E. cbn [emitted outcome]. split; [|discriminate].
    destruct (exchange_writes_cases command w) as [-> | ->]; [now eexists | now exists []].
Qed.

(** What a run of [uploadSketch] emits: the events of the [try] block,
    then those of the [catch] block if it threw, then those of [cleanup]
    unless the [try] block never settled. *)
Lemma uploadSketch_emitted port options w :
  let w0 := set_port (Some port) w in
  let steps := uploadSteps options w0 in
  emitted (uploadSketch port options w) =
  emitted steps ++
  match outcome steps with
  | Returned _ => emitted (cleanup (final steps))
  | Thrown e =>
      let failure := reportFailure options e (final steps) in
      emitted failure ++ emitted (cleanup (final failure))
  | Pending => []
  end.
Proof.
  cbv zeta. rewrite uploadSketch_unfold. unfold tryFinally, tryCatch.
  set (w0 := set_port (Some port) w).
  destruct (outcome (uploadSteps options w0)) as [b|e|] eqn:E.
  - rewrite E, cleanup_settles. reflexivity.
  - cbn [outcome after final emitted].
    destruct (reportFailure_outcome options e (final (uploadSteps options w0))) as [F | F];
      rewrite F, cleanup_settles; cbn [emitted]; now rewrite app_assoc.
  - rewrite E. now rewrite app_nil_r.
Qed.

Lemma uploadSketch_writes_all port options w :
  writes (emitted (uploadSketch port options w))
  = writes (emitted (uploadSteps options (set_port (Some port) w))).
Proof.
  rewrite uploadSketch_emitted. cbv zeta. rewrite writes_app.
  destruct (outcome (uploadSteps options _)).
  - now rewrite cleanup_writes, app_nil_r.
  - now rewrite writes_app, cleanup_writes, reportFailure_writes, !app_nil_r.
  - now rewrite app_nil_r.
Qed.

Lemma initializeConnection_writes baud w :
  writes (emitted (initializeConnection baud w)) = [].
Proof.
  apply writes_none, Emits_initializeConnection; intros; exact I.
Qed.

Lemma verifyUpload_writes hexData options w :
  writes (emitted (verifyUpload hexData options w)) = [].
Proof.
  apply writes_none, Emits_verifyUpload; intros; exact I.
Qed.

(** A sync loop that returns has sent the sync command at least once. *)
Lemma syncLoop_writes_returned : forall fuel syncAttempts w,
  syncAttempts < maxSyncAttempts ->
  outcome (syncLoop fuel syncAttempts w) = Returned tt ->
  exists k, writes (emitted (syncLoop fuel syncAttempts w)) = repeat syncCommand (S k).
Proof.
  induction fuel as [|fuel IH]; intros syncAttempts w Hlt; cbn [syncLoop].
  - discriminate.
  - apply Nat.ltb_lt in Hlt. rewrite Hlt. apply Nat.ltb_lt in Hlt.
    rewrite bind_outcome, bind_emitted, writes_app.
    destruct (outcome (syncIteration syncAttempts w)) as [[next|]| |] eqn:E;
      try discriminate.
    + intros H.
      assert (N : next < maxSyncAttempts)
        by (destruct (syncIteration_progress _ _ E) as [[-> _] | [-> N]]; assumption).
      destruct (IH next _ N H) as [k ->].
      destruct (syncIteration_writes syncAttempts w) as [-> | ->].
      * now exists k.
      * exists (S k). reflexivity.
    + intros _. exists 0. rewrite app_nil_r.
      (* the iteration broke out of the loop: its exchange returned *)
      revert E. unfold syncIteration. unfold tryCatch.
      set (body := bind (sendCommand _) _).
      destruct (outcome (body w)) as [[n|]| |] eqn:B; rewrite ?B; try discriminate.
      * intros _.
        unfold body in *. clear body.
        rewrite bind_outcome in B. rewrite bind_emitted, writes_app.
        destruct (outcome (sendCommand _ w)) as [[]| |] eqn:S1; try discriminate.
        rewrite (sendCommand_returned _ _ S1).
        replace (writes _) with (@nil (list Z)); [reflexivity|].
        symmetry. apply writes_none.
        repeat first [ apply Emits_readResponse; intros; exact I | emits_step ].
      * cbn [after outcome]. cbv zeta.
        destruct (maxSyncAttempts <=? S syncAttempts); discriminate.
Qed.

Lemma follows_enterProgrammingMode options w :
  exists k,
    follows writes (enterProgrammingMode options) w
            (repeat syncCommand k ++ [enterProgmodeCommand])
    /\ (forall a, outcome (enterProgrammingMode options w) = Returned a -> 1 <= k).
Proof.
  unfold enterProgrammingMode.
  set (w1 := final (notify options (mkProgress connecting 10 ConnectingToBootloader) w)).
  destruct (syncLoop_writes (syncFuel w1) 0 w1) as [k K].
  exists k. split.
  - apply (@follows_bind _ writes writes_app _ _ _ _ _ [] (repeat syncCommand k ++ [enterProgmodeCommand]));
      [apply follows_silent, notify_writes|].
    intros _ _. fold w1.
    apply (@follows_bind _ writes writes_app _ _ (fun w => syncLoop (syncFuel w) 0 w)).
    + unfold follows. cbv beta. rewrite K.
      split; [exists []; now rewrite app_nil_r | reflexivity].
    + intros _ _.
      apply (@follows_bind _ writes writes_app _ _ _ _ _ [] [enterProgmodeCommand]);
        [apply follows_silent, notify_writes|].
      intros _ _.
      exact (follows_exchange_check [JS.num STK_ENTER_PROGMODE; JS.num STK_CRC_EOP]
               FailedToEnterProgrammingMode _).
  - intros a. rewrite bind_outcome.
    destruct (outcome (notify options _ w)) as [[]| |]; try discriminate.
    fold w1. rewrite bind_outcome.
    destruct (outcome (syncLoop (syncFuel w1) 0 w1)) as [[]| |] eqn:E; try discriminate.
    intros _.
    destruct (@syncLoop_writes_returned (syncFuel w1) 0 w1) as [j J];
      [unfold maxSyncAttempts; lia | exact E |].
    rewrite J in K. apply (f_equal (@length _)) in K. rewrite !repeat_length in K. lia.
Qed.

Lemma follows_uploadSteps_writes options w :
  exists k,
    follows writes (uploadSteps options) w
            (repeat syncCommand k ++ [enterProgmodeCommand]
             ++ plannedWrites (hexLinesOf (hexData options)) ++ [leaveProgmodeCommand])
    /\ (forall a, outcome (uploadSteps options w) = Returned a -> 1 <= k).
Proof.
  unfold uploadSteps.
  set (w0 := final (initializeConnection (baudRate options) w)).
  destruct (follows_enterProgrammingMode options w0) as (k & F & K).
  exists k. split.
  - replace (repeat syncCommand k ++ [enterProgmodeCommand]
             ++ plannedWrites (hexLinesOf (hexData options)) ++ [leaveProgmodeCommand])
      with ([] ++ (repeat syncCommand k ++ [enterProgmodeCommand])
            ++ plannedWrites (hexLinesOf (hexData options))
            ++ [] ++ [leaveProgmodeCommand] ++ [] ++ [])
      by (cbn [app]; now rewrite <- app_assoc).
    apply follows_bind;
      [exact writes_app | apply follows_silent, initializeConnection_writes|].
    intros _ _. fold w0.
    apply follows_bind; [exact writes_app | exact F |].
    intros _ _.
    apply follows_bind;
      [exact writes_app
      | destruct (uploadHexData_writes (hexData options) options
                    (final (enterProgrammingMode options w0))) as [P R];
        split; [exact P | intros []; exact R] |].
    intros _ _.
    apply follows_bind; [exact writes_app | apply follows_silent, verifyUpload_writes |].
    intros _ _.
    apply follows_bind;
      [exact writes_app
      | exact (follows_exchange_check [JS.num STK_LEAVE_PROGMODE; JS.num STK_CRC_EOP]
                 FailedToLeaveProgrammingMode _) |].
    intros _ _.
    apply follows_bind; [exact writes_app | apply follows_silent, notify_writes |].
    intros _ _. apply follows_silent. reflexivity.
  - intros a. rewrite bind_outcome.
    destruct (outcome (initializeConnection (baudRate options) w)) as [[]| |];
      try discriminate.
    fold w0. rewrite bind_outcome.
    destruct (outcome (enterProgrammingMode options w0)) as [[]| |] eqn:E; try discriminate.
    intros _. now apply (K tt).
Qed.

(** Whatever the device answers and whatever fails, the buffers written
    during an upload are, in this order: the sync command some number of
    times, the command that enters programming mode, the page commands of
    the hex lines, and the command that leaves programming mode -- or a
    prefix of that sequence.  An upload that returns [true] has written
    the whole sequence, with at least one sync command. *)
Theorem uploadSketch_write_order port options w :
  let r := uploadSketch port options w in
  exists k,
    let plan :=
      repeat syncCommand k ++ [enterProgmodeCommand]
      ++ plannedWrites (hexLinesOf (hexData options)) ++ [leaveProgmodeCommand] in
    prefixOf (writes (emitted r)) plan
    /\ (outcome r = Returned true -> writes (emitted r) = plan /\ 1 <= k).
Proof.
  cbv zeta. rewrite uploadSketch_writes_all.
  destruct (follows_uploadSteps_writes options (set_port (Some port) w)) as (k & [P R] & K).
  exists k. split; [exact P|].
  intros H. apply uploadSketch_success in H. destruct H as [H _].
  split; [now apply (R true) | now apply (K true)].
Qed.

Lemma follows_notify options p w :
  follows snapshots (notify options p) w
          (match onProgress options with Some _ => [p] | None => [] end).
Proof.
  unfold follows, notify. destruct (onProgress options) as [callback|].
  - unfold bind, emit. cbn [outcome final emitted after].
    destruct (callback p); cbn [throw ret outcome emitted app snapshots flat_map];
      (split; [exists []; reflexivity | intros; reflexivity]).
  - split; [exists []; reflexivity | intros; reflexivity].
Qed.

Lemma snapshots_silent {A} (m : M A) w :
  Emits notProgress m -> follows snapshots m w [].
Proof. intros H. apply follows_silent. apply snapshots_none, H. Qed.

Lemma Emits_notProgress_sync : Emits notProgress (fun w => syncLoop (syncFuel w) 0 w).
Proof. intros w. apply Emits_syncLoop; intros; exact I. Qed.

Lemma Emits_notProgress_check command failure :
  Emits notProgress
    (sendCommand command ;;
     response <- readResponse 2 ;;
     if negb (inSyncOk response) then throw failure else ret tt).
Proof.
  repeat first [ apply Emits_sendCommand; intros; exact I
               | apply Emits_readResponse; intros; exact I
               | emits_step ].
Qed.

Lemma follows_uploadLine_snapshots options n i line w :
  follows snapshots (uploadLine options n i line) w
          (match onProgress options with Some _ => [lineSnapshot n i] | None => [] end).
Proof.
  unfold uploadLine. cbv zeta.
  rewrite <- (app_nil_r (match onProgress options with Some _ => _ | None => _ end)).
  apply follows_bind; [exact snapshots_app | apply follows_notify |].
  intros _ _. apply snapshots_silent.
  repeat first [ apply Emits_writePage; intros; exact I
               | apply Emits_delay; intros; exact I
               | emits_step ].
Qed.

Lemma follows_uploadLines_snapshots options n : forall hexLines i w,
  follows snapshots (uploadLines options n i hexLines) w
          (match onProgress options with
           | Some _ => map (lineSnapshot n) (seq i (length hexLines))
           | None => []
           end).
Proof.
  induction hexLines as [|line rest IH]; intros i w; cbn [uploadLines length seq map].
  - replace (match onProgress options with Some _ => [] | None => [] end)
      with (@nil UploadProgress) by (now destruct (onProgress options)).
    apply follows_silent. reflexivity.
  - replace (match onProgress options with
             | Some _ => lineSnapshot n i :: map (lineSnapshot n) (seq (S i) (length rest))
             | None => []
             end)
      with ((match onProgress options with Some _ => [lineSnapshot n i] | None => [] end)
            ++ match onProgress options with
               | Some _ => map (lineSnapshot n) (seq (S i) (length rest))
               | None => []
               end)
      by (now destruct (onProgress options)).
    apply follows_bind;
      [exact snapshots_app | apply follows_uploadLine_snapshots | intros _ _; apply IH].
Qed.

Lemma follows_uploadSteps_snapshots options w :
  follows snapshots (uploadSteps options) w (plannedSnapshots options).
Proof.
  unfold uploadSteps, plannedSnapshots.
  set (n := length (hexLinesOf (hexData options))).
  set (shown := fun l : list UploadProgress =>
                  match onProgress options with Some _ => l | None => [] end).
  replace (match onProgress options with
           | None => []
           | Some _ => let n0 := n in _
           end)
    with ([] ++ (shown [mkProgress connecting 10 ConnectingToBootloader]
                 ++ [] ++ shown [mkProgress syncing 20 SyncedWithBootloader] ++ [])
          ++ (shown [mkProgress uploading 30 UploadingSketch]
              ++ shown (map (lineSnapshot n) (seq 0 n)))
          ++ (shown [mkProgress verifying 85 VerifyingUpload] ++ []
              ++ shown [mkProgress verifying 95 VerificationComplete])
          ++ [] ++ shown [mkProgress complete 100 UploadCompleted] ++ [])
    by (unfold shown; destruct (onProgress options); cbn [app];
        [rewrite ?app_nil_r; reflexivity | reflexivity]).
  apply follows_bind; [exact snapshots_app | |].
  { apply snapshots_silent, Emits_initializeConnection; intros; exact I. }
  intros _ _. apply follows_bind; [exact snapshots_app | |].
  { unfold enterProgrammingMode.
    apply follows_bind; [exact snapshots_app | apply follows_notify |].
    intros _ _. apply follows_bind; [exact snapshots_app | |].
    { apply snapshots_silent, Emits_notProgress_sync. }
    intros _ _. apply follows_bind; [exact snapshots_app | apply follows_notify |].
    intros _ _. apply snapshots_silent, Emits_notProgress_check. }
  intros _ _. apply follows_bind; [exact snapshots_app | |].
  { unfold uploadHexData. cbv zeta.
    apply follows_bind; [exact snapshots_app | apply follows_notify |].
    intros _ _. apply follows_uploadLines_snapshots. }
  intros _ _. apply follows_bind; [exact snapshots_app | |].
  { unfold verifyUpload.
    apply follows_bind; [exact snapshots_app | apply follows_notify |].
    intros _ _. apply follows_bind; [exact snapshots_app | |].
    { apply snapshots_silent, Emits_delay; intros; exact I. }
    intros _ _. apply follows_notify. }
  intros _ _. apply follows_bind; [exact snapshots_app | |].
  { apply snapshots_silent, Emits_notProgress_check. }
  intros _ _. apply follows_bind; [exact snapshots_app | apply follows_notify |].
  intros _ _. apply follows_silent. reflexivity.
Qed.

Lemma reportFailure_snapshots options cause w :
  snapshots (emitted (reportFailure options cause w))
  = match onProgress options with
    | Some _ => [mkProgress error 0 (UploadFailed cause)]
    | None => []
    end.
Proof.
  unfold reportFailure, notify. destruct (onProgress options) as [callback|]; [|reflexivity].
  unfold bind, emit. cbn [outcome final emitted after].
  destruct (callback _); reflexivity.
Qed.

Lemma prefixOf_map {A B} (f : A -> B) l full :
  prefixOf l full -> prefixOf (map f l) (map f full).
Proof. intros [rest ->]. exists (map f rest). apply map_app. Qed.

Lemma prefixOf_filter {A} (f : A -> bool) l full :
  prefixOf l full -> prefixOf (filter f l) (filter f full).
Proof. intros [rest ->]. exists (filter f rest). apply filter_app. Qed.

Lemma lineSnapshots_stages n : forall count i,
  map stage (map (lineSnapshot n) (seq i count)) = repeat uploading count.
Proof.
  induction count as [|count IH]; intros i; [reflexivity|].
  cbn [seq map repeat]. now rewrite IH.
Qed.

Lemma lineSnapshots_milestones n : forall count i,
  filter milestone (map (lineSnapshot n) (seq i count)) = [].
Proof.
  induction count as [|count IH]; intros i; [reflexivity|].
  cbn [seq map filter]. apply IH.
Qed.

Lemma plannedSnapshots_stages options :
  map stage (plannedSnapshots options) = plannedStages options.
Proof.
  unfold plannedSnapshots, plannedStages. destruct (onProgress options); [|reflexivity].
  cbv zeta. rewrite !map_app, lineSnapshots_stages. reflexivity.
Qed.

Lemma plannedSnapshots_milestones options :
  filter milestone (plannedSnapshots options) = milestones options.
Proof.
  unfold plannedSnapshots, milestones. destruct (onProgress options); [|reflexivity].
  cbv zeta. rewrite !filter_app, lineSnapshots_milestones. reflexivity.
Qed.

(** In the model the snapshots of an upload are a prefix of the planned
    ones, then the failure if any. *)
Lemma uploadSketch_snapshots_plan port options w :
  let r := uploadSketch port options w in
  let steps := uploadSteps options (set_port (Some port) w) in
  exists shown,
    prefixOf shown (plannedSnapshots options)
    /\ snapshots (emitted r)
       = shown ++ match outcome steps, onProgress options with
                  | Thrown cause, Some _ => [mkProgress error 0 (UploadFailed cause)]
                  | _, _ => []
                  end
    /\ (outcome r = Returned true -> shown = plannedSnapshots options).
Proof.
  cbv zeta. set (w0 := set_port (Some port) w).
  destruct (follows_uploadSteps_snapshots options w0) as [P R].
  exists (snapshots (emitted (uploadSteps options w0))).
  split; [exact P|]. split.
  - rewrite uploadSketch_emitted. cbv zeta. fold w0. rewrite snapshots_app. f_equal.
    destruct (outcome (uploadSteps options w0)).
    + now rewrite cleanup_snapshots.
    + rewrite snapshots_app, cleanup_snapshots, app_nil_r, reportFailure_snapshots.
      now destruct (onProgress options).
    + reflexivity.
  - intros H. apply uploadSketch_success in H. destruct H as [H _]. now apply (R true).
Qed.

(** The stages reported during any upload are, in this order, those of
    the plan -- connecting, syncing, uploading once and then once more for
    each kept line of the hex text, verifying twice, complete -- or a
    prefix of them, followed by the snapshot of stage [error], with
    percentage 0 and the cause, exactly when the [try] block threw.  The
    snapshots other than those of the lines are, in this order, the six
    the source writes out -- 10, 20, 30, 85, 95 and 100 with their
    messages -- or a prefix of them.  An upload that returns [true] has
    reported all of them. *)
Theorem uploadSketch_stage_order port options w :
  let r := uploadSketch port options w in
  let steps := uploadSteps options (set_port (Some port) w) in
  exists shown,
    snapshots (emitted r)
    = shown ++ match outcome steps, onProgress options with
               | Thrown cause, Some _ => [mkProgress error 0 (UploadFailed cause)]
               | _, _ => []
               end
    /\ prefixOf (map stage shown) (plannedStages options)
    /\ prefixOf (filter milestone shown) (milestones options)
    /\ (outcome r = Returned true ->
        map stage shown = plannedStages options
        /\ filter milestone shown = milestones options).
Proof.
  cbv zeta.
  destruct (uploadSketch_snapshots_plan port options w) as (shown & P & E & R).
  cbv zeta in E, R. exists shown. split; [exact E|].
  rewrite <- plannedSnapshots_stages, <- plannedSnapshots_milestones.
  split; [now apply prefixOf_map|]. split; [now apply prefixOf_filter|].
  intros H. now rewrite (R H).
Qed.

(* ================================================================== *)
(** ** Uploads that never settle, and uploads that reject *)
(* ================================================================== *)

Lemma ReadEvent_eq_dec (a b : ReadEvent) : {a = b} + {a <> b}.
Proof.
  decide equality; try apply Z.eq_dec; apply list_eq_dec, Z.eq_dec.
Qed.

Lemma uploadSteps_releases options w :
  cancels (emitted (uploadSteps options w)) = 0
  /\ closes (emitted (uploadSteps options w)) = 0.
Proof.
  apply releases_none, Emits_uploadSteps; intros; exact I.
Qed.

(** On a script, an upload that never settles is waiting for a read that
    never settles; it has released nothing ([cleanup] has not run) and has
    reported no failure. *)
Lemma uploadSketch_pending port options w :
  outcome (uploadSketch port options w) = Pending ->
  let r := uploadSketch port options w in
  In Never (inbox w)
  /\ cancels (emitted r) = 0 /\ closes (emitted r) = 0
  /\ filter isErrorStage (snapshots (emitted r)) = [].
Proof.
  intros H. cbv zeta.
  assert (S : outcome (uploadSteps options (set_port (Some port) w)) = Pending).
  { rewrite uploadSketch_outcome in H. cbv zeta in H.
    destruct (outcome (uploadSteps options _)) as [b|e|] eqn:E; try discriminate.
    - destruct (reportFailure_outcome options e (final (uploadSteps options (set_port (Some port) w))))
        as [F | F]; rewrite F in H; discriminate.
    - reflexivity. }
  split.
  - destruct (in_dec ReadEvent_eq_dec Never (inbox w)) as [I | N]; [exact I|].
    exfalso. destruct (@Settles_uploadSketch port options w N) as [X _]. now apply X.
  - rewrite uploadSketch_emitted. cbv zeta. rewrite S, app_nil_r.
    destruct (uploadSteps_releases options (set_port (Some port) w)) as [C1 C2].
    split; [exact C1|]. split; [exact C2|]. apply uploadSteps_stages.
Qed.


(* ================================================================== *)
(** ** The options that are not looked at *)
(* ================================================================== *)

Lemma uploadLines_callback board1 baud1 board2 baud2 hex callback n :
  forall hexLines i w,
    uploadLines (mkOptions board1 baud1 hex callback) n i hexLines w
    = uploadLines (mkOptions board2 baud2 hex callback) n i hexLines w.
Proof.
  induction hexLines as [|line rest IH]; intros i w; cbn [uploadLines]; [reflexivity|].
  apply bind_cong; [reflexivity | intros _ w'; apply IH].
Qed.

(** The board identifier and the baud rate of the options have no effect
    on an upload: the run is the same whatever they are.  (The uploader
    never opens or configures the port.) *)
Theorem uploadSketch_ignores_board_and_baud
        port board1 baud1 board2 baud2 hex callback w :
  uploadSketch port (mkOptions board1 baud1 hex callback) w
  = uploadSketch port (mkOptions board2 baud2 hex callback) w.
Proof.
  rewrite !uploadSketch_unfold.
  set (w0 := set_port (Some port) w).
  assert (S : forall w', uploadSteps (mkOptions board1 baud1 hex callback) w'
                         = uploadSteps (mkOptions board2 baud2 hex callback) w').
  { intros w'. unfold uploadSteps.
    apply bind_cong; [reflexivity | intros _ w1].
    apply bind_cong; [reflexivity | intros _ w2].
    apply bind_cong; [| intros _ w3; reflexivity].
    unfold uploadHexData. cbv zeta.
    apply bind_cong; [reflexivity | intros _ w3].
    apply uploadLines_callback. }
  unfold tryFinally, tryCatch. rewrite S. reflexivity.
Qed.

(* ================================================================== *)
(** ** A callback that throws *)
(* ================================================================== *)

(** [uploadSketch] rejects in one case only: the [try] block threw and the
    progress callback threw again on the snapshot of stage [error] that
    the [catch] block hands to it.  The exception is then the callback's,
    and [cleanup] has run all the same. *)
Theorem uploadSketch_rejects_only_from_callback port options w e :
  outcome (uploadSketch port options w) = Thrown e ->
  let steps := uploadSteps options (set_port (Some port) w) in
  e = CallbackFailure
  /\ exists callback cause,
       onProgress options = Some callback
       /\ outcome steps = Thrown cause
       /\ callback (mkProgress error 0 (UploadFailed cause)) = true
       /\ emitted (uploadSketch port options w)
          = emitted steps ++ [EvProgress (mkProgress error 0 (UploadFailed cause))]
            ++ emitted (cleanup (final steps)).
Proof.
  intros H. cbv zeta. pose proof (uploadSketch_emitted port options w) as E.
  cbv zeta in E. rewrite uploadSketch_outcome in H. cbv zeta in H.
  set (steps := uploadSteps options (set_port (Some port) w)) in *.
  destruct (outcome steps) as [b|cause|] eqn:O; try discriminate.
  revert H E. unfold reportFailure, notify.
  destruct (onProgress options) as [callback|] eqn:C; [|discriminate].
  unfold bind, emit. cbn [outcome final emitted after].
  destruct (callback (mkProgress error 0 (UploadFailed cause))) eqn:T;
    cbn [throw ret outcome final emitted app]; [|discriminate].
  intros H E. injection H as <-. split; [reflexivity|].
  exists callback, cause. repeat split; assumption.
Qed.

(** The same with a callback that throws on the snapshots of stage
    [error], on a port whose read stream is closed. *)
Example uploadSketch_rejects_only_from_callback_witness :
  let options := mkOptions (ascii_text "uno") 115200 [] (Some isErrorStage) in
  let r := uploadSketch freePort options (freshWorld []) in
  let steps := uploadSteps options (set_port (Some freePort) (freshWorld [])) in
  outcome r = Thrown CallbackFailure
  /\ exists callback cause,
       onProgress options = Some callback
       /\ outcome steps = Thrown cause
       /\ callback (mkProgress error 0 (UploadFailed cause)) = true
       /\ emitted r
          = emitted steps ++ [EvProgress (mkProgress error 0 (UploadFailed cause))]
            ++ emitted (cleanup (final steps)).
Proof.
  cbv zeta. split; [reflexivity|].
  apply (@uploadSketch_rejects_only_from_callback freePort
           (mkOptions (ascii_text "uno") 115200 [] (Some isErrorStage))
           (freshWorld []) CallbackFailure eq_refl).
Defined.

(* ================================================================== *)
(** ** [initializeConnection] and the streams of the port *)
(* ================================================================== *)

Lemma initializeConnection_spec baud w port :
  this_port w = Some port ->
  let r := initializeConnection baud w in
  outcome r = match readable port, writable port with
              | LockedStream, _ => Thrown (TransportFailure OpGetReader)
              | _, LockedStream => Thrown (TransportFailure OpGetWriter)
              | _, _ => Returned tt
              end
  /\ this_reader (final r) = acquired (readable port) TheReader (this_reader w)
  /\ (readable port <> LockedStream ->
      this_writer (final r) = acquired (writable port) TheWriter (this_writer w))
  /\ inbox (final r) = inbox w
  /\ writeFaults (final r) = writeFaults w
  /\ cancelFault (final r) = cancelFault w
  /\ closeFault (final r) = closeFault w
  /\ readTimes (emitted r) = []
  /\ exists before, delays (emitted r) = before ++ [2000%Z].
Proof.
  destruct w as [p rd wr c i wf sf cf clf]. cbn [this_port]. intros ->.
  destruct port as [sig rs ws]. cbv zeta.
  destruct sig.
  - destruct sf as [|[] [|[] [|[] sf]]]; destruct rs, ws;
      (repeat split; try reflexivity; try (intros N; now elim N);
       first [ now exists [100; 50]%Z | now exists [100]%Z | now exists (@nil Z) ]).
  - destruct rs, ws;
      (repeat split; try reflexivity; try (intros N; now elim N); now exists [2000%Z]).
Qed.

(* ================================================================== *)
(** ** The sync loop without a reader or without a writer *)
(* ================================================================== *)

Lemma syncIteration_unavailable syncAttempts w :
  unavailable w ->
  let r := syncIteration syncAttempts w in
  outcome r = (if maxSyncAttempts <=? S syncAttempts then Thrown FailedToSync
               else Returned (Some (S syncAttempts)))
  /\ this_reader (final r) = this_reader w
  /\ this_writer (final r) = this_writer w
  /\ writes (emitted r) = match this_writer w with
                          | Some _ => [syncCommand]
                          | None => []
                          end
  /\ readTimes (emitted r) = []
  /\ delays (emitted r) = (if maxSyncAttempts <=? S syncAttempts then [] else [100%Z]).
Proof.
  destruct w as [p rd wr c i wf sf cf clf]. unfold unavailable. cbn [this_reader this_writer].
  intros H. cbv zeta. unfold syncIteration, tryCatch. cbv zeta.
  generalize (maxSyncAttempts <=? S syncAttempts). intros last.
  destruct wr as [wr|].
  - destruct H as [-> | H]; [|discriminate].
    destruct wf as [|[] wf]; cbn; destruct last; cbn; repeat split; reflexivity.
  - cbn. destruct last; cbn; repeat split; reflexivity.
Qed.

Lemma syncLoop_unavailable : forall left fuel syncAttempts w,
  unavailable w ->
  syncAttempts + S left = maxSyncAttempts ->
  left < fuel ->
  let r := syncLoop fuel syncAttempts w in
  outcome r = Thrown FailedToSync
  /\ writes (emitted r) = match this_writer w with
                          | Some _ => repeat syncCommand (S left)
                          | None => []
                          end
  /\ readTimes (emitted r) = []
  /\ delays (emitted r) = repeat 100%Z left.
Proof.
  induction left as [|left IH]; intros fuel syncAttempts w U A F;
    (destruct fuel as [|fuel]; [lia|]); cbv zeta; cbn [syncLoop];
    (replace (syncAttempts <? maxSyncAttempts) with true
       by (symmetry; apply Nat.ltb_lt; lia));
    destruct (syncIteration_unavailable syncAttempts U) as (O & R & W & Wr & Rd & D);
    rewrite bind_outcome, bind_emitted, writes_app, readTimes_app, delays_app,
      O, Wr, Rd, D.
  - replace (maxSyncAttempts <=? S syncAttempts) with true
      by (symmetry; apply Nat.leb_le; lia).
    rewrite !app_nil_r. destruct (this_writer w); repeat split; reflexivity.
  - replace (maxSyncAttempts <=? S syncAttempts) with false
      by (symmetry; apply Nat.leb_gt; lia).
    destruct (IH fuel (S syncAttempts) (final (syncIteration syncAttempts w)))
      as (O' & Wr' & Rd' & D'); [unfold unavailable; now rewrite R, W | lia | lia |].
    rewrite O', Wr', Rd', D', W.
    destruct (this_writer w); repeat split; reflexivity.
Qed.

Lemma notify_readTimes options p w : readTimes (emitted (notify options p w)) = [].
Proof.
  unfold notify. destruct (onProgress options) as [callback|]; [|reflexivity].
  unfold bind, emit. cbn [outcome final emitted after]. destruct (callback p); reflexivity.
Qed.

Lemma cleanup_readTimes w : readTimes (emitted (cleanup w)) = [].
Proof.
  destruct w as [p [rd|] [wr|] c i wf sf [] []]; reflexivity.
Qed.

(** On a port that lacks its readable or its writable stream and has no
    locked stream, a fresh uploader (one that holds no reader and no
    writer yet) never gets in sync: every attempt throws ("Writer not
    available" before anything is written, or "Reader not available"
    once the sync command is written), ten attempts are made, and the
    upload ends with "Failed to sync with bootloader".  Nothing is read,
    and nothing but the sync command is written. *)
Theorem missing_stream_fails_at_sync port options w :
  quietCallback options ->
  readable port <> LockedStream ->
  writable port <> LockedStream ->
  readable port = NoStream \/ writable port = NoStream ->
  this_reader w = None ->
  this_writer w = None ->
  let r := uploadSketch port options w in
  outcome r = Returned false
  /\ filter isErrorStage (snapshots (emitted r))
     = match onProgress options with
       | Some _ => [mkProgress error 0 (UploadFailed FailedToSync)]
       | None => []
       end
  /\ writes (emitted r) = match writable port with
                          | OpenStream => repeat syncCommand 10
                          | _ => []
                          end
  /\ readTimes (emitted r) = [].
Proof.
  intros Q NR NW Missing Hr Hw. cbv zeta.
  set (w0 := set_port (Some port) w).
  destruct (@initializeConnection_spec (baudRate options) w0 port eq_refl)
    as (O0 & R0 & W0 & _ & _ & _ & _ & Rd0 & _).
  specialize (W0 NR). cbv zeta in *.
  set (w1 := final (initializeConnection (baudRate options) w0)) in *.
  assert (O0' : outcome (initializeConnection (baudRate options) w0) = Returned tt).
  { rewrite O0. destruct (readable port), (writable port); congruence. }
  assert (U : unavailable w1).
  { unfold unavailable. rewrite R0, W0. unfold w0. cbn [this_reader this_writer set_port].
    rewrite Hr, Hw. destruct Missing as [-> | ->]; [now left | now right]. }
  assert (Ww : this_writer w1 = match writable port with
                                | OpenStream => Some TheWriter
                                | _ => None
                                end).
  { rewrite W0. unfold w0. cbn [this_writer set_port]. rewrite Hw.
    now destruct (writable port). }
  set (p := mkProgress connecting 10 ConnectingToBootloader).
  destruct (@syncLoop_unavailable 9 (syncFuel w1) 0 w1 U)
    as (O2 & W2 & Rd2 & _); [reflexivity | unfold syncFuel, maxSyncAttempts; lia |].
  cbv zeta in *.
  assert (E : outcome (enterProgrammingMode options w1) = Thrown FailedToSync
              /\ writes (emitted (enterProgrammingMode options w1))
                 = writes (emitted (syncLoop (syncFuel w1) 0 w1))
              /\ readTimes (emitted (enterProgrammingMode options w1)) = []).
  { unfold enterProgrammingMode.
    rewrite bind_outcome, bind_emitted, writes_app, readTimes_app,
      notify_writes, notify_readTimes, notify_quiet by assumption.
    cbn [outcome final app].
    rewrite bind_outcome, bind_emitted, writes_app, readTimes_app, O2, Rd2, !app_nil_r.
    auto. }
  destruct E as (O1 & W1 & Rd1).
  assert (S : outcome (uploadSteps options w0) = Thrown FailedToSync
              /\ writes (emitted (uploadSteps options w0))
                 = writes (emitted (syncLoop (syncFuel w1) 0 w1))
              /\ readTimes (emitted (uploadSteps options w0)) = []).
  { unfold uploadSteps.
    rewrite bind_outcome, bind_emitted, writes_app, readTimes_app, O0',
      initializeConnection_writes, Rd0.
    fold w1. cbn [app].
    rewrite bind_outcome, bind_emitted, writes_app, readTimes_app, O1, W1, Rd1, !app_nil_r.
    auto. }
  destruct S as (OS & WS & RdS).
  destruct (@uploadSketch_failed port options w FailedToSync Q OS) as [OK EM].
  fold w0 in EM.
  split; [exact OK|]. split; [|split].
  - rewrite EM, !snapshots_app, cleanup_snapshots, app_nil_r, filter_app, uploadSteps_stages.
    now destruct (onProgress options).
  - rewrite uploadSketch_writes_all. fold w0. rewrite WS, W2, Ww.
    now destruct (writable port).
  - rewrite EM, !readTimes_app, RdS, cleanup_readTimes.
    now destruct (onProgress options).
Qed.

(** The same on a port without a readable stream. *)
Example missing_stream_fails_at_sync_witness :
  let port := mkPort true NoStream OpenStream in
  let options := recordingOptions [] in
  let r := uploadSketch port options (freshWorld []) in
  outcome r = Returned false
  /\ filter isErrorStage (snapshots (emitted r))
     = [mkProgress error 0 (UploadFailed FailedToSync)]
  /\ writes (emitted r) = repeat syncCommand 10
  /\ readTimes (emitted r) = [].
Proof.
  apply (@missing_stream_fails_at_sync (mkPort true NoStream OpenStream)
           (recordingOptions []) (freshWorld [])).
  - intros p. reflexivity.
  - discriminate.
  - discriminate.
  - left. reflexivity.
  - reflexivity.
  - reflexivity.
Defined.

(* ================================================================== *)
(** ** A device that stays silent *)
(* ================================================================== *)

Lemma syncIteration_silent syncAttempts w rest :
  ready w ->
  inbox w = Never :: rest ->
  syncIteration syncAttempts w =
  mkRun Pending (set_inbox rest w) [EvWrite syncCommand; EvRead (clock w)].
Proof.
  intros (Hr & Hw & Hf) Hi.
  unfold syncIteration, tryCatch, sendCommand, readResponse, getWriter, getReader,
    writerWrite, bind, ret, emit; cbn [outcome final emitted after].
  rewrite Hw; cbn [outcome final emitted after]. rewrite Hf; cbn [outcome final emitted after].
  rewrite Hr; cbn [outcome final emitted after]. rewrite Hi. cbn [readLoop length].
  replace (clock w <? clock w + 5000)%Z with true by (symmetry; apply Z.ltb_lt; lia).
  reflexivity.
Qed.

Lemma syncLoop_silent fuel syncAttempts w rest :
  ready w ->
  inbox w = Never :: rest ->
  syncAttempts < maxSyncAttempts ->
  syncLoop (S fuel) syncAttempts w =
  mkRun Pending (set_inbox rest w) [EvWrite syncCommand; EvRead (clock w)].
Proof.
  intros Hr Hi Ha. cbn [syncLoop].
  apply Nat.ltb_lt in Ha. rewrite Ha.
  pose proof (syncIteration_silent syncAttempts Hr Hi) as E.
  erewrite bind_pending by (now rewrite E).
  now rewrite E.
Qed.

(** A device that never answers hangs the upload.  With a port whose two
    streams are free and a first read that never settles, [uploadSketch]
    never settles either: the sync command is written once, one read is
    issued, and that is all -- the deadline of [readResponse] is looked at
    between reads only, so no timeout is raised, no failure is reported
    and [cleanup] does not run. *)
Theorem silent_device_hangs port options w rest :
  quietCallback options ->
  readable port = OpenStream ->
  writable port = OpenStream ->
  writeFaults w = [] ->
  inbox w = Never :: rest ->
  let r := uploadSketch port options w in
  outcome r = Pending
  /\ writes (emitted r) = [syncCommand]
  /\ length (readTimes (emitted r)) = 1
  /\ cancels (emitted r) = 0 /\ closes (emitted r) = 0
  /\ snapshots (emitted r)
     = match onProgress options with
       | Some _ => [mkProgress connecting 10 ConnectingToBootloader]
       | None => []
       end.
Proof.
  intros Q Hrs Hws Hf Hi. cbv zeta.
  set (w0 := set_port (Some port) w).
  destruct (@initializeConnection_spec (baudRate options) w0 port eq_refl)
    as (O0 & R0 & W0 & I0 & F0 & _ & _ & Rd0 & _).
  cbv zeta in *. rewrite Hrs, Hws in *. specialize (W0 ltac:(discriminate)).
  set (w1 := final (initializeConnection (baudRate options) w0)) in *.
  assert (Rdy : ready w1) by (repeat split; [exact R0 | exact W0 | now rewrite F0]).
  assert (I1 : inbox w1 = Never :: rest) by (rewrite I0; exact Hi).
  assert (E : enterProgrammingMode options w1 =
              mkRun Pending (set_inbox rest w1)
                (match onProgress options with
                 | Some _ => [EvProgress (mkProgress connecting 10 ConnectingToBootloader)]
                 | None => []
                 end ++ [EvWrite syncCommand; EvRead (clock w1)])).
  { unfold enterProgrammingMode.
    erewrite bind_returned by (rewrite notify_quiet by assumption; reflexivity).
    rewrite notify_quiet by assumption. cbn [final emitted].
    pose proof (@syncLoop_silent (length (inbox w1) + maxSyncAttempts) 0 w1 rest Rdy I1
                  ltac:(unfold maxSyncAttempts; lia)) as L.
    erewrite bind_pending by (unfold syncFuel; now rewrite L).
    unfold syncFuel. rewrite L. reflexivity. }
  assert (S : uploadSteps options w0 =
              mkRun Pending (set_inbox rest w1)
                (emitted (initializeConnection (baudRate options) w0)
                 ++ emitted (enterProgrammingMode options w1))).
  { unfold uploadSteps.
    erewrite bind_returned by exact O0. fold w1.
    erewrite bind_pending by (now rewrite E).
    rewrite E. reflexivity. }
  assert (O : outcome (uploadSketch port options w) = Pending).
  { rewrite uploadSketch_outcome. cbv zeta. fold w0. now rewrite S. }
  destruct (uploadSketch_pending _ _ _ O) as (_ & C1 & C2 & _).
  split; [exact O|].
  rewrite uploadSketch_emitted. cbv zeta. fold w0. rewrite S. cbn [outcome emitted].
  rewrite uploadSketch_emitted in C1, C2. cbv zeta in C1, C2. fold w0 in C1, C2.
  rewrite S in C1, C2. cbn [outcome emitted] in C1, C2.
  rewrite app_nil_r in *. rewrite E. cbn [emitted].
  rewrite !writes_app, !readTimes_app, !snapshots_app, initializeConnection_writes, Rd0.
  replace (snapshots (emitted (initializeConnection (baudRate options) w0)))
    with (@nil UploadProgress)
    by (symmetry; apply snapshots_none, Emits_initializeConnection; intros; exact I).
  rewrite E in C1, C2. cbn [emitted] in C1, C2.
  destruct (onProgress options); cbn; repeat split; assumption.
Qed.

(** The same with the uno options and a fresh uploader. *)
Example silent_device_hangs_witness :
  let r := uploadSketch freePort (recordingOptions []) (freshWorld [Never]) in
  outcome r = Pending
  /\ writes (emitted r) = [syncCommand]
  /\ length (readTimes (emitted r)) = 1
  /\ cancels (emitted r) = 0 /\ closes (emitted r) = 0
  /\ snapshots (emitted r) = [mkProgress connecting 10 ConnectingToBootloader].
Proof.
  apply (@silent_device_hangs freePort (recordingOptions []) (freshWorld [Never]) []).
  - intros p. reflexivity.
  - reflexivity.
  - reflexivity.
  - reflexivity.
  - reflexivity.
Defined.

(* ================================================================== *)
(** ** Well-formed records are sent as they are *)
(* ================================================================== *)

Lemma nibble_cases d :
  (0 <= d < 16)%Z ->
  d = 0%Z \/ d = 1%Z \/ d = 2%Z \/ d = 3%Z \/ d = 4%Z \/ d = 5%Z \/ d = 6%Z \/ d = 7%Z
  \/ d = 8%Z \/ d = 9%Z \/ d = 10%Z \/ d = 11%Z \/ d = 12%Z \/ d = 13%Z \/ d = 14%Z
  \/ d = 15%Z.
Proof. lia. Qed.

Ltac by_nibble H :=
  apply nibble_cases in H;
  repeat (destruct H as [-> | H]; [try reflexivity|]); try (subst; reflexivity).

Lemma hexDigit_hexChar d : (0 <= d < 16)%Z -> JS.hexDigit (hexChar d) = Some d.
Proof. intros H. by_nibble H. Qed.

Lemma hexChar_not_LF d : (0 <= d < 16)%Z -> Ascii.eqb (hexChar d) LF = false.
Proof. intros H. by_nibble H. Qed.

Lemma hexPrefix_digits d1 d2 rest :
  (0 <= d1 < 16)%Z -> (0 <= d2 < 16)%Z ->
  JS.hexPrefix (hexChar d1 :: hexChar d2 :: rest) = d1 :: d2 :: JS.hexPrefix rest.
Proof.
  intros H1 H2. cbn [JS.hexPrefix].
  now rewrite (hexDigit_hexChar H1), (hexDigit_hexChar H2).
Qed.

Ltac parse_prelude c :=
  unfold JS.parseInt16; cbn [JS.trimStart];
  replace (JS.isWhiteSpace c) with false by reflexivity;
  cbv beta iota zeta; reflexivity.

(** [parseInt] on a string that starts with two hexadecimal digits: no
    white space, no sign and no [0x] prefix are found. *)
Lemma parseInt16_prelude d1 d2 rest :
  (0 <= d1 < 16)%Z -> (0 <= d2 < 16)%Z ->
  JS.parseInt16 (hexChar d1 :: hexChar d2 :: rest)
  = match JS.hexPrefix (hexChar d1 :: hexChar d2 :: rest) with
    | [] => JS.NaN
    | digits => JS.num (1 * JS.hexValue digits)
    end.
Proof.
  intros H1 H2. apply nibble_cases in H1.
  destruct H1 as [-> | H1].
  { apply nibble_cases in H2. change (hexChar 0) with "0"%char.
    repeat (destruct H2 as [-> | H2];
            [match goal with
             | |- context [hexChar ?k] =>
                 let c := eval vm_compute in (hexChar k) in
                 change (hexChar k) with c
             end; parse_prelude "0"%char|]).
    subst d2. change (hexChar 15) with "F"%char. parse_prelude "0"%char. }
  repeat (destruct H1 as [-> | H1];
          [match goal with
           | |- context [hexChar (Zpos ?k)] =>
               let c := eval vm_compute in (hexChar (Zpos k)) in
               change (hexChar (Zpos k)) with c; parse_prelude c
           end|]).
  subst d1. change (hexChar 15) with "F"%char. parse_prelude "F"%char.
Qed.

Lemma parseInt16_digits d1 d2 rest :
  (0 <= d1 < 16)%Z -> (0 <= d2 < 16)%Z ->
  JS.parseInt16 (hexChar d1 :: hexChar d2 :: rest)
  = Some (JS.hexValue (d1 :: d2 :: JS.hexPrefix rest)).
Proof.
  intros H1 H2. rewrite parseInt16_prelude, hexPrefix_digits by assumption.
  unfold JS.num. now rewrite Z.mul_1_l.
Qed.

Lemma nibbles b : (0 <= b < 256)%Z -> (0 <= b / 16 < 16)%Z /\ (0 <= b mod 16 < 16)%Z.
Proof.
  intros H. split.
  - split; [apply Z.div_pos; lia | apply Z.div_lt_upper_bound; lia].
  - apply Z.mod_pos_bound. lia.
Qed.

Lemma parseInt16_hexByte b rest :
  (0 <= b < 256)%Z ->
  JS.hexPrefix rest = [] ->
  JS.parseInt16 (hexByte b ++ rest) = Some b.
Proof.
  intros H R. destruct (nibbles H) as [Hh Hl].
  unfold hexByte. cbn [app]. rewrite parseInt16_digits, R by assumption.
  unfold JS.hexValue. cbn [fold_left]. f_equal.
  pose proof (Z.div_mod b 16). lia.
Qed.

Lemma parseInt16_hexWord a :
  (0 <= a < 65536)%Z ->
  JS.parseInt16 (hexWord a) = Some a.
Proof.
  intros H.
  assert (Hh : (0 <= a / 256 < 256)%Z)
    by (split; [apply Z.div_pos; lia | apply Z.div_lt_upper_bound; lia]).
  assert (Hl : (0 <= a mod 256 < 256)%Z) by (apply Z.mod_pos_bound; lia).
  destruct (nibbles Hh) as [H1 H2]. destruct (nibbles Hl) as [H3 H4].
  unfold hexWord, hexByte. cbn [app].
  rewrite parseInt16_digits, hexPrefix_digits by assumption.
  unfold JS.hexValue. cbn [fold_left JS.hexPrefix]. f_equal.
  pose proof (Z.div_mod a 256). pose proof (Z.div_mod (a / 256) 16).
  pose proof (Z.div_mod (a mod 256) 16). lia.
Qed.

Lemma hexByte_length b : length (hexByte b) = 2.
Proof. reflexivity. Qed.

Lemma flat_hexByte_length data : length (flat_map hexByte data) = 2 * length data.
Proof.
  induction data as [|b data IH]; [reflexivity|].
  cbn [flat_map length]. rewrite length_app, hexByte_length, IH. lia.
Qed.

Lemma dataRecord_length record :
  length (dataRecord record) = 11 + 2 * length (payload record).
Proof.
  unfold dataRecord, hexWord. cbn [length].
  rewrite !length_app, flat_hexByte_length, !hexByte_length. lia.
Qed.

Lemma substr_at {A} (pre body rest : list A) start len :
  length pre = start -> length body = len ->
  firstn len (skipn start (pre ++ body ++ rest)) = body.
Proof.
  intros <- <-. rewrite skipn_app, skipn_all, Nat.sub_diag. cbn [skipn app].
  rewrite firstn_app, firstn_all, Nat.sub_diag. cbn [firstn]. apply app_nil_r.
Qed.

(** The payload is read back byte by byte. *)
Lemma dataOf_payload checksumChars : forall data pre,
  Forall (fun b => (0 <= b < 256)%Z) data ->
  map (fun j => JS.parseInt16 (JS.substr (pre ++ flat_map hexByte data ++ checksumChars)
                                         (length pre + j * 2) 2))
      (seq 0 (length data))
  = map JS.num data.
Proof.
  induction data as [|b data IH]; intros pre H; [reflexivity|].
  inversion H as [|b' data' Hb Hd]; subst.
  cbn [length seq map flat_map]. f_equal.
  - unfold JS.substr. rewrite Nat.add_0_r, <- app_assoc.
    rewrite (@substr_at _ pre (hexByte b) _ (length pre) 2) by reflexivity.
    rewrite <- (app_nil_r (hexByte b)). now apply parseInt16_hexByte.
  - rewrite <- seq_shift, map_map.
    rewrite <- (IH (pre ++ hexByte b) Hd).
    apply map_ext. intros j.
    replace (length pre + S j * 2) with (length (pre ++ hexByte b) + j * 2)
      by (rewrite length_app, hexByte_length; lia).
    now rewrite <- !app_assoc.
Qed.

(** The fields the loader finds in a well-formed record. *)
Lemma dataRecord_fields record :
  wellFormed record ->
  let line := dataRecord record in
  dataLengthOf line = JS.num (Z.of_nat (length (payload record)))
  /\ recordTypeOf line = JS.num 0
  /\ recordAddressOf line = JS.num (address record)
  /\ dataOf line (dataLengthOf line) = map JS.num (payload record).
Proof.
  intros (Ha & Hn & Hd & Hc). cbv zeta.
  set (n := Z.of_nat (length (payload record))).
  assert (Hn' : (0 <= n < 256)%Z) by (unfold n; lia).
  assert (L : dataLengthOf (dataRecord record) = JS.num n).
  { unfold dataLengthOf, JS.substr, dataRecord. fold n.
    change (":"%char :: hexByte n ++ ?r) with ([":"%char] ++ hexByte n ++ r).
    rewrite (@substr_at _ [":"%char] (hexByte n) _ 1 2) by reflexivity.
    rewrite <- (app_nil_r (hexByte n)). now apply parseInt16_hexByte. }
  split; [exact L|]. split; [|split].
  - unfold recordTypeOf, JS.substr, dataRecord. fold n.
    change (":"%char :: hexByte n ++ hexWord (address record) ++ hexByte 0 ++ ?r)
      with ((":"%char :: hexByte n ++ hexWord (address record)) ++ hexByte 0 ++ r).
    rewrite (@substr_at _ _ (hexByte 0) _ 7 2) by reflexivity. reflexivity.
  - unfold recordAddressOf, JS.substr, dataRecord. fold n.
    change (":"%char :: hexByte n ++ hexWord (address record) ++ ?r)
      with ((":"%char :: hexByte n) ++ hexWord (address record) ++ r).
    rewrite (@substr_at _ _ (hexWord (address record)) _ 3 4) by reflexivity.
    now apply parseInt16_hexWord.
  - rewrite L. unfold dataOf, JS.iterations, JS.num, n. rewrite Nat2Z.id.
    unfold dataRecord. fold n.
    change (":"%char :: hexByte n ++ hexWord (address record) ++ hexByte 0 ++ ?r)
      with ((":"%char :: hexByte n ++ hexWord (address record) ++ hexByte 0) ++ r).
    apply (@dataOf_payload (hexByte (checksum record)) (payload record)
             (":"%char :: hexByte n ++ hexWord (address record) ++ hexByte 0) Hd).
Qed.

Lemma dataRecord_commands record :
  wellFormed record ->
  isDataRecord (dataRecord record) = true
  /\ pageCommands (dataRecord record) = recordCommands record.
Proof.
  intros W. destruct (dataRecord_fields W) as (L & T & A & D). cbv zeta in *.
  destruct W as (Ha & Hn & Hd & Hc).
  assert (I : isDataRecord (dataRecord record) = true).
  { unfold isDataRecord. rewrite dataRecord_length, L, T.
    cbn [JS.strictEq JS.gt JS.num]. rewrite Z.eqb_refl.
    replace (0 <? Z.of_nat (length (payload record)))%Z with true
      by (symmetry; apply Z.ltb_lt; lia).
    replace (11 <=? 11 + 2 * length (payload record)) with true
      by (symmetry; apply Nat.leb_le; lia).
    reflexivity. }
  split; [exact I|].
  unfold pageCommands. rewrite I, A, D.
  unfold recordCommands, loadAddressCommand, progPageCommand, JS.num, lowByte, highByte.
  rewrite length_map, map_map.
  replace (map (fun x => JS.toUint8 (Some x)) (payload record)) with (payload record).
  - rewrite (Z.mod_small (address record / 256))
      by (split; [apply Z.div_pos; lia | apply Z.div_lt_upper_bound; lia]).
    rewrite (Z.div_small (Z.of_nat (length (payload record)))) by lia.
    rewrite (Z.mod_small (Z.of_nat (length (payload record)))) by lia.
    reflexivity.
  - symmetry. rewrite <- (map_id (payload record)) at 2.
    apply map_ext_Forall. revert Hd. apply Forall_impl. intros b Hb.
    cbn [JS.toUint8]. apply Z.mod_small. exact Hb.
Qed.

Lemma hexChar_plain d : Ascii.eqb (hexChar d) LF = false.
Proof.
  unfold hexChar. generalize (Z.to_nat d) as n. intros n.
  do 16 (destruct n as [|n]; [reflexivity|]).
  destruct n; reflexivity.
Qed.

Lemma hexByte_plain b : forallb (fun c => negb (Ascii.eqb c LF)) (hexByte b) = true.
Proof. unfold hexByte. cbn [forallb]. now rewrite !hexChar_plain. Qed.

Lemma dataRecord_plain record :
  forallb (fun c => negb (Ascii.eqb c LF)) (dataRecord record) = true.
Proof.
  unfold dataRecord, hexWord. cbn [forallb].
  rewrite !forallb_app, !hexByte_plain. cbn [andb negb].
  replace (Ascii.eqb ":" LF) with false by reflexivity. cbn [negb andb].
  rewrite andb_true_r.
  induction (payload record) as [|b data IH]; [reflexivity|].
  cbn [flat_map]. now rewrite forallb_app, hexByte_plain, IH.
Qed.

(** [split] on a text whose first line holds no line feed. *)
Lemma split_line line rest :
  forallb (fun c => negb (Ascii.eqb c LF)) line = true ->
  JS.split LF (line ++ LF :: rest) = line :: JS.split LF rest.
Proof.
  induction line as [|c line IH]; cbn [forallb app JS.split]; intros H.
  - now rewrite Ascii.eqb_refl.
  - apply andb_prop in H. destruct H as [Hc Hl].
    apply negb_true_iff in Hc. rewrite Hc, (IH Hl). reflexivity.
Qed.

Lemma dataRecord_kept record : keptLine (dataRecord record) = true.
Proof.
  unfold keptLine. replace (JS.startsWith (dataRecord record) [":"%char]) with true
    by reflexivity.
  rewrite andb_true_r. now apply marker_truthy.
Qed.

Lemma hexLinesOf_hexFile records :
  hexLinesOf (hexFile records) = map dataRecord records ++ [endOfFile].
Proof.
  unfold hexLinesOf, hexFile. fold LF.
  induction records as [|record records IH].
  - reflexivity.
  - cbn [flat_map map]. rewrite <- !app_assoc. cbn [app].
    rewrite split_line by apply dataRecord_plain.
    cbn [filter]. rewrite dataRecord_kept. cbn [app]. f_equal.
    rewrite <- IH. reflexivity.
Qed.

Lemma plannedWrites_hexFile records :
  Forall wellFormed records ->
  plannedWrites (hexLinesOf (hexFile records)) = flat_map recordCommands records.
Proof.
  intros W. rewrite hexLinesOf_hexFile, plannedWrites_app.
  replace (plannedWrites [endOfFile]) with (@nil (list Z)) by reflexivity.
  rewrite app_nil_r.
  unfold plannedWrites.
  induction W as [|record records Hr _ IH]; [reflexivity|].
  cbn [map flat_map].
  destruct (dataRecord_commands Hr) as [_ ->]. now rewrite IH.
Qed.

(** A well-formed Intel-HEX file is programmed record by record, as it is
    written: on a device that acknowledges every command, the upload of
    the file made of the data records [records] and of the end-of-file
    record succeeds, and what it writes after the sync and enter commands
    is, for each record in order, the load-address command with the
    address of the record (low byte first) and the program-page command
    with the byte count and the payload of the record, unchanged; then the
    leave command.  The end-of-file record sends nothing, and the checksum
    byte of a record may be any byte. *)
Theorem well_formed_file_is_programmed (records : list HexRecord) (elapsed : Z) :
  Forall wellFormed records ->
  let hexData := hexFile records in
  let acknowledgements := repeat (ack elapsed) (5 + 2 * length records) in
  let r := uploadSketch freePort (recordingOptions hexData) (freshWorld acknowledgements) in
  outcome r = Returned true
  /\ writes (emitted r) =
     [syncCommand; enterProgmodeCommand]
     ++ flat_map recordCommands records ++ [leaveProgmodeCommand]
  /\ Forall2 (fun record line =>
                recordAddressOf line = JS.num (address record)
                /\ dataOf line (dataLengthOf line) = map JS.num (payload record))
             records (removelast (hexLinesOf hexData)).
Proof.
  intros W. cbv zeta.
  set (text := hexFile records).
  set (options := recordingOptions text).
  set (n := length (hexLinesOf text)).
  assert (N : 5 + 2 * length records = 3 + 2 * n).
  { unfold n, text. rewrite hexLinesOf_hexFile, length_app, length_map. simpl. lia. }
  rewrite N.
  set (w := freshWorld (repeat (ack elapsed) (3 + 2 * n))).
  assert (Q : quietCallback options) by (intros p; reflexivity).
  destruct (initializeConnection_free (baudRate options) (repeat (ack elapsed) (3 + 2 * n)))
    as (O0 & W0 & F0).
  fold w in O0, W0, F0.
  assert (S0 : stocked elapsed (3 + 2 * n)
                 (final (initializeConnection (baudRate options) (set_port (Some freePort) w)))).
  { rewrite F0. split; [repeat split|]. exists (3 + 2 * n). split; [lia | reflexivity]. }
  destruct (@uploadSteps_stocked options elapsed (set_port (Some freePort) w) Q)
    as [O Wr]; try assumption.
  assert (O' : outcome (uploadSketch freePort options w) = Returned true).
  { rewrite uploadSketch_outcome. cbv zeta. now rewrite O. }
  split; [exact O'|]. split.
  - rewrite uploadSketch_writes_all, Wr.
    change (hexData options) with (hexFile records).
    now rewrite plannedWrites_hexFile.
  - unfold text. rewrite hexLinesOf_hexFile, removelast_last.
    clear -W. induction W as [|record records Hr _ IH]; [constructor|].
    cbn [map]. constructor; [|exact IH].
    destruct (dataRecord_fields Hr) as (_ & _ & A & D). split; assumption.
Qed.

(** The same for a file of two records, of four bytes at 0x0000 and of
    one byte at 0x0100. *)
Example well_formed_file_is_programmed_witness :
  let records := [mkRecord 0 [12; 148; 52; 0] 28; mkRecord 256 [255] 0]%Z in
  let r := uploadSketch freePort (recordingOptions (hexFile records))
                        (freshWorld (repeat (ack 1) 9)) in
  Forall wellFormed records
  /\ hexFile records
     = textOfLines [":040000000C9434001C"; ":01010000FF00"; ":00000001FF"]%string
  /\ outcome r = Returned true
  /\ writes (emitted r) =
     [[0x30; 0x20]; [0x50; 0x20];
      [0x55; 0; 0; 0x20]; [0x64; 0; 4; 0x46; 12; 148; 52; 0; 0x20];
      [0x55; 0; 1; 0x20]; [0x64; 0; 1; 0x46; 255; 0x20];
      [0x51; 0x20]]%Z.
Proof.
  cbv zeta.
  assert (W : Forall wellFormed [mkRecord 0 [12; 148; 52; 0] 28; mkRecord 256 [255] 0]%Z).
  { repeat constructor; cbn; lia. }
  split; [exact W|]. split; [reflexivity|].
  destruct (@well_formed_file_is_programmed
              [mkRecord 0 [12; 148; 52; 0] 28; mkRecord 256 [255] 0]%Z 1 W)
    as (O & Wr & _).
  split; [exact O | exact Wr].
Defined.

(* ================================================================== *)
(** ** More on [initializeConnection] and [readResponse] *)
(* ================================================================== *)

(** How [initializeConnection] ends depends on the streams of the port and
    on nothing else: it throws when a stream is locked and returns
    otherwise, whether the port offers [setSignals] or not and whatever
    the calls of [setSignals] do (a reset that fails is logged and
    forgotten).  The reader and the writer are taken from the streams that
    exist; for a stream that is missing the field keeps the value it had.
    The last thing waited for is the bootloader delay of 2000 ms, and
    nothing is read. *)
Theorem initializeConnection_outcome baud w port :
  this_port w = Some port ->
  let r := initializeConnection baud w in
  outcome r = match readable port, writable port with
              | LockedStream, _ => Thrown (TransportFailure OpGetReader)
              | _, LockedStream => Thrown (TransportFailure OpGetWriter)
              | _, _ => Returned tt
              end
  /\ this_reader (final r) = acquired (readable port) TheReader (this_reader w)
  /\ (readable port <> LockedStream ->
      this_writer (final r) = acquired (writable port) TheWriter (this_writer w))
  /\ readTimes (emitted r) = []
  /\ exists before, delays (emitted r) = before ++ [2000%Z].
Proof.
  intros H. cbv zeta.
  destruct (@initializeConnection_spec baud w port H) as (O & R & W & _ & _ & _ & _ & Rd & D).
  repeat split; assumption.
Qed.

(** The same on a port without [setSignals] whose writable stream is
    missing, for an uploader that holds a writer from an earlier run. *)
Example initializeConnection_outcome_witness :
  let port := mkPort false OpenStream NoStream in
  let w := mkWorld (Some port) None (Some TheWriter) 0 [] [] [] false false in
  let r := initializeConnection 115200 w in
  outcome r = Returned tt
  /\ this_reader (final r) = Some TheReader
  /\ (readable port <> LockedStream -> this_writer (final r) = Some TheWriter)
  /\ readTimes (emitted r) = []
  /\ exists before, delays (emitted r) = before ++ [2000%Z].
Proof.
  exact (@initializeConnection_outcome 115200
           (mkWorld (Some (mkPort false OpenStream NoStream)) None (Some TheWriter)
                    0 [] [] [] false false)
           (mkPort false OpenStream NoStream) eq_refl).
Defined.

(** The bytes of a chunk that come after the expected length are lost.
    When the first pending read yields at least the expected number of
    bytes, [readResponse] returns the first ones after that single read,
    and what is left for the next call is the next pending read: the
    surplus of the chunk is in no later response. *)
Theorem readResponse_drops_surplus expectedLength w elapsed value rest :
  this_reader w <> None ->
  inbox w = Chunk elapsed value :: rest ->
  0 < expectedLength <= length value ->
  readResponse expectedLength w
  = mkRun (Returned (firstn expectedLength value))
          (tick elapsed (set_inbox rest w)) [EvRead (clock w)].
Proof.
  intros Hr Hi Hl.
  unfold readResponse, getReader, bind, ret. cbn [outcome final emitted after].
  destruct (this_reader w) as [rd|]; [|congruence]. cbn [app].
  rewrite Hi. cbn [readLoop length].
  replace (0 <? expectedLength) with true by (symmetry; apply Nat.ltb_lt; lia).
  replace (clock w <? clock w + 5000)%Z with true by (symmetry; apply Z.ltb_lt; lia).
  cbn [andb]. rewrite pushBytes_fill by (simpl; lia). cbn [app length].
  rewrite Nat.sub_0_r.
  rewrite readLoop_full by (rewrite length_firstn; lia).
  reflexivity.
Qed.

(** Two replies that arrive in one chunk: the first response is read, the
    second one is lost and the next read finds the stream closed. *)
Example readResponse_drops_surplus_witness :
  let w := connectedWorld [Chunk 1 [0x14; 0x10; 0x14; 0x10]%Z] in
  readResponse 2 w
  = mkRun (Returned [0x14; 0x10]%Z) (tick 1 (set_inbox [] w)) [EvRead 0]
  /\ outcome (readResponse 2 (tick 1 (set_inbox [] w))) = Thrown (ResponseTimeout 2 0).
Proof.
  cbv zeta. split; [|reflexivity].
  apply (@readResponse_drops_surplus 2
           (connectedWorld [Chunk 1 [0x14; 0x10; 0x14; 0x10]%Z]) 1
           [0x14; 0x10; 0x14; 0x10]%Z []).
  - discriminate.
  - reflexivity.
  - simpl. lia.
Defined.

(* ================================================================== *)
(** * Properties of the serial monitor *)
(* ================================================================== *)

Module SerialServiceFacts.
Import SerialService.
Local Open Scope task_scope.

(** ** Laws of runs *)

Lemma task_bind_outcome {A B} (m : Task A) (k : A -> Task B) s :
  outcome (bind m k s) =
  match outcome (m s) with
  | Returned a => outcome (k a (final (m s)))
  | Thrown cause => Thrown cause
  end.
Proof. unfold bind. destruct (outcome (m s)); reflexivity. Qed.

Lemma task_bind_emitted {A B} (m : Task A) (k : A -> Task B) s :
  emitted (bind m k s) =
  emitted (m s) ++
  match outcome (m s) with
  | Returned a => emitted (k a (final (m s)))
  | Thrown _ => []
  end.
Proof. unfold bind. destruct (outcome (m s)); simpl; now rewrite ?app_nil_r. Qed.

Lemma task_bind_final {A B} (m : Task A) (k : A -> Task B) s :
  final (bind m k s) =
  match outcome (m s) with
  | Returned a => final (k a (final (m s)))
  | Thrown _ => final (m s)
  end.
Proof. unfold bind. destruct (outcome (m s)); reflexivity. Qed.

Lemma service_writes_app a b : writes (a ++ b) = writes a ++ writes b.
Proof. apply flat_map_app. Qed.

Lemma deliveries_app a b : deliveries (a ++ b) = deliveries a ++ deliveries b.
Proof. apply flat_map_app. Qed.

Lemma portCalls_app a b : portCalls (a ++ b) = portCalls a ++ portCalls b.
Proof. apply filter_app. Qed.

Lemma reads_app a b : reads (a ++ b) = reads a + reads b.
Proof. unfold reads. now rewrite filter_app, length_app. Qed.

(** ** Notifications *)

Lemma toAll_writes listeners delivered : writes (toAll listeners delivered) = [].
Proof. induction listeners as [|l rest IH]; [reflexivity | exact IH]. Qed.

Lemma toAll_portCalls listeners delivered : portCalls (toAll listeners delivered) = [].
Proof. induction listeners as [|l rest IH]; [reflexivity | exact IH]. Qed.

Lemma toAll_reads listeners delivered : reads (toAll listeners delivered) = 0.
Proof. induction listeners as [|l rest IH]; [reflexivity | exact IH]. Qed.

Lemma toAll_deliveries listeners delivered :
  deliveries (toAll listeners delivered) = map (fun l => (l, delivered)) listeners.
Proof.
  induction listeners as [|l rest IH]; [reflexivity|].
  unfold toAll, deliveries in *. cbn [map flat_map app]. now rewrite IH.
Qed.

Lemma callListener_run delivered listener s :
  callListener delivered listener s
  = mkRun (if raises s listener delivered then Thrown ListenerThrew else Returned tt)
          s [EvListener listener delivered].
Proof.
  unfold callListener, bind, emit. cbn [outcome final emitted after].
  destruct (raises s listener delivered); reflexivity.
Qed.

(** A notification, whatever the listeners do. *)
Lemma forEach_listeners_run delivered s : forall listeners,
  forEach listeners (callListener delivered) s
  = mkRun (if existsb (fun l => raises s l delivered) listeners
           then Thrown ListenerThrew else Returned tt)
          s
          (toAll (calledListeners (fun l => raises s l delivered) listeners) delivered).
Proof.
  induction listeners as [|listener rest IH]; [reflexivity|].
  cbn [forEach existsb calledListeners toAll map].
  unfold bind. rewrite callListener_run. cbn [outcome final emitted].
  destruct (raises s listener delivered); cbn [outcome final emitted after app orb].
  - reflexivity.
  - rewrite IH. reflexivity.
Qed.

Lemma notifyListeners_run delivered s :
  notifyListeners delivered s
  = mkRun (if existsb (fun l => raises s l delivered) (messageListeners s)
           then Thrown ListenerThrew else Returned tt)
          s
          (toAll (calledListeners (fun l => raises s l delivered) (messageListeners s))
                 delivered).
Proof. unfold notifyListeners. apply forEach_listeners_run. Qed.

(** A notification calls the listeners in the order of their
    registration and stops at the first one that throws: the listeners
    registered after it do not get the message, and the exception goes to
    the caller.  Nothing else happens. *)
Theorem notifyListeners_stops_at_throw (delivered : SerialMessage) (s : Service) :
  let r := notifyListeners delivered s in
  let throws := fun listener => raises s listener delivered in
  emitted r = toAll (calledListeners throws (messageListeners s)) delivered
  /\ outcome r = (if existsb throws (messageListeners s)
                  then Thrown ListenerThrew else Returned tt)
  /\ final r = s
  /\ (forall before thrower rest,
        messageListeners s = before ++ thrower :: rest ->
        existsb throws before = false ->
        throws thrower = true ->
        deliveries (emitted r) = map (fun l => (l, delivered)) (before ++ [thrower])).
Proof.
  cbv zeta. rewrite notifyListeners_run. cbn [outcome final emitted].
  repeat split.
  intros before thrower rest L B T. rewrite L, toAll_deliveries. f_equal.
  clear L. induction before as [|l before IH]; cbn [app calledListeners].
  - now rewrite T.
  - cbn [existsb] in B. apply orb_false_elim in B. destruct B as [Bl B].
    rewrite Bl. f_equal. now apply IH.
Qed.

(** ** The registry of listeners *)

Lemma indexOf_absent callback : forall listeners,
  ~ In callback listeners -> indexOf listeners callback = (-1)%Z.
Proof.
  induction listeners as [|l rest IH]; [reflexivity|].
  cbn [indexOf In]. intros H.
  destruct (Nat.eqb_spec l callback) as [E | N]; [tauto|].
  rewrite IH by tauto. reflexivity.
Qed.

Lemma indexOf_first callback : forall before after,
  ~ In callback before ->
  indexOf (before ++ callback :: after) callback = Z.of_nat (length before).
Proof.
  induction before as [|l before IH]; intros after H; cbn [app indexOf length].
  - now rewrite Nat.eqb_refl.
  - cbn [In] in H. destruct (Nat.eqb_spec l callback) as [E | N]; [tauto|].
    rewrite IH by tauto.
    destruct (Z.eqb_spec (Z.of_nat (length before)) (-1)); lia.
Qed.

Lemma splice_at (before after : list Listener) callback :
  splice (before ++ callback :: after) (Z.of_nat (length before)) = before ++ after.
Proof.
  unfold splice. rewrite Nat2Z.id.
  rewrite firstn_app, firstn_all, Nat.sub_diag. cbn [firstn]. rewrite app_nil_r.
  f_equal.
  replace (S (length before)) with (length before + 1) by lia.
  rewrite skipn_app, skipn_all2 by lia.
  replace (length before + 1 - length before) with 1 by lia. reflexivity.
Qed.

(** [removeMessageListener] removes the first registration of the
    callback and no other, keeps the order of the listeners that stay, and
    does nothing when the callback is not registered.  Right after
    [addMessageListener] of a callback that was not registered it gives
    the service back as it was. *)
Theorem removeMessageListener_first (callback : Listener) (s : Service) :
  let r := removeMessageListener callback s in
  outcome r = Returned tt
  /\ emitted r = []
  /\ (~ In callback (messageListeners s) -> final r = s)
  /\ (forall before after,
        messageListeners s = before ++ callback :: after ->
        ~ In callback before ->
        final r = set_messageListeners (before ++ after) s)
  /\ (~ In callback (messageListeners s) ->
      final (removeMessageListener callback (final (addMessageListener callback s))) = s).
Proof.
  cbv zeta. unfold removeMessageListener. cbv zeta.
  split; [|split; [|split; [|split]]].
  - destruct (indexOf (messageListeners s) callback >? -1)%Z; reflexivity.
  - destruct (indexOf (messageListeners s) callback >? -1)%Z; reflexivity.
  - intros H. now rewrite indexOf_absent by assumption.
  - intros before after L H. rewrite L, indexOf_first by assumption.
    replace (Z.of_nat (length before) >? -1)%Z with true
      by (symmetry; apply Z.gtb_lt; lia).
    cbn [update final]. now rewrite splice_at.
  - intros H. unfold addMessageListener. cbn [update final set_messageListeners messageListeners].
    rewrite <- (app_nil_r (messageListeners s ++ [callback])), <- app_assoc.
    cbn [app]. rewrite indexOf_first by assumption.
    replace (Z.of_nat (length (messageListeners s)) >? -1)%Z with true
      by (symmetry; apply Z.gtb_lt; lia).
    cbn [update final]. rewrite splice_at, app_nil_r.
    destruct s; reflexivity.
Qed.



(** ** Runs, step by step *)

Lemma runs_ret {A} (a : A) s : runs (ret a) s (Returned a) s [].
Proof. reflexivity. Qed.

Lemma runs_throw {A} cause s : runs (@throw A cause) s (Thrown cause) s [].
Proof. reflexivity. Qed.

Lemma runs_emit ev s : runs (emit ev) s (Returned tt) s [ev].
Proof. reflexivity. Qed.

Lemma runs_update f s : runs (update f) s (Returned tt) (f s) [].
Proof. reflexivity. Qed.

Lemma runs_bind {A B} (m : Task A) (k : A -> Task B) s a s1 e1 result s2 e2 :
  runs m s (Returned a) s1 e1 ->
  runs (k a) s1 result s2 e2 ->
  runs (bind m k) s result s2 (e1 ++ e2).
Proof.
  unfold runs, bind. intros -> H. cbn [outcome final emitted]. now rewrite H.
Qed.

Lemma runs_bind_thrown {A B} (m : Task A) (k : A -> Task B) s cause s1 e1 :
  runs m s (Thrown cause) s1 e1 ->
  runs (bind m k) s (Thrown cause) s1 e1.
Proof. unfold runs, bind. now intros ->. Qed.

Lemma runs_tryCatch {A} (body : Task A) handler s a s1 e1 :
  runs body s (Returned a) s1 e1 ->
  runs (tryCatch body handler) s (Returned a) s1 e1.
Proof. unfold runs, tryCatch. now intros ->. Qed.

Lemma runs_tryCatch_thrown {A} (body : Task A) handler s cause s1 e1 result s2 e2 :
  runs body s (Thrown cause) s1 e1 ->
  runs (handler cause) s1 result s2 e2 ->
  runs (tryCatch body handler) s result s2 (e1 ++ e2).
Proof.
  unfold runs, tryCatch. intros -> H. cbn [outcome final emitted]. now rewrite H.
Qed.

Lemma runs_detach {A} (task : Task A) s result s1 e1 :
  runs task s result s1 e1 ->
  runs (detach task) s (Returned tt) s1 e1.
Proof. unfold runs, detach. now intros ->. Qed.

Lemma runs_thisPort s : runs thisPort s (Returned (port s)) s [].
Proof. reflexivity. Qed.

Lemma runs_thisReader s : runs thisReader s (Returned (reader s)) s [].
Proof. reflexivity. Qed.

Lemma runs_thisWriter s : runs thisWriter s (Returned (writer s)) s [].
Proof. reflexivity. Qed.

Lemma runs_thisIsConnected s : runs thisIsConnected s (Returned (isConnected s)) s [].
Proof. reflexivity. Qed.

Lemma runs_attempt op ev s :
  succeeds op s -> runs (attempt op ev) s (Returned tt) (consume op s) [ev].
Proof.
  unfold succeeds, runs, attempt, bind, emit, update.
  cbn [outcome final emitted after]. intros ->. reflexivity.
Qed.

Lemma runs_attempt_rejected op ev s :
  rejects op s -> runs (attempt op ev) s (Thrown (Rejected op)) (consume op s) [ev].
Proof.
  unfold rejects, runs, attempt, bind, emit, update.
  cbn [outcome final emitted after]. intros ->. reflexivity.
Qed.

Lemma calledListeners_quiet throws listeners :
  existsb throws listeners = false -> calledListeners throws listeners = listeners.
Proof.
  induction listeners as [|l rest IH]; [reflexivity|].
  cbn [existsb calledListeners]. intros H. apply orb_false_elim in H.
  destruct H as [-> H]. now rewrite IH.
Qed.

Lemma runs_notify_all delivered s :
  existsb (fun l => raises s l delivered) (messageListeners s) = false ->
  runs (notifyListeners delivered) s (Returned tt) s (toAll (messageListeners s) delivered).
Proof.
  intros H. unfold runs. rewrite notifyListeners_run, H, calledListeners_quiet by assumption.
  reflexivity.
Qed.

Lemma quiet_existsb s delivered listeners :
  quiet s -> existsb (fun l => raises s l delivered) listeners = false.
Proof.
  intros Q. induction listeners as [|l rest IH]; [reflexivity|].
  cbn [existsb]. now rewrite Q, IH.
Qed.

Lemma runs_guarded_suspended stretch s s1 e1 :
  runs (tryCatch stretch (fun cause => readingFailed cause ;; ret Ended)) s
       (Returned Suspended) s1 e1 ->
  runs (guarded stretch) s (Returned Suspended) s1 e1.
Proof. unfold runs, guarded. now intros ->. Qed.

Lemma runs_guarded_ended stretch s result s1 e1 s2 e2 :
  runs (tryCatch stretch (fun cause => readingFailed cause ;; ret Ended)) s result s1 e1 ->
  result <> Returned Suspended ->
  runs releaseReader s1 (Returned tt) s2 e2 ->
  runs (guarded stretch) s result s2 (e1 ++ e2).
Proof.
  unfold runs, guarded. intros -> N R. cbn [outcome final emitted]. rewrite R.
  destruct result as [[]|cause]; [congruence | reflexivity | reflexivity].
Qed.

Lemma runs_forEach_lines (rendered : text -> text) type s : forall lines,
  quiet s ->
  runs (forEach lines (fun line => notifyMessage (rendered line) type)) s (Returned tt) s
       (flat_map (fun line => toAll (messageListeners s)
                                    (mkMessage (Line (rendered line)) type)) lines).
Proof.
  intros lines Q. induction lines as [|line rest IH]; [reflexivity|].
  cbn [forEach flat_map]. eapply runs_bind; [|exact IH].
  unfold notifyMessage. apply runs_notify_all. now apply quiet_existsb.
Qed.

Ltac fields :=
  cbv beta;
  cbn [port reader writer isConnected messageListeners hasSerial encode decode raises
       grants faults set_port set_reader set_writer set_isConnected
       set_messageListeners set_grants set_faults consume sameOperation
       hasSetSignals readable writable negb andb orb].

Ltac quietness :=
  first [assumption | intros ? ?; fields; auto].

Ltac verdict :=
  unfold succeeds, rejects in *; fields; first [assumption | reflexivity].

Ltac fold_runs :=
  lazymatch goal with
  | |- ?task ?s = mkRun ?result ?s' ?evs => change (runs task s result s' evs)
  end.

(** The run of a task from a service whose fields are known, one step
    after the other. *)
Ltac run :=
  fields;
  lazymatch goal with
  | |- runs (ret _) _ _ _ _ => apply runs_ret
  | |- runs (throw _) _ _ _ _ => apply runs_throw
  | |- runs (emit _) _ _ _ _ => apply runs_emit
  | |- runs (delay _) _ _ _ _ => apply runs_emit
  | |- runs (warn _) _ _ _ _ => apply runs_emit
  | |- runs (update _) _ _ _ _ => apply runs_update
  | |- runs thisPort _ _ _ _ => apply runs_thisPort
  | |- runs thisReader _ _ _ _ => apply runs_thisReader
  | |- runs thisWriter _ _ _ _ => apply runs_thisWriter
  | |- runs thisIsConnected _ _ _ _ => apply runs_thisIsConnected
  | |- runs isWebSerialSupported _ _ _ _ => reflexivity
  | |- runs (bind _ _) _ _ _ _ =>
      first [ eapply runs_bind; [run | run] | eapply runs_bind_thrown; run ]
  | |- runs (tryCatch _ _) _ _ _ _ =>
      first [ eapply runs_tryCatch; run | eapply runs_tryCatch_thrown; [run | run] ]
  | |- runs (detach _) _ _ _ _ => eapply runs_detach; run
  | |- runs (attempt _ _) _ _ _ _ =>
      first [ apply runs_attempt; verdict | apply runs_attempt_rejected; verdict ]
  | |- runs (notifyListeners _) _ _ _ _ =>
      apply runs_notify_all; apply quiet_existsb; quietness
  | |- runs (notifyError _) _ _ _ _ => unfold notifyError; run
  | |- runs (notifyInfo _) _ _ _ _ => unfold notifyInfo; run
  | |- runs (notifyMessage _ _) _ _ _ _ => unfold notifyMessage; run
  | |- runs (sendMessage _) _ _ _ _ => unfold sendMessage; run
  | |- runs disconnect _ _ _ _ => unfold disconnect; run
  | |- runs (connect _) _ _ _ _ => unfold connect; run
  | |- runs requestPort _ _ _ _ => unfold requestPort; run
  | |- runs resetArduino _ _ _ _ => unfold resetArduino; run
  | |- runs setupWriter _ _ _ _ => unfold setupWriter; run
  | |- runs detectArduino _ _ _ _ => unfold detectArduino; run
  | |- runs (forEach _ (fun line => notifyMessage _ _)) _ _ _ _ =>
      apply runs_forEach_lines; quietness
  | |- runs navigatorRequestPort _ _ _ _ => unfold navigatorRequestPort; run
  | |- runs startReading _ _ _ _ => unfold startReading; run
  | |- runs (resumeReading _) _ _ _ _ => unfold resumeReading; run
  | |- runs awaitRead _ _ _ _ => unfold awaitRead; run
  | |- runs (readingFailed _) _ _ _ _ => unfold readingFailed; run
  | |- runs releaseReader _ _ _ _ => unfold releaseReader; run
  | |- runs (guarded _) _ _ _ _ =>
      first [ eapply runs_guarded_suspended; run
            | eapply runs_guarded_ended; [run | discriminate | run] ]
  | |- runs (fun s => _) ?s0 _ _ _ => unfold runs; cbv beta; fields; fold_runs; run
  end.

(** The run of [task] in the goal is replaced by its result. *)
Ltac execute task :=
  match goal with
  | |- context [task ?s0] =>
      let R := fresh "R" in
      eassert (R : runs task s0 _ _ _);
      [ run | unfold runs in R; rewrite R; clear R; cbn [outcome final emitted] ]
  end.

Ltac open_service s :=
  destruct s as [p rd wr c ls hs enc dec rs g f];
  unfold quiet, succeeds, rejects in *;
  cbn [port reader writer isConnected messageListeners hasSerial encode decode raises
       grants faults] in *.

Ltac observe :=
  rewrite ?service_writes_app, ?deliveries_app, ?portCalls_app, ?reads_app,
    ?toAll_writes, ?toAll_deliveries, ?toAll_portCalls, ?toAll_reads, ?app_nil_r;
  cbn [writes deliveries portCalls reads filter isPortCall flat_map app length Nat.add].

(** ** [sendMessage] *)

(** With listeners that do not throw, [sendMessage] returns [true]
    exactly when the service is connected, holds a writer and the write
    was accepted.  It writes once -- the encoded message followed by a
    line feed -- when it is connected with a writer, and nothing
    otherwise, and every listener gets one message: the line as [sent],
    or the error that tells why it was not.  The port, the reader, the
    writer, the connection flag and the listeners are left as they
    were. *)
Theorem sendMessage_outcome (message : text) (s : Service) :
  quiet s ->
  let r := sendMessage message s in
  let ready := match writer s, isConnected s with Some _, true => true | _, _ => false end in
  let accepted := ready && negb (hd false (faults s OpWrite)) in
  outcome r = Returned accepted
  /\ writes (emitted r) = (if ready then [encode s (message ++ [LF])] else [])
  /\ deliveries (emitted r)
     = map (fun l => (l, if accepted then mkMessage (Line message) sent
                         else if ready then mkMessage (FailedToSend (Rejected OpWrite)) error
                         else mkMessage NotConnected error))
           (messageListeners s)
  /\ sameFields s (final r).
Proof.
  intros Q. cbv zeta. open_service s.
  destruct wr as [wr|], c;
    try (execute (sendMessage message); cbn [andb]; observe; repeat split).
  destruct (hd false (f OpWrite)) eqn:F;
    (execute (sendMessage message); cbn [andb negb]; observe; repeat split).
Qed.

(** ** [disconnect] *)

(** With listeners that do not throw and releases that are accepted,
    [disconnect] cancels the reader, closes the writer and closes the
    port, in this order and each only if the service holds it; it then
    holds nothing, is flagged as not connected, and has told every
    listener once.  A second [disconnect] right after makes no call on the
    port. *)
Theorem disconnect_releases (s : Service) :
  quiet s ->
  reader s = None \/ succeeds OpCancel s ->
  writer s = None \/ succeeds OpCloseWriter s ->
  port s = None \/ succeeds OpClosePort s ->
  let r := disconnect s in
  outcome r = Returned tt
  /\ portCalls (emitted r) = releaseCalls s
  /\ reader (final r) = None /\ writer (final r) = None /\ port (final r) = None
  /\ isConnected (final r) = false
  /\ deliveries (emitted r)
     = map (fun l => (l, mkMessage Disconnected info)) (messageListeners s)
  /\ portCalls (emitted (disconnect (final r))) = [].
Proof.
  intros Q Hr Hw Hp. cbv zeta. open_service s. unfold releaseCalls.
  cbn [port reader writer].
  destruct rd as [rd|], wr as [wr|], p as [p|];
    repeat match goal with
           | H : None = None \/ _ |- _ => clear H
           | H : Some _ = None \/ _ |- _ => destruct H as [H | H]; [discriminate|]
           end;
    execute disconnect; fields; observe;
    (repeat split; [execute disconnect; observe; reflexivity]).
Qed.

Ltac settle :=
  repeat match goal with
         | |- _ /\ _ => split
         | |- sameFields _ _ => unfold sameFields
         | |- forall _, _ => intro
         | H : false = true |- _ => discriminate H
         | H : true = false |- _ => discriminate H
         | H : None <> None |- _ => now elim H
         | H : Some _ = None |- _ => discriminate H
         | H : _ \/ _ |- _ => destruct H
         | |- _ = _ => reflexivity
         | |- _ \/ _ => first [ left; solve [settle] | right; solve [settle] ]
         end.

(** [disconnect] never throws when the listeners do not, and it stops at
    the first release that is rejected, be it [reader.cancel()],
    [writer.close()] or [port.close()]: what comes after it in the order
    reader, writer, port is not released and stays in its field, the
    service is still flagged as it was, and every listener gets the error
    of that release instead of the notice.  Either everything was released
    and the flag is down, or the port is still held and the flag is as it
    was. *)
Theorem disconnect_stops_at_first_failure (s : Service) :
  quiet s ->
  let r := disconnect s in
  let told cause :=
    map (fun l => (l, mkMessage (ErrorDuringDisconnect (Rejected cause)) error))
        (messageListeners s) in
  outcome r = Returned tt
  /\ (reader s <> None -> rejects OpCancel s ->
      portCalls (emitted r) = [EvCancel]
      /\ sameFields s (final r)
      /\ deliveries (emitted r) = told OpCancel)
  /\ (writer s <> None -> rejects OpCloseWriter s ->
      reader s = None \/ succeeds OpCancel s ->
      portCalls (emitted r)
      = match reader s with Some _ => [EvCancel] | None => [] end ++ [EvCloseWriter]
      /\ reader (final r) = None /\ writer (final r) = writer s
      /\ port (final r) = port s /\ isConnected (final r) = isConnected s
      /\ deliveries (emitted r) = told OpCloseWriter)
  /\ (port s <> None -> rejects OpClosePort s ->
      reader s = None \/ succeeds OpCancel s ->
      writer s = None \/ succeeds OpCloseWriter s ->
      portCalls (emitted r) = releaseCalls s
      /\ reader (final r) = None /\ writer (final r) = None
      /\ port (final r) = port s /\ isConnected (final r) = isConnected s
      /\ deliveries (emitted r) = told OpClosePort)
  /\ ((isConnected (final r) = false /\ port (final r) = None)
      \/ (isConnected (final r) = isConnected s /\ port (final r) = port s)).
Proof.
  intros Q. cbv zeta. open_service s. unfold releaseCalls. cbn [port reader writer].
  destruct (hd false (f OpCancel)) eqn:F1, (hd false (f OpCloseWriter)) eqn:F2,
    (hd false (f OpClosePort)) eqn:F3;
    destruct rd as [rd|], wr as [wr|], p as [p|];
    execute disconnect; fields; observe; settle.
Qed.

(** ** [connect] *)

(** With a port at hand and listeners that do not throw, [connect] returns
    [true] exactly when [open] is accepted -- whether the reset by DTR
    works, fails or is not offered, and whether the reader and the writer
    can be taken or not.  The service is then flagged as connected; its
    reader and its writer are those of the streams that are free (a field
    keeps what it held when its stream is missing or locked); one read is
    pending exactly when the readable stream was free; and every listener
    is told once.  When [open] is rejected nothing else is asked of the
    port, the fields are as they were, and the listeners get the error. *)
Theorem connect_outcome (baudRate : option Z) (s : Service) (held : SerialPort) :
  quiet s ->
  port s = Some held ->
  let r := connect baudRate s in
  let baud := match baudRate with Some given => given | None => 9600%Z end in
  let opened := negb (hd false (faults s OpOpen)) in
  outcome r = Returned opened
  /\ (opened = true ->
      isConnected (final r) = true
      /\ port (final r) = Some held
      /\ reader (final r) = acquired (readable held) TheReader (reader s)
      /\ writer (final r) = acquired (writable held) TheWriter (writer s)
      /\ reads (emitted r) = match readable held with OpenStream => 1 | _ => 0 end
      /\ deliveries (emitted r)
         = map (fun l => (l, mkMessage (ConnectedAt baud) info)) (messageListeners s))
  /\ (opened = false ->
      sameFields s (final r)
      /\ portCalls (emitted r) = [EvOpen baud]
      /\ deliveries (emitted r)
         = map (fun l => (l, mkMessage (FailedToConnect (Rejected OpOpen)) error))
               (messageListeners s)).
Proof.
  intros Q P. cbv zeta. open_service s. subst p. destruct held as [sig rstream wstream].
  destruct (hd false (f OpOpen)) eqn:F0.
  - execute (connect baudRate). fields. observe. settle.
  - destruct sig;
      [destruct (hd false (f OpSetSignals)) eqn:F1;
       [|destruct (hd false (tl (f OpSetSignals))) eqn:F2]|];
      destruct rstream, wstream;
      execute (connect baudRate); fields; observe; cbn [negb acquired]; settle.
Qed.

(** Without a port at hand [connect] asks for one first.  In a browser
    without Web Serial, or when the request is refused, it returns
    [false] without opening anything and the listeners get the error of
    [requestPort].  When a port is granted it is kept in the service even
    if [open] is then rejected, so that the next [connect] does not ask
    again. *)
Theorem connect_without_port (baudRate : option Z) (s : Service) :
  quiet s ->
  port s = None ->
  let r := connect baudRate s in
  let baud := match baudRate with Some given => given | None => 9600%Z end in
  (hasSerial s = false ->
   outcome r = Returned false
   /\ portCalls (emitted r) = []
   /\ sameFields s (final r)
   /\ deliveries (emitted r)
      = map (fun l => (l, mkMessage WebSerialNotSupported error)) (messageListeners s))
  /\ (hasSerial s = true ->
      match grants s with
      | Some granted :: _ =>
          outcome r = Returned (negb (hd false (faults s OpOpen)))
          /\ port (final r) = Some granted
          /\ isConnected (final r)
             = (if hd false (faults s OpOpen) then isConnected s else true)
          /\ exists rest, portCalls (emitted r) = EvRequestPort :: EvOpen baud :: rest
      | _ =>
          outcome r = Returned false
          /\ portCalls (emitted r) = [EvRequestPort]
          /\ sameFields s (final r)
          /\ deliveries (emitted r)
             = map (fun l => (l, mkMessage FailedToRequestPort error)) (messageListeners s)
      end).
Proof.
  intros Q P. cbv zeta. open_service s. subst p.
  destruct hs.
  - split; [discriminate|]. intros _.
    destruct g as [|[[sig rstream wstream]|] g].
    + execute (connect baudRate). fields. observe. settle.
    + destruct (hd false (f OpOpen)) eqn:F0.
      * execute (connect baudRate). fields. observe. settle. now eexists.
      * destruct sig;
          [destruct (hd false (f OpSetSignals)) eqn:F1;
           [|destruct (hd false (tl (f OpSetSignals))) eqn:F2]|];
          destruct rstream, wstream;
          execute (connect baudRate); fields; observe; settle; now eexists.
    + execute (connect baudRate). fields. observe. settle.
  - split; [|discriminate]. intros _.
    execute (connect baudRate). fields. observe. settle.
Qed.

(** ** [detectArduino] *)

(** [detectArduino] reports a board exactly when the service is connected
    and holds a writer.  It writes the line [AT] once but it reads
    nothing: the verdict does not depend on any answer of the device, nor
    on the write being accepted. *)
Theorem detectArduino_verdict (s : Service) :
  quiet s ->
  let r := detectArduino s in
  let ready := match isConnected s, writer s with true, Some _ => true | _, _ => false end in
  outcome r
  = Returned (if ready
              then mkDetection true (Some (textOf "Arduino Compatible Device"))
              else mkDetection false None)
  /\ reads (emitted r) = 0
  /\ writes (emitted r) = (if ready then [encode s (textOf "AT" ++ [LF])] else [])
  /\ sameFields s (final r).
Proof.
  intros Q. cbv zeta. open_service s.
  destruct c, wr as [wr|];
    try (execute detectArduino; fields; observe; settle).
  destruct (hd false (f OpWrite)) eqn:F;
    execute detectArduino; fields; observe; settle.
Qed.

(** ** Text *)

Lemma trimStart_inked t : truthy (trimStart t) = existsb inked t.
Proof.
  induction t as [|c rest IH]; [reflexivity|].
  cbn [trimStart existsb]. unfold inked at 1.
  destruct (isWhiteSpace c); [exact IH | reflexivity].
Qed.

Lemma trimStart_suffix t : exists dropped, t = dropped ++ trimStart t.
Proof.
  induction t as [|c rest [dropped IH]]; [now exists []|].
  cbn [trimStart]. destruct (isWhiteSpace c).
  - exists (c :: dropped). cbn [app]. now f_equal.
  - now exists [].
Qed.

Lemma trimStart_head t c rest : trimStart t = c :: rest -> isWhiteSpace c = false.
Proof.
  induction t as [|d t IH]; [discriminate|].
  cbn [trimStart]. destruct (isWhiteSpace d) eqn:E; [exact IH|].
  intros H. injection H as <- _. exact E.
Qed.

Lemma trimStart_fixed c rest : isWhiteSpace c = false -> trimStart (c :: rest) = c :: rest.
Proof. intros H. cbn [trimStart]. now rewrite H. Qed.

Lemma trimStart_idempotent t : trimStart (trimStart t) = trimStart t.
Proof.
  destruct (trimStart t) as [|c rest] eqn:E; [reflexivity|].
  apply trimStart_fixed. now apply trimStart_head in E.
Qed.

Lemma truthy_rev (t : text) : truthy (rev t) = truthy t.
Proof.
  destruct t as [|c rest]; [reflexivity|].
  cbn [rev truthy]. now destruct (rev rest).
Qed.

Lemma existsb_rev {A} (f : A -> bool) l : existsb f (rev l) = existsb f l.
Proof.
  induction l as [|a l IH]; [reflexivity|].
  cbn [rev existsb]. rewrite existsb_app, IH. cbn [existsb].
  rewrite orb_false_r. apply orb_comm.
Qed.

Lemma existsb_trimStart t : existsb inked (trimStart t) = existsb inked t.
Proof.
  induction t as [|c rest IH]; [reflexivity|].
  cbn [trimStart]. destruct (isWhiteSpace c) eqn:E; [|reflexivity].
  cbn [existsb]. unfold inked at 2. rewrite E. exact IH.
Qed.

(** [line.trim()] is truthy exactly when the line holds a code unit that
    is not white space. *)
Lemma trim_inked t : truthy (trim t) = existsb inked t.
Proof.
  unfold trim. now rewrite truthy_rev, trimStart_inked, existsb_rev, existsb_trimStart.
Qed.

Lemma trim_idempotent t : trim (trim t) = trim t.
Proof.
  unfold trim. set (a := trimStart t). set (b := trimStart (rev a)).
  assert (B : trimStart b = b) by apply trimStart_idempotent.
  assert (A : trimStart (rev b) = rev b).
  { destruct (rev b) as [|c rest] eqn:E; [reflexivity|].
    apply trimStart_fixed.
    destruct (trimStart_suffix (rev a)) as [dropped D]. fold b in D.
    apply (f_equal (@rev Z)) in D. rewrite rev_involutive, rev_app_distr, E in D.
    cbn [app] in D. unfold a in D. now apply trimStart_head in D. }
  now rewrite A, rev_involutive, B.
Qed.

Lemma trimStart_incl t c : In c (trimStart t) -> In c t.
Proof.
  destruct (trimStart_suffix t) as [dropped D]. intros H. rewrite D.
  apply in_or_app. now right.
Qed.

Lemma trim_incl t c : In c (trim t) -> In c t.
Proof.
  unfold trim. intros H. apply in_rev in H. apply trimStart_incl in H.
  apply in_rev in H. now apply trimStart_incl in H.
Qed.

Lemma split_pieces sep : forall t, Forall (fun piece => ~ In sep piece) (split sep t).
Proof.
  induction t as [|c rest IH]; cbn [split].
  - constructor; [intros [] | constructor].
  - destruct (Z.eqb_spec c sep) as [E | N].
    + constructor; [intros [] | exact IH].
    + destruct (split sep rest) as [|piece pieces].
      * constructor; [|constructor]. intros [H | []]. congruence.
      * inversion IH as [|? ? Hp Hps]; subst. constructor; [|exact Hps].
        intros [H | H]; [congruence | now apply Hp].
Qed.

(** The lines of a chunk, once trimmed: none is empty, each is trimmed and
    none holds a line feed. *)
Lemma linesOf_trimmed decoded :
  Forall (fun line => line <> [] /\ trim line = line /\ ~ In LF line)
         (map trim (linesOf decoded)).
Proof.
  unfold linesOf. pose proof (split_pieces LF decoded) as P.
  induction P as [|piece pieces Hp _ IH]; [constructor|].
  cbn [filter]. destruct (truthy (trim piece)) eqn:T; [|exact IH].
  cbn [map]. constructor; [|exact IH].
  split; [|split].
  - intros E. rewrite E in T. discriminate.
  - apply trim_idempotent.
  - intros H. apply trim_incl in H. now apply Hp.
Qed.

Lemma split_plain sep : forall t, ~ In sep t -> split sep t = [t].
Proof.
  induction t as [|c rest IH]; [reflexivity|].
  cbn [split In]. intros H.
  destruct (Z.eqb_spec c sep) as [E | N]; [tauto|].
  rewrite IH by tauto. reflexivity.
Qed.

Lemma split_ended sep : forall t, ~ In sep t -> split sep (t ++ [sep]) = [t; []].
Proof.
  induction t as [|c rest IH]; cbn [app split In]; intros H.
  - now rewrite Z.eqb_refl.
  - destruct (Z.eqb_spec c sep) as [E | N]; [tauto|].
    rewrite IH by tauto. reflexivity.
Qed.

(** ** The reading loop *)

Lemma deliveries_lines (listeners : list Listener) type (lines : list text) :
  deliveries (flat_map (fun line => toAll listeners (mkMessage (Line line) type)) lines)
  = flat_map (fun line => map (fun l => (l, mkMessage (Line line) type)) listeners) lines.
Proof.
  induction lines as [|line rest IH]; [reflexivity|].
  cbn [flat_map]. now rewrite deliveries_app, toAll_deliveries, IH.
Qed.

Lemma flat_map_rendered {X Y W} (f : X -> Y) (g : Y -> list W) (l : list X) :
  flat_map (fun x => g (f x)) l = flat_map g (map f l).
Proof. induction l as [|x l IH]; [reflexivity|]. cbn [flat_map map]. now rewrite IH. Qed.

Lemma lines_reads (listeners : list Listener) type (lines : list text) :
  reads (flat_map (fun line => toAll listeners (mkMessage (Line line) type)) lines) = 0.
Proof.
  induction lines as [|line rest IH]; [reflexivity|].
  cbn [flat_map]. now rewrite reads_app, toAll_reads, IH.
Qed.

Lemma resumeReading_delivers_run (value : list Z) (s : Service) :
  quiet s ->
  isConnected s = true ->
  reader s <> None ->
  let r := resumeReading (Value value) s in
  let lines := map trim (linesOf (decode s value)) in
  outcome r = Returned Suspended
  /\ deliveries (emitted r) = flat_map (receivedBy (messageListeners s)) lines
  /\ final r = s
  /\ reads (emitted r) = 1.
Proof.
  intros Q C R. cbv zeta. open_service s. subst c.
  destruct rd as [rd|]; [|congruence].
  execute (resumeReading (Value value)). fields.
  rewrite deliveries_app, reads_app.
  rewrite (flat_map_rendered trim
             (fun line => toAll ls (mkMessage (Line line) received))).
  rewrite deliveries_lines, lines_reads. cbn [deliveries flat_map reads filter length app].
  rewrite app_nil_r. repeat split.
Qed.

(** A chunk that arrives while the service is connected and holds its
    reader: the chunk is decoded on its own, cut at the line feeds, and
    every line that is not blank is delivered, trimmed, to every listener,
    line after line in the order of the chunk; then the next read is
    issued and the loop is suspended again.  No message is empty, holds a
    line feed or has white space at either end.  The fields of the
    service are not touched. *)
Theorem resumeReading_delivers (value : list Z) (s : Service) :
  quiet s ->
  isConnected s = true ->
  reader s <> None ->
  let r := resumeReading (Value value) s in
  let lines := map trim (linesOf (decode s value)) in
  outcome r = Returned Suspended
  /\ deliveries (emitted r) = flat_map (receivedBy (messageListeners s)) lines
  /\ Forall (fun line => line <> [] /\ trim line = line /\ ~ In LF line) lines
  /\ reads (emitted r) = 1
  /\ final r = s.
Proof.
  intros Q C R. cbv zeta.
  destruct (@resumeReading_delivers_run value s Q C R) as (O & D & F & Rd).
  cbv zeta in *. repeat split; try assumption. apply linesOf_trimmed.
Qed.

Lemma lines_portCalls (listeners : list Listener) type (lines : list text) :
  portCalls (flat_map (fun line => toAll listeners (mkMessage (Line line) type)) lines) = [].
Proof.
  induction lines as [|line rest IH]; [reflexivity|].
  cbn [flat_map]. now rewrite portCalls_app, toAll_portCalls, IH.
Qed.

Ltac observe_lines :=
  rewrite ?deliveries_app, ?reads_app, ?portCalls_app;
  rewrite ?(flat_map_rendered trim (fun line => toAll _ (mkMessage (Line line) received)));
  rewrite ?deliveries_lines, ?lines_reads, ?lines_portCalls, ?toAll_deliveries,
    ?toAll_reads, ?toAll_portCalls;
  cbn [deliveries portCalls isPortCall flat_map reads filter length app Nat.add];
  rewrite ?app_nil_r.

(** How the reading loop ends.  At the end of the stream it ends without
    a word.  When the read is rejected the listeners get the error only if
    the service is still flagged as connected: after [disconnect] has put
    the flag down the error is dropped.  A chunk that arrives when the
    flag is down is still delivered, and then the loop ends; a chunk that
    arrives when the reader field has been emptied is delivered, and the
    call of [read] on [null] then ends the loop with an error.  In every
    case no further read is issued, and the lock is released if the
    service still holds the reader. *)
Theorem resumeReading_ends (s : Service) :
  quiet s ->
  let release := match reader s with Some _ => [EvReleaseLock] | None => [] end in
  let failure cause :=
    map (fun l => (l, mkMessage (ReadingError cause) error)) (messageListeners s) in
  (let r := resumeReading EndOfStream s in
   outcome r = Returned Ended /\ deliveries (emitted r) = []
   /\ portCalls (emitted r) = release /\ final r = s)
  /\ (let r := resumeReading ReadRejected s in
      outcome r = Returned Ended
      /\ deliveries (emitted r)
         = (if isConnected s then failure (Rejected OpRead) else [])
      /\ portCalls (emitted r) = release /\ final r = s)
  /\ (forall value,
        isConnected s = false ->
        let r := resumeReading (Value value) s in
        outcome r = Returned Ended
        /\ deliveries (emitted r)
           = flat_map (receivedBy (messageListeners s)) (map trim (linesOf (decode s value)))
        /\ portCalls (emitted r) = release /\ final r = s)
  /\ (forall value,
        isConnected s = true ->
        reader s = None ->
        let r := resumeReading (Value value) s in
        outcome r = Returned Ended
        /\ deliveries (emitted r)
           = flat_map (receivedBy (messageListeners s)) (map trim (linesOf (decode s value)))
             ++ failure ReaderIsNull
        /\ portCalls (emitted r) = [] /\ final r = s).
Proof.
  intros Q. cbv zeta. open_service s.
  split; [|split; [|split]].
  - destruct rd as [rd|]; execute (resumeReading EndOfStream); fields; observe; settle.
  - destruct rd as [rd|], c; execute (resumeReading ReadRejected); fields; observe; settle.
  - intros value ->. destruct rd as [rd|];
      execute (resumeReading (Value value)); fields; observe_lines; settle.
  - intros value -> ->.
    execute (resumeReading (Value value)); fields; observe_lines; settle.
Qed.

Lemma linesOf_plain t :
  ~ In LF t -> existsb inked t = true -> linesOf t = [t].
Proof.
  intros N I. unfold linesOf. rewrite split_plain by assumption.
  cbn [filter]. now rewrite trim_inked, I.
Qed.

Lemma linesOf_ended t :
  ~ In LF t -> existsb inked t = true -> linesOf (t ++ [LF]) = [t].
Proof.
  intros N I. unfold linesOf. rewrite split_ended by assumption.
  cbn [filter]. now rewrite trim_inked, I.
Qed.

(** Lines are cut where the chunks end.  A line that reaches the service
    in two chunks -- its beginning in one, its end and the line feed in
    the next -- is delivered as two messages, one per chunk, and not as
    the line it was: the chunks are decoded and cut one by one and nothing
    is kept from one to the next.  The same line in a single chunk is one
    message. *)
Theorem lines_are_cut_at_chunk_ends (s : Service) (first second whole : list Z)
        (beginning ending : text) :
  quiet s ->
  isConnected s = true ->
  reader s <> None ->
  ~ In LF beginning -> existsb inked beginning = true ->
  ~ In LF ending -> existsb inked ending = true ->
  decode s first = beginning ->
  decode s second = ending ++ [LF] ->
  decode s whole = beginning ++ ending ++ [LF] ->
  let r1 := resumeReading (Value first) s in
  let r2 := resumeReading (Value second) (final r1) in
  deliveries (emitted r1) ++ deliveries (emitted r2)
  = receivedBy (messageListeners s) (trim beginning)
    ++ receivedBy (messageListeners s) (trim ending)
  /\ deliveries (emitted (resumeReading (Value whole) s))
     = receivedBy (messageListeners s) (trim (beginning ++ ending)).
Proof.
  intros Q C R Nb Ib Ne Ie D1 D2 D3. cbv zeta.
  destruct (@resumeReading_delivers_run first s Q C R) as (_ & E1 & F1 & _).
  destruct (@resumeReading_delivers_run second s Q C R) as (_ & E2 & _ & _).
  destruct (@resumeReading_delivers_run whole s Q C R) as (_ & E3 & _ & _).
  cbv zeta in *. rewrite F1, E1, E2, E3, D1, D2, D3.
  rewrite linesOf_plain, linesOf_ended by assumption.
  rewrite app_assoc, linesOf_ended.
  - cbn [map flat_map]. now rewrite !app_nil_r.
  - intros H. apply in_app_or in H. tauto.
  - rewrite existsb_app, Ib. reflexivity.
Qed.

(** ** The same at a service that is connected, with two listeners *)

Lemma monitor_quiet listeners : quiet (monitor listeners).
Proof. intros l m. reflexivity. Qed.

Lemma unplugged_quiet listeners : quiet (unplugged listeners).
Proof. intros l m. reflexivity. Qed.

Lemma created_quiet granted : quiet (created granted).
Proof. intros l m. reflexivity. Qed.

(** The line [AT] is written with its line feed and both listeners get it
    as [sent]. *)
Example sendMessage_outcome_witness :
  let s := monitor [1; 2] in
  let r := sendMessage (textOf "AT") s in
  quiet s
  /\ outcome r = Returned true
  /\ writes (emitted r) = [[65; 84; 10]%Z]
  /\ deliveries (emitted r)
     = [(1, mkMessage (Line [65; 84]%Z) sent); (2, mkMessage (Line [65; 84]%Z) sent)]
  /\ sameFields s (final r).
Proof.
  cbv zeta. split; [apply monitor_quiet|].
  exact (@sendMessage_outcome (textOf "AT") (monitor [1; 2]) (monitor_quiet [1; 2])).
Defined.

Example disconnect_releases_witness :
  let s := monitor [1; 2] in
  let r := disconnect s in
  outcome r = Returned tt
  /\ portCalls (emitted r) = [EvCancel; EvCloseWriter; EvClosePort]
  /\ reader (final r) = None /\ writer (final r) = None /\ port (final r) = None
  /\ isConnected (final r) = false
  /\ deliveries (emitted r)
     = [(1, mkMessage Disconnected info); (2, mkMessage Disconnected info)]
  /\ portCalls (emitted (disconnect (final r))) = [].
Proof.
  exact (@disconnect_releases (monitor [1; 2]) (monitor_quiet [1; 2])
           (or_intror eq_refl) (or_intror eq_refl) (or_intror eq_refl)).
Defined.

(** Once the device is unplugged [disconnect] releases nothing: the port
    stays open and the service stays flagged as connected. *)
Example disconnect_stops_at_first_failure_witness :
  let s := unplugged [1] in
  let r := disconnect s in
  quiet s
  /\ reader s <> None /\ rejects OpCancel s
  /\ outcome r = Returned tt
  /\ portCalls (emitted r) = [EvCancel]
  /\ sameFields s (final r)
  /\ deliveries (emitted r)
     = [(1, mkMessage (ErrorDuringDisconnect (Rejected OpCancel)) error)].
Proof.
  cbv zeta. split; [apply unplugged_quiet|].
  split; [discriminate|]. split; [reflexivity|].
  destruct (@disconnect_stops_at_first_failure (unplugged [1]) (unplugged_quiet [1]))
    as (O & Leak & _).
  split; [exact O|]. apply Leak; [discriminate | reflexivity].
Defined.

(** A port whose readable stream is locked: [connect] returns [true] and
    the service is flagged as connected, without a reader and without a
    pending read. *)
Example connect_outcome_witness :
  let held := mkPort true LockedStream OpenStream in
  let s := set_port (Some held) (created held) in
  let r := connect None s in
  quiet s /\ port s = Some held
  /\ outcome r = Returned true
  /\ isConnected (final r) = true
  /\ reader (final r) = None
  /\ writer (final r) = Some TheWriter
  /\ reads (emitted r) = 0.
Proof.
  cbv zeta. split; [intros l m; reflexivity|]. split; [reflexivity|].
  destruct (@connect_outcome None
              (set_port (Some (mkPort true LockedStream OpenStream))
                        (created (mkPort true LockedStream OpenStream)))
              (mkPort true LockedStream OpenStream)
              ltac:(intros l m; reflexivity) eq_refl)
    as (O & Opened & _).
  split; [exact O|].
  destruct (Opened eq_refl) as (C & _ & R & W & Rd & _).
  repeat split; assumption.
Defined.

Example connect_without_port_witness :
  let s := created freePort in
  let r := connect (Some 115200%Z) s in
  quiet s /\ port s = None
  /\ outcome r = Returned true
  /\ port (final r) = Some freePort
  /\ isConnected (final r) = true.
Proof.
  cbv zeta. split; [apply created_quiet|]. split; [reflexivity|].
  destruct (@connect_without_port (Some 115200%Z) (created freePort)
              (created_quiet freePort) eq_refl)
    as (_ & Supported).
  destruct (Supported eq_refl) as (O & P & C & _).
  repeat split; assumption.
Defined.

(** The write is rejected and the board is reported all the same. *)
Example detectArduino_verdict_witness :
  let s := set_faults (fun _ => [true]) (monitor []) in
  let r := detectArduino s in
  quiet s
  /\ outcome r = Returned (mkDetection true (Some (textOf "Arduino Compatible Device")))
  /\ reads (emitted r) = 0
  /\ writes (emitted r) = [[65; 84; 10]%Z]
  /\ sameFields s (final r).
Proof.
  cbv zeta. split; [intros l m; reflexivity|].
  exact (@detectArduino_verdict (set_faults (fun _ => [true]) (monitor []))
           ltac:(intros l m; reflexivity)).
Defined.

(** The chunk [" ok\r\n\r\nready"]: two messages, to each listener. *)
Example resumeReading_delivers_witness :
  let s := monitor [1; 2] in
  let r := resumeReading (Value (textOf " ok" ++ [13; 10; 13; 10] ++ textOf "ready")%Z) s in
  quiet s /\ isConnected s = true /\ reader s <> None
  /\ outcome r = Returned Suspended
  /\ deliveries (emitted r)
     = receivedBy [1; 2] (textOf "ok") ++ receivedBy [1; 2] (textOf "ready")
  /\ reads (emitted r) = 1
  /\ final r = s.
Proof.
  cbv zeta. split; [apply monitor_quiet|]. split; [reflexivity|]. split; [discriminate|].
  destruct (@resumeReading_delivers
              (textOf " ok" ++ [13; 10; 13; 10] ++ textOf "ready")%Z (monitor [1; 2])
              (monitor_quiet [1; 2]) eq_refl ltac:(discriminate))
    as (O & D & _ & R & F).
  repeat split; assumption.
Defined.

Example resumeReading_ends_witness :
  let s := set_isConnected false (monitor [1]) in
  let r := resumeReading ReadRejected s in
  quiet s
  /\ outcome r = Returned Ended
  /\ deliveries (emitted r) = []
  /\ portCalls (emitted r) = [EvReleaseLock]
  /\ final r = s.
Proof.
  cbv zeta. split; [intros l m; reflexivity|].
  destruct (@resumeReading_ends (set_isConnected false (monitor [1]))
              ltac:(intros l m; reflexivity))
    as (_ & Rejection & _).
  exact Rejection.
Defined.

(** The line [ready] in the chunks [rea] and [dy], line feed: the listener
    gets [rea] and then [dy]. *)
Example lines_are_cut_at_chunk_ends_witness :
  let s := monitor [1] in
  let r1 := resumeReading (Value (textOf "rea")) s in
  let r2 := resumeReading (Value (textOf "dy" ++ [LF])) (final r1) in
  deliveries (emitted r1) ++ deliveries (emitted r2)
  = receivedBy [1] (textOf "rea") ++ receivedBy [1] (textOf "dy")
  /\ deliveries (emitted (resumeReading (Value (textOf "ready" ++ [LF])) s))
     = receivedBy [1] (textOf "ready").
Proof.
  exact (@lines_are_cut_at_chunk_ends (monitor [1])
           (textOf "rea") (textOf "dy" ++ [LF]) (textOf "ready" ++ [LF])
           (textOf "rea") (textOf "dy")
           (monitor_quiet [1]) eq_refl ltac:(discriminate)
           ltac:(cbv; intuition discriminate) eq_refl
           ltac:(cbv; intuition discriminate) eq_refl
           eq_refl eq_refl eq_refl).
Defined.

End SerialServiceFacts.
